(** * Resumable embedding pipeline (kurly/initial): a shallow embedding

    Source files modelled here:
    - [kurly/initial/initial_embedding.py]     (module [Initial])
    - [kurly/initial/retry_failed_embeddings.py] (module [Retry])

    Python values are modelled as follows.
    - [int] is [Z].
    - [str] is a list of Unicode code points ([pystr]); slicing, [strip]
      and [replace] act on code points, as in Python 3.
    - a [set] of ints is a [gset Z]; [list(s)] is [elements s].
    - the vector index is a [gmap] from point id to (vector, payload).
    - embedding vectors are lists of IEEE binary64 floats ([PrimFloat]).
    - the outside world (Ollama, Qdrant, the two JSON files, the clock) is an
      explicit [World] threaded through a state-and-exception monad. *)

From Stdlib Require Import ZArith NArith QArith List Bool Lia Floats Uint63.
From stdpp Require Import base option list gmap sets sorting.

Local Open Scope Z_scope.

(** ** Python strings *)

Module Py.

Definition pystr := list N.

(** [str.isspace] on one code point (the Unicode whitespace of CPython). *)
Definition isspace (c : N) : bool :=
  (((9 <=? c) && (c <=? 13)) || ((28 <=? c) && (c <=? 32))
   || (c =? 133) || (c =? 160) || (c =? 5760)
   || ((8192 <=? c) && (c <=? 8202))
   || (c =? 8232) || (c =? 8233) || (c =? 8239) || (c =? 8287)
   || (c =? 12288))%N.

Fixpoint lstrip (s : pystr) : pystr :=
  match s with
  | c :: s' => if isspace c then lstrip s' else s
  | [] => []
  end.

Definition rstrip (s : pystr) : pystr := rev (lstrip (rev s)).

(** [s.strip()] *)
Definition strip (s : pystr) : pystr := rstrip (lstrip s).

(** [s[:n]] for an int [n]; a negative [n] counts from the end. *)
Definition slice_to (n : Z) (s : pystr) : pystr :=
  if 0 <=? n then take (Z.to_nat n) s
  else take (length s - Z.to_nat (- n)) s.

(** [len(s)] *)
Definition len (s : pystr) : Z := Z.of_nat (length s).

Fixpoint starts_with (p s : pystr) : bool :=
  match p, s with
  | [], _ => true
  | a :: p', b :: s' => (a =? b)%N && starts_with p' s'
  | _ :: _, [] => false
  end.

(** [p in s] for strings. *)
Fixpoint contains (p s : pystr) : bool :=
  starts_with p s ||
  match s with
  | [] => false
  | _ :: s' => contains p s'
  end.

(** [s.replace(old, new)] for a non-empty [old]: leftmost non-overlapping
    occurrences. The fuel is the length of [s]; each step consumes at least
    one code point. *)
Fixpoint replace_fuel (fuel : nat) (old new s : pystr) : pystr :=
  match fuel with
  | O => s
  | S fuel' =>
      match s with
      | [] => []
      | c :: s' =>
          if starts_with old s
          then new ++ replace_fuel fuel' old new (drop (length old) s)
          else c :: replace_fuel fuel' old new s'
      end
  end.

Definition replace (old new s : pystr) : pystr :=
  replace_fuel (length s) old new s.

(** [" ".join(l)] with an arbitrary separator. *)
Fixpoint join (sep : pystr) (l : list pystr) : pystr :=
  match l with
  | [] => []
  | [x] => x
  | x :: l' => x ++ sep ++ join sep l'
  end.

(** [int(s)] on the text of a CSV cell: surrounding whitespace, an optional
    sign, then ASCII digits; anything else raises [ValueError] ([None]).
    Python's [int] also accepts an underscore between two digits and the
    decimal digits of other scripts, which [psql] never prints for a
    numeric column; they are not accepted here, so the definition is [int]
    on ASCII text without underscore and narrower elsewhere. *)
Definition digit_val (c : N) : option Z :=
  if ((48 <=? c) && (c <=? 57))%N then Some (Z.of_N (c - 48)) else None.

Fixpoint digits_val (acc : Z) (s : pystr) : option Z :=
  match s with
  | [] => Some acc
  | c :: s' =>
      match digit_val c with
      | Some d => digits_val (10 * acc + d) s'
      | None => None
      end
  end.

Definition int_of_str (s : pystr) : option Z :=
  match strip s with
  | [] => None
  | 45%N :: [] => None
  | 43%N :: [] => None
  | 45%N :: ds => Z.opp <$> digits_val 0 ds
  | 43%N :: ds => digits_val 0 ds
  | ds => digits_val 0 ds
  end.

(** Truthiness of a string: non-empty. *)
Definition truthy (s : pystr) : bool :=
  match s with [] => false | _ => true end.

End Py.

Import Py.

(** ** Identity mapping

    The two drivers compute the index point id inline:
    [point_id = int(product_no)] for products and
    [point_id = 10000000 + review_id] for reviews. *)

Inductive Kind := Product | Review.

Definition REVIEW_OFFSET : Z := 10000000.

Definition product_point_id (product_no : Z) : Z := product_no.

Definition review_point_id (review_id : Z) : Z := REVIEW_OFFSET + review_id.

Definition point_id (k : Kind) (ident : Z) : Z :=
  match k with
  | Product => product_point_id ident
  | Review => review_point_id ident
  end.

(** ** Index points, rows and the failure ledger *)

Definition vector := list float.

(** The payload of a product point ([process_products], the [payload] dict).
    The [type] key is the constructor of [Payload] below. *)
Module ProductPayload.
Record t := mk {
  product_no : pystr;
  product_name : pystr;
  sales_price : Z;
  discounted_price : Z;
  review_count : Z;
  product_image_url : pystr;
  price : Z;
  has_discount : bool;
  indexed_at : pystr
}.
End ProductPayload.

(** The payload of a review point. [contents] is [None] when the key is
    absent (the recovery driver stores no preview); [embedding_fallback] is
    [true] when the key is present (it is only ever set to [True]). *)
Module ReviewPayload.
Record t := mk {
  review_id : Z;
  product_no : pystr;
  review_score : Z;
  registered_at : option pystr;
  indexed_at : pystr;
  contents : option pystr;
  embedding_fallback : bool
}.
End ReviewPayload.

Inductive Payload :=
| PayloadProduct (p : ProductPayload.t)
| PayloadReview (p : ReviewPayload.t).

(** One entry of [product_notice_notices] after [json.loads], taken to be
    an object whose [title] and [description] are texts: the two fields are
    [item.get("title")] and [item.get("description")], [None] when the key
    is missing or null. An entry that is not an object, or a field that is
    neither a text nor null, makes [notice_json_to_text] raise; rows with
    such entries are not represented, and what is proved about a product
    row is about rows whose notices have this shape. *)
Record Notice := { title : option pystr; description : option pystr }.

(** A CSV row of [kurly_skin_products]. Cells are text, except [id], the
    integer key that the driver reads with [int(row[0])], and [notices],
    the value of [json.loads(row[4]) if row[4] else []] with [[]] on a
    decoding error. *)
Module ProductRow.
Record t := mk {
  id : Z;
  product_no : pystr;
  product_name : pystr;
  short_description : pystr;
  notices : list Notice;
  sales_price : pystr;
  discounted_price : pystr;
  review_count : pystr;
  product_image_url : pystr
}.
End ProductRow.

(** A CSV row of [kurly_skin_reviews]; a NULL and an empty text both print
    as the empty cell. *)
Module ReviewRow.
Record t := mk {
  id : Z;
  product_no : pystr;
  contents : pystr;
  review_score : pystr;
  registered_at : pystr
}.
End ReviewRow.

(** One entry of [embedding_failures.json]. [review_id] is what
    [x.get("review_id")] returns. *)
Module Failure.
Record t := mk {
  review_id : option Z;
  product_no : pystr;
  error : option pystr;
  contents_preview : pystr;
  contents_length : Z
}.
End Failure.

(** The content of [embedding_checkpoint.json]; a missing key reads as the
    empty list ([checkpoint.get(..., [])]). *)
Record Checkpoint := { products : list Z; reviews : list Z }.

(** ** The outside world *)

Inductive EmbedResponse :=
| EmbedBody (embeddings : option (list vector))
| EmbedError (msg : pystr)
| EmbedInterrupt.

Inductive PutResponse :=
| PutOk
| PutError (msg : pystr)
| PutInterrupt.

(** What the services answer: the [n]-th POST to Ollama with a given text,
    the [n]-th PUT to Qdrant, the [n]-th reading of the clock, and the two
    tables in [ORDER BY id] order. [EmbedInterrupt] and [PutInterrupt] stand
    for a [KeyboardInterrupt] delivered while the call blocks. *)
Record Env := {
  ollama : nat -> pystr -> EmbedResponse;
  qdrant_put : nat -> Z -> vector -> Payload -> PutResponse;
  now : nat -> pystr;
  kurly_skin_products : list ProductRow.t;
  kurly_skin_reviews : list ReviewRow.t
}.

(** The lines of output that the claims refer to. *)
Inductive Message :=
| MsgProductSummary (success skip fail : Z)
| MsgReviewSummary (success skip fail : Z)
| MsgAllDone
| MsgInterruptedCheckpointSaved
| MsgUnexpectedError (e : pystr).

Record World := mkWorld {
  embed_sent : list pystr;
  put_calls : nat;
  qdrant : gmap Z (vector * Payload);
  checkpoint_file : option Checkpoint;
  failures_file : option (list Failure.t);
  clock_reads : nat;
  stdout : list Message
}.

Inductive exn :=
| KeyboardInterrupt
| SystemExit (code : Z)
| Exception (msg : pystr).

(** State and exceptions: a computation returns a value or raises, and in
    both cases leaves a world behind. *)
Definition M (A : Type) : Type := World -> (A + exn) * World.

Definition ret {A} (a : A) : M A := fun w => (inl a, w).

Definition raise {A} (e : exn) : M A := fun w => (inr e, w).

Definition bind {A B} (m : M A) (k : A -> M B) : M B :=
  fun w =>
    match m w with
    | (inl a, w') => k a w'
    | (inr e, w') => (inr e, w')
    end.

Declare Scope py_scope.
Delimit Scope py_scope with py.
Notation "x <- m ;; k" := (bind m (fun x => k))
  (at level 100, m at next level, right associativity) : py_scope.
Notation "m ;;; k" := (bind m (fun _ => k))
  (at level 100, right associativity) : py_scope.
Local Open Scope py_scope.

(** [try: m except Exception as e: h e]. [KeyboardInterrupt] and
    [SystemExit] derive from [BaseException] and pass through. *)
Definition try_except {A} (m : M A) (h : pystr -> M A) : M A :=
  fun w =>
    match m w with
    | (inr (Exception msg), w') => h msg w'
    | r => r
    end.

(** [for x in xs: body], where the body threads the local variables [S] and
    ends in a branch labelled by an [O]; an exception raised by the body ends
    the loop and propagates. The result lists the labels in order. *)
Fixpoint for_each {R S O} (body : R -> S -> M (O * S)) (xs : list R) (st : S)
    : M (list O * S) :=
  match xs with
  | [] => ret ([], st)
  | x :: xs' =>
      r <- body x st ;;
      rs <- for_each body xs' (snd r) ;;
      ret (fst r :: fst rs, snd rs)
  end.

Definition print (msg : Message) : M unit :=
  fun w => (inl tt,
            mkWorld (embed_sent w) (put_calls w) (qdrant w) (checkpoint_file w)
                    (failures_file w) (clock_reads w) (stdout w ++ [msg])).

(** The text of the error [requests] raises for a float that is not finite. *)
Definition MSG_NOT_JSON : pystr :=
  [79; 117; 116; 32; 111; 102; 32; 114; 97; 110; 103; 101; 32; 102; 108; 111;
  97; 116; 32; 118; 97; 108; 117; 101; 115; 32; 97; 114; 101; 32; 110; 111;
  116; 32; 74; 83; 79; 78; 32; 99; 111; 109; 112; 108; 105; 97; 110; 116]%N.

Section Services.

Variable env : Env.

(** [datetime.now().isoformat()] *)
Definition datetime_now : M pystr :=
  fun w => (inl (now env (clock_reads w)),
            mkWorld (embed_sent w) (put_calls w) (qdrant w) (checkpoint_file w)
                    (failures_file w) (S (clock_reads w)) (stdout w)).

(** [requests.post(OLLAMA_EMBED_URL, json={"model": "bge-m3", "input": text})]
    followed by [raise_for_status()], [json()] and [get("embeddings")]. *)
Definition post_embed (text : pystr) : M (option (list vector)) :=
  fun w =>
    let w' := mkWorld (embed_sent w ++ [text]) (put_calls w) (qdrant w)
                      (checkpoint_file w) (failures_file w) (clock_reads w)
                      (stdout w) in
    match ollama env (length (embed_sent w)) text with
    | EmbedBody emb => (inl emb, w')
    | EmbedError msg => (inr (Exception msg), w')
    | EmbedInterrupt => (inr KeyboardInterrupt, w')
    end.

(** [requests] encodes the body of a request before it sends anything, and
    refuses a float that is not finite (a NaN or an infinity, which
    [response.json()] does read): the call then raises without a request
    being made. *)
Definition encodable (v : vector) : bool := forallb PrimFloat.is_finite v.

(** [requests.put(url, json={"points": [{id, vector, payload}]})] followed by
    [raise_for_status()]. An accepted PUT replaces the point. *)
Definition put_point (point_id : Z) (v : vector) (payload : Payload) : M unit :=
  fun w =>
    let stored q := mkWorld (embed_sent w) (S (put_calls w)) q
                            (checkpoint_file w) (failures_file w)
                            (clock_reads w) (stdout w) in
    if encodable v then
      match qdrant_put env (put_calls w) point_id v payload with
      | PutOk => (inl tt, stored (<[point_id := (v, payload)]> (qdrant w)))
      | PutError msg => (inr (Exception msg), stored (qdrant w))
      | PutInterrupt => (inr KeyboardInterrupt, stored (qdrant w))
      end
    else (inr (Exception MSG_NOT_JSON), w).

(** Both drivers define the same [save_to_qdrant]: up to [retry] PUTs, [True]
    on the first accepted one, [False] when the last one fails. The argument
    of the recursion is the number of attempts left. *)
Fixpoint save_to_qdrant_from (attempts : nat) (point_id : Z) (v : vector)
    (payload : Payload) : M bool :=
  match attempts with
  | O => ret false
  | S attempts' =>
      try_except
        (put_point point_id v payload ;;; ret true)
        (fun _ =>
           match attempts' with
           | O => ret false
           | S _ => save_to_qdrant_from attempts' point_id v payload
           end)
  end.

Definition save_to_qdrant (point_id : Z) (v : vector) (payload : Payload)
    : M bool :=
  save_to_qdrant_from 3 point_id v payload.

(** Both drivers define the same [load_checkpoint] and [save_checkpoint].
    The file is read and written in one piece: a write that is cut short
    (an interrupt or an I/O error between [open(..., "w")] and the end of
    [json.dump]) and a file that does not parse are not represented, and
    what is proved about the checkpoint file is about runs in which every
    write of the file completes. *)
Definition load_checkpoint : M Checkpoint :=
  fun w =>
    match checkpoint_file w with
    | Some c => (inl c, w)
    | None => (inl {| products := []; reviews := [] |}, w)
    end.

Definition save_checkpoint (checkpoint : Checkpoint) : M unit :=
  fun w => (inl tt,
            mkWorld (embed_sent w) (put_calls w) (qdrant w) (Some checkpoint)
                    (failures_file w) (clock_reads w) (stdout w)).

(** [json.dump(failed_log, open("embedding_failures.json", "w"))] *)
Definition save_failures (failed_log : list Failure.t) : M unit :=
  fun w => (inl tt,
            mkWorld (embed_sent w) (put_calls w) (qdrant w) (checkpoint_file w)
                    (Some failed_log) (clock_reads w) (stdout w)).

End Services.

(** ** String literals of the two scripts, as code points

    In source order: the two legal-phrase prefixes removed from a title, the
    nine substrings a title is matched against, the sentence templates of
    [notice_json_to_text], the three pieces of the product embedding text,
    the one-character ellipsis U+2026 and the three-dot marker, the
    two-character text backslash-n, a space and a newline. *)

Definition LAW_A : pystr :=
  [65378; 54868; 51109; 54408; 48277; 65379; 50640; 32; 46384; 46972; 32]%N.
Definition LAW_B : pystr :=
  [65378; 54868; 51109; 54408; 48277; 65379; 50640; 32; 46384; 47480; 32]%N.
Definition K_VOLUME : pystr := [50857; 47049]%N.
Definition K_WEIGHT : pystr := [51473; 47049]%N.
Definition K_SKINTYPE : pystr := [54588; 48512; 53440; 51077]%N.
Definition K_SPEC : pystr := [49324; 50577]%N.
Definition K_USAGE : pystr := [49324; 50857; 48169; 48277]%N.
Definition K_ORIGIN : pystr := [51228; 51312; 44397]%N.
Definition K_FUNCTIONAL : pystr := [44592; 45733; 49457]%N.
Definition K_INGREDIENT : pystr := [49457; 48516]%N.
Definition K_CAUTION : pystr := [51452; 51032; 49324; 54637]%N.
Definition T_VOLUME : pystr :=
  [45236; 50857; 47932; 51032; 32; 50857; 47049; 51008; 32]%N.
Definition T_IS : pystr := [51077; 45768; 45796; 46]%N.
Definition T_SKINTYPE : pystr :=
  [50640; 32; 49324; 50857; 32; 44032; 45733; 54620; 32; 51228; 54408;
  51077; 45768; 45796; 46]%N.
Definition T_USAGE : pystr := [49324; 50857; 32; 48169; 48277; 51008; 32]%N.
Definition T_DOT : pystr := [46]%N.
Definition T_ORIGIN : pystr := [51228; 51312; 44397; 51008; 32]%N.
Definition T_FUNCTIONAL : pystr :=
  [32; 51228; 54408; 51077; 45768; 45796; 46]%N.
Definition T_INGREDIENT : pystr :=
  [51452; 50836; 32; 49457; 48516; 51008; 32]%N.
Definition T_CAUTION : pystr :=
  [49324; 50857; 32; 49884; 32; 51452; 51032; 49324; 54637; 51008; 32;
  45796; 51020; 44284; 32; 44057; 49845; 45768; 45796; 46; 32]%N.
Definition T_TOPIC : pystr := [51008; 32]%N.
Definition T_NAME : pystr := [49345; 54408; 47749; 58; 32]%N.
Definition T_DESC : pystr := [10; 49444; 47749; 58; 32]%N.
Definition T_BLANK : pystr := [10; 10]%N.
Definition ELLIPSIS : pystr := [8230]%N.
Definition DOTS : pystr := [46; 46; 46]%N.
Definition ESCAPED_NL : pystr := [92; 110]%N.
Definition SPACE : pystr := [32]%N.
Definition NEWLINE : pystr := [10]%N.

(** The error texts [generate_embedding] and [try_embed] return. *)
Definition MSG_EMPTY_IN_RESPONSE : pystr :=
  [101; 109; 112; 116; 121; 32; 101; 109; 98; 101; 100; 100; 105; 110; 103;
  115; 32; 105; 110; 32; 114; 101; 115; 112; 111; 110; 115; 101]%N.
Definition MSG_UNKNOWN : pystr := [117; 110; 107; 110; 111; 119; 110]%N.
Definition MSG_EMPTY : pystr :=
  [101; 109; 112; 116; 121; 32; 101; 109; 98; 101; 100; 100; 105; 110; 103;
  115]%N.

(** ** [initial_embedding.py] *)

Module Initial.

(** The value [desc[:200] + "..." if len(desc) > 200 else desc]. *)
Definition short_desc (desc : pystr) : pystr :=
  if 200 <? len desc then slice_to 200 desc ++ DOTS else desc.

(** One iteration of the loop of [notice_json_to_text]: the sentence
    appended for [item], or [None] when the item is passed over. *)
Definition notice_sentence (item : Notice) : option pystr :=
  let title := strip (default [] (title item)) in
  let desc := strip (default [] (description item)) in
  if negb (truthy title) || negb (truthy desc) then None
  else
    let clean_title := replace LAW_B [] (replace LAW_A [] title) in
    let desc := strip (replace ESCAPED_NL SPACE desc) in
    Some (
      if contains K_VOLUME title || contains K_WEIGHT title
      then T_VOLUME ++ desc ++ T_IS
      else if contains K_SKINTYPE title || contains K_SPEC title
      then desc ++ T_SKINTYPE
      else if contains K_USAGE title
      then T_USAGE ++ desc ++ T_DOT
      else if contains K_ORIGIN title
      then T_ORIGIN ++ desc ++ T_IS
      else if contains K_FUNCTIONAL title
      then desc ++ T_FUNCTIONAL
      else if contains K_INGREDIENT title
      then T_INGREDIENT ++ short_desc desc ++ T_IS
      else if contains K_CAUTION title
      then T_CAUTION ++ desc
      else clean_title ++ T_TOPIC ++ desc ++ T_IS).

Definition notice_json_to_text (notices : list Notice) : pystr :=
  join SPACE (omap notice_sentence notices).

(** The [contents] value of the review payload:
    [contents[:500] if len(contents) <= 500 else contents[:500] + "…"]. *)
Definition contents_preview_500 (contents : pystr) : pystr :=
  if len contents <=? 500 then slice_to 500 contents
  else slice_to 500 contents ++ ELLIPSIS.

(** [int(cell) if cell else dflt]; [None] stands for the [ValueError]. *)
Definition cell_int (dflt : Z) (cell : pystr) : option Z :=
  if truthy cell then int_of_str cell else Some dflt.

(** An [int(...)] inside [try]: the [ValueError] is an [Exception]. *)
Definition int_or (dflt : Z) (cell : pystr) : M Z :=
  match cell_int dflt cell with
  | Some z => ret z
  | None => raise (Exception [])
  end.

(** [int(product_no)] *)
Definition int_cell (cell : pystr) : M Z :=
  match int_of_str cell with
  | Some z => ret z
  | None => raise (Exception [])
  end.

(** The test [if not vector] on the first component of what
    [generate_embedding] returns: [None] and the empty list are both falsy.
    The result is the vector when the test lets it through. *)
Definition usable (v : option vector) : option vector :=
  match v with
  | Some (c :: v') => Some (c :: v')
  | _ => None
  end.

(** The label of the branch an iteration of a driver loop ends in. [SKIP] is
    the checkpoint test, [SKIP_EMPTY] the empty-contents test, and [ERROR]
    the [except Exception] clause. *)
Inductive Outcome :=
| SKIP | SKIP_EMPTY | EMBED_FAIL | WRITE_FAIL | SUCCESS | ERROR.

Definition outcome_eqb (a b : Outcome) : bool :=
  match a, b with
  | SKIP, SKIP | SKIP_EMPTY, SKIP_EMPTY | EMBED_FAIL, EMBED_FAIL
  | WRITE_FAIL, WRITE_FAIL | SUCCESS, SUCCESS | ERROR, ERROR => true
  | _, _ => false
  end.

(** The local variables of a driver loop. *)
Record Loop := mkLoop {
  processed_ids : gset Z;
  checkpoint : Checkpoint;
  success_count : Z;
  skip_count : Z;
  fail_count : Z;
  failed_log : list Failure.t
}.

(** What a driver run leaves for its caller to see: the three printed
    counts and, row by row, the branch taken. *)
Record Report := mkReport {
  n_success : Z;
  n_skip : Z;
  n_fail : Z;
  outcomes : list Outcome
}.

Section Driver.

Variable env : Env.

(** [query_postgres] on the product query: the table in [id] order, cut by
    [LIMIT] when [test_limit] is truthy. PostgreSQL rejects a negative
    [LIMIT], [psql] fails and the function calls [sys.exit(1)]. *)
Definition limit_rows {R} (test_limit : option Z) (rows : list R) : M (list R) :=
  match test_limit with
  | None => ret rows
  | Some n =>
      if n =? 0 then ret rows
      else if n <? 0 then raise (SystemExit 1)
      else ret (take (Z.to_nat n) rows)
  end.

Definition query_products (test_limit : option Z) : M (list ProductRow.t) :=
  limit_rows test_limit (kurly_skin_products env).

(** The review query keeps rows with [contents IS NOT NULL AND contents != '']. *)
Definition query_reviews (test_limit : option Z) : M (list ReviewRow.t) :=
  limit_rows test_limit
    (filter (fun r => truthy (ReviewRow.contents r) = true)
            (kurly_skin_reviews env)).

(** [generate_embedding(text, retry)], by the number of attempts left. The
    first component of the result is the vector, the second the error
    message. *)
Fixpoint generate_embedding_from (attempts : nat) (text : pystr)
    : M (option vector * option pystr) :=
  match attempts with
  | O => ret (None, Some MSG_UNKNOWN)
  | S attempts' =>
      try_except
        (emb <- post_embed env text ;;
         match emb with
         | Some (e0 :: _) => ret (Some e0, None)
         | _ => ret (None, Some MSG_EMPTY_IN_RESPONSE)
         end)
        (fun msg =>
           match attempts' with
           | O => ret (None, Some msg)
           | S _ => generate_embedding_from attempts' text
           end)
  end.

Definition generate_embedding (text : pystr) : M (option vector * option pystr) :=
  generate_embedding_from 3 text.

(** Updates of the loop variables. *)
Definition count_skip (st : Loop) : Loop :=
  mkLoop (processed_ids st) (checkpoint st) (success_count st)
         (skip_count st + 1) (fail_count st) (failed_log st).

Definition count_fail (st : Loop) : Loop :=
  mkLoop (processed_ids st) (checkpoint st) (success_count st)
         (skip_count st) (fail_count st + 1) (failed_log st).

Definition log_failure (entry : Failure.t) (st : Loop) : Loop :=
  mkLoop (processed_ids st) (checkpoint st) (success_count st)
         (skip_count st) (fail_count st) (failed_log st ++ [entry]).

(** [success_count += 1; processed_ids.add(ident)] *)
Definition count_success (ident : Z) (st : Loop) : Loop :=
  mkLoop ({[ident]} ∪ processed_ids st) (checkpoint st) (success_count st + 1)
         (skip_count st) (fail_count st) (failed_log st).

(** [checkpoint["products"] = list(processed_ids)] and the same for
    ["reviews"]; the other key keeps its value. *)
Definition set_products (st : Loop) : Loop :=
  mkLoop (processed_ids st)
         {| products := elements (processed_ids st);
            reviews := reviews (checkpoint st) |}
         (success_count st) (skip_count st) (fail_count st) (failed_log st).

Definition set_reviews (st : Loop) : Loop :=
  mkLoop (processed_ids st)
         {| products := products (checkpoint st);
            reviews := elements (processed_ids st) |}
         (success_count st) (skip_count st) (fail_count st) (failed_log st).

(** The [payload] dict of a product, from the parsed cells of its row. *)
Definition product_payload (row : ProductRow.t)
    (sales_price discounted_price review_count : Z) (indexed_at : pystr)
    : Payload :=
  PayloadProduct
    (ProductPayload.mk (ProductRow.product_no row) (ProductRow.product_name row)
       sales_price discounted_price review_count
       (ProductRow.product_image_url row)
       (if 0 <? discounted_price then discounted_price else sales_price)
       ((0 <? discounted_price) && (discounted_price <? sales_price))
       indexed_at).

(** The text a product is embedded from. *)
Definition product_text (row : ProductRow.t) : pystr :=
  let notice_text := notice_json_to_text (ProductRow.notices row) in
  T_NAME ++ ProductRow.product_name row ++ T_DESC
         ++ ProductRow.short_description row ++ T_BLANK ++ notice_text.

(** The tail of a successful iteration: count, add to the set and, every
    [cadence] successes, write the checkpoint file. *)
Definition commit (set_kind : Loop -> Loop) (cadence : Z) (ident : Z)
    (st : Loop) : M (Outcome * Loop) :=
  let st := count_success ident st in
  if success_count st mod cadence =? 0 then
    let st := set_kind st in
    save_checkpoint (checkpoint st) ;;; ret (SUCCESS, st)
  else ret (SUCCESS, st).

(** The body of the loop of [process_products]. *)
Definition product_body (row : ProductRow.t) (st : Loop) : M (Outcome * Loop) :=
  let product_id := ProductRow.id row in
  if decide (product_id ∈ processed_ids st) then ret (SKIP, count_skip st)
  else
    try_except
      (sales_price <- int_or 0 (ProductRow.sales_price row) ;;
       discounted_price <- int_or 0 (ProductRow.discounted_price row) ;;
       review_count <- int_or 0 (ProductRow.review_count row) ;;
       r <- generate_embedding (product_text row) ;;
       match usable (fst r) with
       | None => ret (EMBED_FAIL, count_fail st)
       | Some v =>
           indexed_at <- datetime_now env ;;
           let payload :=
             product_payload row sales_price discounted_price review_count
                             indexed_at in
           n <- int_cell (ProductRow.product_no row) ;;
           ok <- save_to_qdrant env (product_point_id n) v payload ;;
           if ok then commit set_products 10 product_id st
           else ret (WRITE_FAIL, count_fail st)
       end)
      (fun _ => ret (ERROR, count_fail st)).

Definition process_products (test_limit : option Z) : M Report :=
  loaded <- load_checkpoint ;;
  let loaded_ids : gset Z := list_to_set (products loaded) in
  rows <- query_products test_limit ;;
  r <- for_each product_body rows (mkLoop loaded_ids loaded 0 0 0 []) ;;
  let st := set_products (snd r) in
  save_checkpoint (checkpoint st) ;;;
  print (MsgProductSummary (success_count st) (skip_count st) (fail_count st)) ;;;
  ret (mkReport (success_count st) (skip_count st) (fail_count st) (fst r)).

(** [int(row[3]) if row[3] else 3], with 3 on a [ValueError]. *)
Definition review_score_of (cell : pystr) : Z :=
  if truthy cell then default 3 (int_of_str cell) else 3.

(** [row[4][:10] if row[4] else None] *)
Definition registered_at_of (cell : pystr) : option pystr :=
  if truthy cell then Some (slice_to 10 cell) else None.

(** The [payload] dict of a review. *)
Definition review_payload (row : ReviewRow.t) (indexed_at : pystr) : Payload :=
  let contents := strip (ReviewRow.contents row) in
  PayloadReview
    (ReviewPayload.mk (ReviewRow.id row) (ReviewRow.product_no row)
       (review_score_of (ReviewRow.review_score row))
       (registered_at_of (ReviewRow.registered_at row))
       indexed_at (Some (contents_preview_500 contents)) false).

(** The entry appended to [failed_log]. *)
Definition failure_entry (row : ReviewRow.t) (embed_error : option pystr)
    : Failure.t :=
  let contents := strip (ReviewRow.contents row) in
  Failure.mk (Some (ReviewRow.id row)) (ReviewRow.product_no row) embed_error
             (replace NEWLINE SPACE (slice_to 100 contents)) (len contents).

(** The body of the loop of [process_reviews]. *)
Definition review_body (row : ReviewRow.t) (st : Loop) : M (Outcome * Loop) :=
  let review_id := ReviewRow.id row in
  if decide (review_id ∈ processed_ids st) then ret (SKIP, count_skip st)
  else
    try_except
      (let contents := strip (ReviewRow.contents row) in
       if negb (truthy contents) then ret (SKIP_EMPTY, count_skip st)
       else
         r <- generate_embedding contents ;;
         match usable (fst r) with
         | None =>
             ret (EMBED_FAIL,
                  log_failure (failure_entry row (snd r)) (count_fail st))
         | Some v =>
             indexed_at <- datetime_now env ;;
             let payload := review_payload row indexed_at in
             ok <- save_to_qdrant env (review_point_id review_id) v payload ;;
             if ok then commit set_reviews 50 review_id st
             else ret (WRITE_FAIL, count_fail st)
         end)
      (fun _ => ret (ERROR, count_fail st)).

Definition process_reviews (test_limit : option Z) : M Report :=
  loaded <- load_checkpoint ;;
  let loaded_ids : gset Z := list_to_set (reviews loaded) in
  rows <- query_reviews test_limit ;;
  r <- for_each review_body rows (mkLoop loaded_ids loaded 0 0 0 []) ;;
  let st := set_reviews (snd r) in
  save_checkpoint (checkpoint st) ;;;
  (match failed_log st with
   | [] => ret tt
   | _ :: _ => save_failures (failed_log st)
   end) ;;;
  print (MsgReviewSummary (success_count st) (skip_count st) (fail_count st)) ;;;
  ret (mkReport (success_count st) (skip_count st) (fail_count st) (fst r)).

(** The parsed command line. *)
Record Args := mkArgs {
  arg_product : bool;
  arg_review : bool;
  arg_all : bool;
  arg_test : option Z
}.

(** [main]: the two drivers inside [try], then the two [except] clauses.
    [KeyboardInterrupt] is answered with the message that the checkpoint was
    saved and a normal return; any other [Exception] with [sys.exit(1)]. *)
Definition main (args : Args) : M unit :=
  let all := arg_all args
             || negb (arg_product args || arg_review args || arg_all args) in
  let body :=
    (if all || arg_product args
     then process_products (arg_test args) ;;; ret tt else ret tt) ;;;
    (if all || arg_review args
     then process_reviews (arg_test args) ;;; ret tt else ret tt) ;;;
    print MsgAllDone in
  fun w =>
    match body w with
    | (inr KeyboardInterrupt, w') => print MsgInterruptedCheckpointSaved w'
    | (inr (Exception e), w') =>
        (print (MsgUnexpectedError e) ;;; raise (SystemExit 1)) w'
    | r => r
    end.

End Driver.

End Initial.

(** ** [retry_failed_embeddings.py] *)

Module Retry.

Definition TRUNCATE_LEN : Z := 500.

Definition BGE_M3_DIM : Z := 1024.

(** An [int] used as a [float]. *)
Definition float_of_int (z : Z) : float := PrimFloat.of_uint63 (Uint63.of_Z z).

(** [[1.0 / (BGE_M3_DIM ** 0.5)] * BGE_M3_DIM]. The power [x ** 0.5] is
    taken as the IEEE square root; at 1024.0 both are exactly 32.0. *)
Definition FALLBACK_VECTOR : vector :=
  replicate (Z.to_nat BGE_M3_DIM)
            (1 / PrimFloat.sqrt (float_of_int BGE_M3_DIM))%float.

(** The sum of the squares of the components, added left to right in
    binary64. *)
Definition sum_of_squares (v : vector) : float :=
  fold_left (fun acc x => (acc + x * x)%float) v 0%float.

(** The rational number a finite binary64 value denotes. *)
Definition float_exact (x : float) : option Q :=
  match Prim2SF x with
  | S754_zero _ => Some 0%Q
  | S754_finite s m e =>
      let mag :=
        if 0 <=? e then inject_Z (Z.pos m * 2 ^ e)
        else Qmake (Z.pos m) (Pos.shiftl 1 (Z.to_N (- e))) in
      Some (if s then Qopp mag else mag)
  | _ => None
  end.

(** The parsed command line. *)
Record Args := mkArgs {
  from_db : bool;
  truncate : Z;
  fallback : bool
}.

(** The branch an iteration of the retry loop ends in: the row is gone,
    its contents are empty, the embedding failed without fallback, the write
    failed, or the point was saved (with or without the fallback vector). *)
Inductive Outcome :=
| NOT_IN_DB | NO_CONTENTS | EMBED_FAIL | WRITE_FAIL | SAVED (use_fallback : bool).

(** The local variables of the retry loop. *)
Record Loop := mkLoop {
  processed : gset Z;
  checkpoint : Checkpoint;
  success : Z;
  failures : Z
}.

Record Report := mkReport {
  n_success : Z;
  n_fail : Z;
  outcomes : list Outcome
}.

Section Driver.

Variable env : Env.

(** [try_embed(text)]: one POST, no retry. *)
Definition try_embed (text : pystr) : M (option vector * option pystr) :=
  try_except
    (emb <- post_embed env text ;;
     match emb with
     | Some (e0 :: _) => ret (Some e0, None)
     | _ => ret (None, Some MSG_EMPTY)
     end)
    (fun msg => ret (None, Some msg)).

(** The ids of the table rows with non-empty contents, as the [--from-db]
    query returns them. *)
Definition query_all_ids : M (list Z) :=
  ret (ReviewRow.id <$>
       filter (fun r => truthy (ReviewRow.contents r) = true)
              (kurly_skin_reviews env)).

(** [SELECT ... WHERE id = review_id] *)
Definition query_by_id (review_id : Z) : M (list ReviewRow.t) :=
  ret (filter (fun r => ReviewRow.id r = review_id) (kurly_skin_reviews env)).

(** [json.load(open(FAILURES_FILE))]; [None] stands for [FileNotFoundError]. *)
Definition load_failures : M (option (list Failure.t)) :=
  fun w => (inl (failures_file w), w).

(** [x["review_id"]] for the entries [x] with a truthy [x.get("review_id")]. *)
Definition ledger_id (x : Failure.t) : option Z :=
  match Failure.review_id x with
  | Some i => if i =? 0 then None else Some i
  | None => None
  end.

(** The first part of [main]: the list [failed_ids], or [None] when the
    ledger file does not exist and [main] returns at once. *)
Definition pending (args : Args) : M (option (list Z)) :=
  if from_db args then
    checkpoint <- load_checkpoint ;;
    let processed : gset Z := list_to_set (reviews checkpoint) in
    ids <- query_all_ids ;;
    let all_ids : gset Z := list_to_set ids in
    ret (Some (merge_sort Z.le (elements (all_ids ∖ processed))))
  else
    f <- load_failures ;;
    match f with
    | None => ret None
    | Some entries => ret (Some (omap ledger_id entries))
    end.

Definition count_fail (st : Loop) : Loop :=
  mkLoop (processed st) (checkpoint st) (success st) (failures st + 1).

(** [processed.add(review_id); checkpoint["reviews"] = list(processed)] and,
    after the save, [success += 1]. *)
Definition count_success (review_id : Z) (st : Loop) : Loop :=
  let processed' := {[review_id]} ∪ processed st in
  mkLoop processed'
         {| products := products (checkpoint st);
            reviews := elements processed' |}
         (success st + 1) (failures st).

(** The [payload] dict of a retried review; it has no [contents] key. *)
Definition retry_payload (review_id : Z) (row : ReviewRow.t)
    (indexed_at : pystr) (use_fallback : bool) : Payload :=
  PayloadReview
    (ReviewPayload.mk review_id (ReviewRow.product_no row)
       (Initial.review_score_of (ReviewRow.review_score row))
       (Initial.registered_at_of (ReviewRow.registered_at row))
       indexed_at None use_fallback).

(** The text sent to Ollama on a retry: [contents[:truncate_len].strip()]. *)
Definition truncated_text (args : Args) (row : ReviewRow.t) : pystr :=
  strip (slice_to (truncate args) (strip (ReviewRow.contents row))).

(** The vector to store and the flag [use_fallback], or [None] when the
    iteration gives up. *)
Definition choose_vector (args : Args) (v : option vector)
    : option (vector * bool) :=
  match Initial.usable v with
  | Some v => Some (v, false)
  | None => if fallback args then Some (FALLBACK_VECTOR, true) else None
  end.

(** The body of the retry loop. *)
Definition retry_body (args : Args) (review_id : Z) (st : Loop)
    : M (Outcome * Loop) :=
  rows <- query_by_id review_id ;;
  match rows with
  | [] => ret (NOT_IN_DB, count_fail st)
  | row :: _ =>
      let contents := strip (ReviewRow.contents row) in
      if negb (truthy contents) then ret (NO_CONTENTS, count_fail st)
      else
        r <- try_embed (truncated_text args row) ;;
        match choose_vector args (fst r) with
        | None => ret (EMBED_FAIL, count_fail st)
        | Some (v, use_fallback) =>
            indexed_at <- datetime_now env ;;
            let payload := retry_payload review_id row indexed_at use_fallback in
            ok <- save_to_qdrant env (review_point_id review_id) v payload ;;
            if ok then
              let st := count_success review_id st in
              save_checkpoint (checkpoint st) ;;; ret (SAVED use_fallback, st)
            else ret (WRITE_FAIL, count_fail st)
        end
  end.

(** [main]; the result is [None] on the two early returns. *)
Definition main (args : Args) : M (option Report) :=
  p <- pending args ;;
  match p with
  | None => ret None
  | Some [] => ret None
  | Some failed_ids =>
      checkpoint <- load_checkpoint ;;
      let processed : gset Z := list_to_set (reviews checkpoint) in
      r <- for_each (retry_body args) failed_ids (mkLoop processed checkpoint 0 0) ;;
      ret (Some (mkReport (success (snd r)) (failures (snd r)) (fst r)))
  end.

End Driver.

End Retry.

(** * Specifications

    The loop bodies as step relations: one rule per path through the body,
    with the calls to the services as premises. *)

(** A call that changes nothing but the log of embedding requests. *)
Definition embed_only (w w' : World) : Prop :=
  put_calls w' = put_calls w /\ qdrant w' = qdrant w /\
  checkpoint_file w' = checkpoint_file w /\
  failures_file w' = failures_file w /\
  clock_reads w' = clock_reads w /\ stdout w' = stdout w.

(** A call that changes nothing but the index and the count of PUTs. *)
Definition put_only (w w' : World) : Prop :=
  embed_sent w' = embed_sent w /\
  checkpoint_file w' = checkpoint_file w /\
  failures_file w' = failures_file w /\
  clock_reads w' = clock_reads w /\ stdout w' = stdout w.

(** The world after [datetime.now()]. *)
Definition ticked (w : World) : World :=
  mkWorld (embed_sent w) (put_calls w) (qdrant w) (checkpoint_file w)
          (failures_file w) (S (clock_reads w)) (stdout w).

(** A call that changes nothing but the checkpoint file. *)
Definition checkpoint_only (w w' : World) : Prop :=
  embed_sent w' = embed_sent w /\ put_calls w' = put_calls w /\
  qdrant w' = qdrant w /\ failures_file w' = failures_file w /\
  clock_reads w' = clock_reads w /\ stdout w' = stdout w.

(** What [load_checkpoint] reads in a world. *)
Definition loaded_checkpoint (w : World) : Checkpoint :=
  default {| products := []; reviews := [] |} (checkpoint_file w).

(** The rows a query returns under [test_limit]; [None] when the query
    fails. *)
Definition limited {R} (test_limit : option Z) (rows : list R)
    : option (list R) :=
  match test_limit with
  | None => Some rows
  | Some n =>
      if n =? 0 then Some rows
      else if n <? 0 then None
      else Some (take (Z.to_nat n) rows)
  end.

Definition b2z (b : bool) : Z := if b then 1 else 0.

(** A loop that ran to its end, as the chain of its steps. *)
Inductive run_steps {R S O}
    (step : R -> S -> World -> O * S + exn -> World -> Prop)
  : list R -> S -> World -> list O -> S -> World -> Prop :=
| run_done st w : run_steps step [] st w [] st w
| run_next x xs st w o st1 w1 os st' w' :
    step x st w (inl (o, st1)) w1 ->
    run_steps step xs st1 w1 os st' w' ->
    run_steps step (x :: xs) st w (o :: os) st' w'.

(** The identifiers of the rows whose iteration ended in a given branch. *)
Fixpoint ids_ending {O} (is_o : O -> bool) (ids : list Z) (os : list O)
    : list Z :=
  match ids, os with
  | i :: ids', o :: os' =>
      if is_o o then i :: ids_ending is_o ids' os'
      else ids_ending is_o ids' os'
  | _, _ => []
  end.

(** How many elements of a list pass a test. *)
Fixpoint count_if {A} (f : A -> bool) (l : list A) : Z :=
  match l with
  | [] => 0
  | x :: l' => b2z (f x) + count_if f l'
  end.

Section StepRelations.

Variable env : Env.

Import Initial.

Definition is_skip (o : Outcome) : bool :=
  match o with SKIP | SKIP_EMPTY => true | _ => false end.

Definition is_fail (o : Outcome) : bool :=
  match o with EMBED_FAIL | WRITE_FAIL | ERROR => true | _ => false end.

Definition is_success (o : Outcome) : bool :=
  match o with SUCCESS => true | _ => false end.

Definition is_embed_fail (o : Outcome) : bool :=
  match o with EMBED_FAIL => true | _ => false end.

(** What one completed iteration over the row with identifier [i] does to
    the loop variables; [empty] says whether the row has nothing to embed. *)
Definition step_summary (i : Z) (empty : bool) (st : Loop) (w : World)
    (o : Outcome) (st' : Loop) (w' : World) : Prop :=
  failures_file w' = failures_file w /\ stdout w' = stdout w /\
  skip_count st' = skip_count st + b2z (is_skip o) /\
  fail_count st' = fail_count st + b2z (is_fail o) /\
  success_count st' = success_count st + b2z (is_success o) /\
  processed_ids st' =
    (if is_success o then {[i]} ∪ processed_ids st else processed_ids st) /\
  (o = SKIP <-> i ∈ processed_ids st) /\
  (o = SKIP_EMPTY <-> (i ∉ processed_ids st) /\ empty = true) /\
  (is_skip o = true -> w' = w).

(** The loop variables a driver starts from, given the identifiers it read
    from the checkpoint. *)
Definition loop_start (ids : list Z) (w : World) : Loop :=
  mkLoop (list_to_set ids) (loaded_checkpoint w) 0 0 0 [].

(** The rows the review query returns. *)
Definition review_source : list ReviewRow.t :=
  filter (fun r => truthy (ReviewRow.contents r) = true) (kurly_skin_reviews env).

(** The three numeric cells of a product row. *)
Definition product_cells (row : ProductRow.t) : option (Z * Z * Z) :=
  match cell_int 0 (ProductRow.sales_price row),
        cell_int 0 (ProductRow.discounted_price row),
        cell_int 0 (ProductRow.review_count row) with
  | Some s, Some d, Some c => Some (s, d, c)
  | _, _, _ => None
  end.

Inductive review_step (row : ReviewRow.t) (st : Loop) (w : World)
  : Outcome * Loop + exn -> World -> Prop :=
| RS_skip :
    ReviewRow.id row ∈ processed_ids st ->
    review_step row st w (inl (SKIP, count_skip st)) w
| RS_empty :
    ReviewRow.id row ∉ processed_ids st ->
    strip (ReviewRow.contents row) = [] ->
    review_step row st w (inl (SKIP_EMPTY, count_skip st)) w
| RS_embed_interrupt w1 :
    ReviewRow.id row ∉ processed_ids st ->
    strip (ReviewRow.contents row) <> [] ->
    generate_embedding env (strip (ReviewRow.contents row)) w
      = (inr KeyboardInterrupt, w1) ->
    review_step row st w (inr KeyboardInterrupt) w1
| RS_embed_fail r w1 :
    ReviewRow.id row ∉ processed_ids st ->
    strip (ReviewRow.contents row) <> [] ->
    generate_embedding env (strip (ReviewRow.contents row)) w = (inl r, w1) ->
    usable (fst r) = None ->
    review_step row st w
      (inl (EMBED_FAIL, log_failure (failure_entry row (snd r)) (count_fail st)))
      w1
| RS_write_interrupt r w1 v w2 :
    ReviewRow.id row ∉ processed_ids st ->
    strip (ReviewRow.contents row) <> [] ->
    generate_embedding env (strip (ReviewRow.contents row)) w = (inl r, w1) ->
    usable (fst r) = Some v ->
    save_to_qdrant env (review_point_id (ReviewRow.id row)) v
      (review_payload row (now env (clock_reads w1))) (ticked w1)
      = (inr KeyboardInterrupt, w2) ->
    review_step row st w (inr KeyboardInterrupt) w2
| RS_write_fail r w1 v w2 :
    ReviewRow.id row ∉ processed_ids st ->
    strip (ReviewRow.contents row) <> [] ->
    generate_embedding env (strip (ReviewRow.contents row)) w = (inl r, w1) ->
    usable (fst r) = Some v ->
    save_to_qdrant env (review_point_id (ReviewRow.id row)) v
      (review_payload row (now env (clock_reads w1))) (ticked w1)
      = (inl false, w2) ->
    review_step row st w (inl (WRITE_FAIL, count_fail st)) w2
| RS_success r w1 v w2 res w' :
    ReviewRow.id row ∉ processed_ids st ->
    strip (ReviewRow.contents row) <> [] ->
    generate_embedding env (strip (ReviewRow.contents row)) w = (inl r, w1) ->
    usable (fst r) = Some v ->
    save_to_qdrant env (review_point_id (ReviewRow.id row)) v
      (review_payload row (now env (clock_reads w1))) (ticked w1)
      = (inl true, w2) ->
    commit set_reviews 50 (ReviewRow.id row) st w2 = (res, w') ->
    review_step row st w res w'.

Inductive product_step (row : ProductRow.t) (st : Loop) (w : World)
  : Outcome * Loop + exn -> World -> Prop :=
| PS_skip :
    ProductRow.id row ∈ processed_ids st ->
    product_step row st w (inl (SKIP, count_skip st)) w
| PS_bad_cell :
    ProductRow.id row ∉ processed_ids st ->
    product_cells row = None ->
    product_step row st w (inl (ERROR, count_fail st)) w
| PS_embed_interrupt cells w1 :
    ProductRow.id row ∉ processed_ids st ->
    product_cells row = Some cells ->
    generate_embedding env (product_text row) w = (inr KeyboardInterrupt, w1) ->
    product_step row st w (inr KeyboardInterrupt) w1
| PS_embed_fail cells r w1 :
    ProductRow.id row ∉ processed_ids st ->
    product_cells row = Some cells ->
    generate_embedding env (product_text row) w = (inl r, w1) ->
    usable (fst r) = None ->
    product_step row st w (inl (EMBED_FAIL, count_fail st)) w1
| PS_bad_product_no cells r w1 v :
    ProductRow.id row ∉ processed_ids st ->
    product_cells row = Some cells ->
    generate_embedding env (product_text row) w = (inl r, w1) ->
    usable (fst r) = Some v ->
    int_of_str (ProductRow.product_no row) = None ->
    product_step row st w (inl (ERROR, count_fail st)) (ticked w1)
| PS_write_interrupt s d c r w1 v n w2 :
    ProductRow.id row ∉ processed_ids st ->
    product_cells row = Some (s, d, c) ->
    generate_embedding env (product_text row) w = (inl r, w1) ->
    usable (fst r) = Some v ->
    int_of_str (ProductRow.product_no row) = Some n ->
    save_to_qdrant env (product_point_id n) v
      (product_payload row s d c (now env (clock_reads w1))) (ticked w1)
      = (inr KeyboardInterrupt, w2) ->
    product_step row st w (inr KeyboardInterrupt) w2
| PS_write_fail s d c r w1 v n w2 :
    ProductRow.id row ∉ processed_ids st ->
    product_cells row = Some (s, d, c) ->
    generate_embedding env (product_text row) w = (inl r, w1) ->
    usable (fst r) = Some v ->
    int_of_str (ProductRow.product_no row) = Some n ->
    save_to_qdrant env (product_point_id n) v
      (product_payload row s d c (now env (clock_reads w1))) (ticked w1)
      = (inl false, w2) ->
    product_step row st w (inl (WRITE_FAIL, count_fail st)) w2
| PS_success s d c r w1 v n w2 res w' :
    ProductRow.id row ∉ processed_ids st ->
    product_cells row = Some (s, d, c) ->
    generate_embedding env (product_text row) w = (inl r, w1) ->
    usable (fst r) = Some v ->
    int_of_str (ProductRow.product_no row) = Some n ->
    save_to_qdrant env (product_point_id n) v
      (product_payload row s d c (now env (clock_reads w1))) (ticked w1)
      = (inl true, w2) ->
    commit set_products 10 (ProductRow.id row) st w2 = (res, w') ->
    product_step row st w res w'.

(** From world [w], the embedding of the review returned a usable vector
    and the upsert of its point returned [True]. *)
Definition review_upserted (row : ReviewRow.t) (w : World) : Prop :=
  exists r w1 v w2,
    generate_embedding env (strip (ReviewRow.contents row)) w = (inl r, w1) /\
    usable (fst r) = Some v /\
    save_to_qdrant env (review_point_id (ReviewRow.id row)) v
      (review_payload row (now env (clock_reads w1))) (ticked w1)
      = (inl true, w2).

(** The same for a product. *)
Definition product_upserted (row : ProductRow.t) (w : World) : Prop :=
  exists s d c n r w1 v w2,
    product_cells row = Some (s, d, c) /\
    int_of_str (ProductRow.product_no row) = Some n /\
    generate_embedding env (product_text row) w = (inl r, w1) /\
    usable (fst r) = Some v /\
    save_to_qdrant env (product_point_id n) v
      (product_payload row s d c (now env (clock_reads w1))) (ticked w1)
      = (inl true, w2).

End StepRelations.

Section RetrySteps.

Variable env : Env.

Import Retry.

(** The row the single-row lookup finds for an identifier. *)
Definition lookup_row (review_id : Z) : option ReviewRow.t :=
  head (filter (fun r => ReviewRow.id r = review_id) (kurly_skin_reviews env)).

Inductive retry_step (args : Args) (review_id : Z) (st : Loop) (w : World)
  : Outcome * Loop + exn -> World -> Prop :=
| TS_not_in_db :
    lookup_row review_id = None ->
    retry_step args review_id st w (inl (NOT_IN_DB, count_fail st)) w
| TS_no_contents row :
    lookup_row review_id = Some row ->
    strip (ReviewRow.contents row) = [] ->
    retry_step args review_id st w (inl (NO_CONTENTS, count_fail st)) w
| TS_embed_interrupt row w1 :
    lookup_row review_id = Some row ->
    strip (ReviewRow.contents row) <> [] ->
    try_embed env (truncated_text args row) w = (inr KeyboardInterrupt, w1) ->
    retry_step args review_id st w (inr KeyboardInterrupt) w1
| TS_give_up row r w1 :
    lookup_row review_id = Some row ->
    strip (ReviewRow.contents row) <> [] ->
    try_embed env (truncated_text args row) w = (inl r, w1) ->
    choose_vector args (fst r) = None ->
    retry_step args review_id st w (inl (EMBED_FAIL, count_fail st)) w1
| TS_write_interrupt row r w1 v use_fallback w2 :
    lookup_row review_id = Some row ->
    strip (ReviewRow.contents row) <> [] ->
    try_embed env (truncated_text args row) w = (inl r, w1) ->
    choose_vector args (fst r) = Some (v, use_fallback) ->
    save_to_qdrant env (review_point_id review_id) v
      (retry_payload review_id row (now env (clock_reads w1)) use_fallback)
      (ticked w1) = (inr KeyboardInterrupt, w2) ->
    retry_step args review_id st w (inr KeyboardInterrupt) w2
| TS_write_fail row r w1 v use_fallback w2 :
    lookup_row review_id = Some row ->
    strip (ReviewRow.contents row) <> [] ->
    try_embed env (truncated_text args row) w = (inl r, w1) ->
    choose_vector args (fst r) = Some (v, use_fallback) ->
    save_to_qdrant env (review_point_id review_id) v
      (retry_payload review_id row (now env (clock_reads w1)) use_fallback)
      (ticked w1) = (inl false, w2) ->
    retry_step args review_id st w (inl (WRITE_FAIL, count_fail st)) w2
| TS_saved row r w1 v use_fallback w2 :
    lookup_row review_id = Some row ->
    strip (ReviewRow.contents row) <> [] ->
    try_embed env (truncated_text args row) w = (inl r, w1) ->
    choose_vector args (fst r) = Some (v, use_fallback) ->
    save_to_qdrant env (review_point_id review_id) v
      (retry_payload review_id row (now env (clock_reads w1)) use_fallback)
      (ticked w1) = (inl true, w2) ->
    retry_step args review_id st w
      (inl (SAVED use_fallback, count_success review_id st))
      (snd (save_checkpoint (checkpoint (count_success review_id st)) w2)).

(** From world [w], the upsert of the retried review returned [True]. The
    vector is the one Ollama returned, or, when Ollama returned none, the
    fallback vector, which is only possible with [--fallback]. *)
Definition retry_upserted (args : Args) (review_id : Z) (use_fallback : bool)
    (w : World) : Prop :=
  exists row r w1 v w2,
    lookup_row review_id = Some row /\
    try_embed env (truncated_text args row) w = (inl r, w1) /\
    save_to_qdrant env (review_point_id review_id) v
      (retry_payload review_id row (now env (clock_reads w1)) use_fallback)
      (ticked w1) = (inl true, w2) /\
    (use_fallback = false -> Initial.usable (fst r) = Some v) /\
    (use_fallback = true ->
     Initial.usable (fst r) = None /\ fallback args = true /\
     v = FALLBACK_VECTOR).

(** The loop variables the recovery driver starts from. *)
Definition retry_loop_start (w : World) : Loop :=
  mkLoop (list_to_set (reviews (loaded_checkpoint w))) (loaded_checkpoint w) 0 0.

End RetrySteps.

(** The two skip conditions of the driver loops, as tests on a row. *)
Definition in_checkpoint (loaded : gset Z) (i : Z) : bool :=
  bool_decide (i ∈ loaded).

Definition blank (row : ReviewRow.t) : bool :=
  negb (truthy (strip (ReviewRow.contents row))).

(** ** Concrete inputs *)

Module Examples.

(** An empty world: no files, an empty index, nothing sent or printed. *)
Definition fresh : World := mkWorld [] 0 ∅ None None 0 [].

Definition ascii_a : N := 97.

(** A review row with the given identifier and contents; product number
    [7], score [5], no date. *)
Definition review (i : Z) (contents : pystr) : ReviewRow.t :=
  ReviewRow.mk i [55%N] contents [53%N] [].

(** A product row with the given product number and prices (as the text of
    their cells). *)
Definition product (i : Z) (product_no sales discounted : pystr)
    : ProductRow.t :=
  ProductRow.mk i product_no [ascii_a] [] [] sales discounted [] [].

Definition some_vector : vector := [1%float; 0%float].

Definition embed_ok : EmbedResponse := EmbedBody (Some [some_vector]).

(** Ollama and Qdrant both answer every call. *)
Definition healthy (products : list ProductRow.t) (reviews : list ReviewRow.t)
    : Env :=
  {| ollama := fun _ _ => embed_ok;
     qdrant_put := fun _ _ _ _ => PutOk;
     now := fun _ => [];
     kurly_skin_products := products;
     kurly_skin_reviews := reviews |}.

(** Ollama answers three calls, then the operator presses Ctrl-C. *)
Definition interrupted_at_fourth : Env :=
  {| ollama := fun n _ => if (n <? 3)%nat then embed_ok else EmbedInterrupt;
     qdrant_put := fun _ _ _ _ => PutOk;
     now := fun _ => [];
     kurly_skin_products := [];
     kurly_skin_reviews :=
       [review 1 [ascii_a]; review 2 [ascii_a]; review 3 [ascii_a];
        review 4 [ascii_a]] |}.

(** Qdrant refuses every PUT. *)
Definition qdrant_down (reviews : list ReviewRow.t) : Env :=
  {| ollama := fun _ _ => embed_ok;
     qdrant_put := fun _ _ _ _ => PutError [];
     now := fun _ => [];
     kurly_skin_products := [];
     kurly_skin_reviews := reviews |}.

(** Ollama fails every call. *)
Definition ollama_down (products : list ProductRow.t)
    (reviews : list ReviewRow.t) : Env :=
  {| ollama := fun _ _ => EmbedError [];
     qdrant_put := fun _ _ _ _ => PutOk;
     now := fun _ => [];
     kurly_skin_products := products;
     kurly_skin_reviews := reviews |}.

Definition only_reviews : Initial.Args := Initial.mkArgs false true false None.

Definition only_products : Initial.Args := Initial.mkArgs true false false None.

(** The report of a run that returned one. *)
Definition report_of {A} (dflt : A) (r : (A + exn) * World) : A :=
  match fst r with
  | inl a => a
  | inr _ => dflt
  end.

Definition no_report : Initial.Report := Initial.mkReport 0 0 0 [].

(** A checkpoint file holding product 1 and reviews 1, 2 and 3. *)
Definition three_done : World :=
  mkWorld [] 0 ∅ (Some {| products := [1]; reviews := [1; 2; 3] |}) None 0 [].

(** Code points of the digits of 101, 102, 12000 and 9000. *)
Definition text_101 : pystr := [49; 48; 49]%N.
Definition text_102 : pystr := [49; 48; 50]%N.
Definition text_12000 : pystr := [49; 50; 48; 48; 48]%N.
Definition text_9000 : pystr := [57; 48; 48; 48]%N.

Definition two_products : list ProductRow.t :=
  [product 1 text_101 text_12000 text_9000; product 2 text_102 text_9000 []].

Definition five_reviews : list ReviewRow.t :=
  [review 1 [ascii_a]; review 2 [ascii_a]; review 3 [ascii_a];
   review 4 [ascii_a]; review 5 [ascii_a]].

(** A product numbered 10,000,005 and the review with identifier 5. *)
Definition text_10000005 : pystr := [49; 48; 48; 48; 48; 48; 48; 53]%N.

Definition big_product : ProductRow.t :=
  product 1 text_10000005 text_12000 text_9000.

Definition overlapping : Env := healthy [big_product] [review 5 [ascii_a]].

Definition everything : Initial.Args := Initial.mkArgs false false true None.

(** The first iteration of a product run that starts without a
    checkpoint. *)
Definition first_product (row : ProductRow.t)
    : (Initial.Outcome * Initial.Loop + exn) * World :=
  Initial.product_body (healthy [row] []) row (loop_start [] fresh) fresh.

Definition resumed : Env := healthy two_products five_reviews.

Definition resumed_reviews : (Initial.Report + exn) * World :=
  Initial.process_reviews resumed None three_done.

Definition resumed_products : (Initial.Report + exn) * World :=
  Initial.process_products resumed None three_done.

Definition two_reviews : list ReviewRow.t :=
  [review 1 [ascii_a]; review 2 [ascii_a]].

(** Ollama is down for a whole run over two products and two reviews. *)
Definition embedding_outage : Env := ollama_down two_products two_reviews.

Definition outage_reviews : (Initial.Report + exn) * World :=
  Initial.process_reviews embedding_outage None fresh.

Definition outage_products : (Initial.Report + exn) * World :=
  Initial.process_products embedding_outage None fresh.

(** The recovery driver run from the database with [--fallback], after a
    first run during which Ollama was down. *)
Definition retry_with_fallback : Retry.Args := Retry.mkArgs true 500 true.

Definition fallback_run : (option Retry.Report + exn) * World :=
  Retry.main (ollama_down [] [review 1 [ascii_a]]) retry_with_fallback fresh.

Definition retry_start : Retry.Loop :=
  Retry.mkLoop ∅ {| products := []; reviews := [] |} 0 0.

(** The single iteration of that run. *)
Definition fallback_step : (Retry.Outcome * Retry.Loop + exn) * World :=
  Retry.retry_body (ollama_down [] [review 1 [ascii_a]]) retry_with_fallback
                   1 retry_start fresh.


Definition retry_default : Retry.Args := Retry.mkArgs true 500 false.


(** A ledger listing reviews 4 and 7, read in ledger mode. *)
Definition ledger_4_7 : list Failure.t :=
  [Failure.mk (Some 4) [] None [] 1; Failure.mk (Some 7) [] None [] 1].


Definition retry_ledger : Retry.Args := Retry.mkArgs false 500 false.

(** A notice entry titled with the ingredient keyword and described by 201
    characters. *)
Definition long_ingredients : Notice :=
  {| title := Some K_INGREDIENT;
     description := Some (replicate 201 ascii_a) |}.

(** One review whose contents are two spaces. *)
Definition blank_review : Env := healthy [] [review 1 [32; 32]%N].

End Examples.


(** ** Runs as chains of calls of the body *)

(** A loop that ran to its end as the chain of the calls of its body: every
    iteration is the body applied to its row, from the variables and the
    world that the iteration before it left. *)
Definition iterates {R S O} (body : R -> S -> M (O * S))
    : list R -> S -> World -> list O -> S -> World -> Prop :=
  run_steps (fun x st w res w' => body x st w = (res, w')).

(** No [KeyboardInterrupt] arrives while a call to a service blocks. *)
Definition never_interrupts (env : Env) : Prop :=
  (forall n text, ollama env n text <> EmbedInterrupt) /\
  (forall n pid v p, qdrant_put env n pid v p <> PutInterrupt).

(** From world [w], [generate_embedding] sends [text] [k] times, ends in
    world [w1] and returns no usable vector, with the error text [e]. *)
Definition embedding_fails (env : Env) (text : pystr) (w : World)
    (e : option pystr) (w1 : World) : Prop :=
  exists r,
    Initial.generate_embedding env text w = (inl r, w1) /\
    Initial.usable (fst r) = None /\ snd r = e.

(** The number of a row limit that [psql] accepts. *)
Definition limit_ok (test_limit : option Z) : Prop :=
  match test_limit with
  | Some n => 0 <= n
  | None => True
  end.

(** The index holds the point of review [i] with the fallback vector and
    the substitution flag. *)
Definition holds_fallback (w : World) (i : Z) : Prop :=
  exists p,
    qdrant w !! review_point_id i
      = Some (Retry.FALLBACK_VECTOR, PayloadReview p) /\
    ReviewPayload.embedding_fallback p = true /\
    ReviewPayload.review_id p = i.


Module Cases.

(** A ledger whose first entry has identifier 0 and whose second entry has
    none. *)
Definition ledger_0_none_4 : list Failure.t :=
  [Failure.mk (Some 0) [] None [] 1; Failure.mk None [] None [] 1;
   Failure.mk (Some 4) [] None [] 1].

Definition with_odd_ledger : World :=
  mkWorld [] 0 ∅ None (Some ledger_0_none_4) 0 [].

(** A table with review 1 and a review 2 whose contents are empty. *)
Definition with_empty_review : Env :=
  Examples.healthy [] [Examples.review 1 [Examples.ascii_a];
                       Examples.review 2 []].

(** The ledger of reviews 4 and 7 against a table that holds review 4. *)
Definition ledger_env : Env :=
  Examples.healthy [] [Examples.review 4 [Examples.ascii_a]].


(** Ollama fails every call; Qdrant refuses the first PUT and accepts the
    following ones. *)
Definition flaky_index : Env :=
  {| ollama := fun _ _ => EmbedError [];
     qdrant_put := fun n _ _ _ => if (n =? 0)%nat then PutError [] else PutOk;
     now := fun _ => [];
     kurly_skin_products := [];
     kurly_skin_reviews := [Examples.review 1 [Examples.ascii_a]] |}.

Definition flaky_step : (Retry.Outcome * Retry.Loop + exn) * World :=
  Retry.retry_body flaky_index Examples.retry_with_fallback 1
                   Examples.retry_start Examples.fresh.


(** The index after review 5 has been embedded and written: its point is
    10,000,005. *)
Definition review_5_indexed : World :=
  snd (Initial.review_body Examples.overlapping
         (Examples.review 5 [Examples.ascii_a])
         (loop_start [] Examples.fresh) Examples.fresh).

(** The iteration of the product numbered 10,000,005 that follows. *)
Definition product_after_review
    : (Initial.Outcome * Initial.Loop + exn) * World :=
  Initial.product_body Examples.overlapping Examples.big_product
                       (loop_start [] Examples.fresh) review_5_indexed.

End Cases.
(** ** Further definitions for the properties of the code *)

(** The world after [k] more POSTs of [text] to Ollama. *)
Definition posted (k : nat) (text : pystr) (w : World) : World :=
  mkWorld (embed_sent w ++ replicate k text) (put_calls w) (qdrant w)
          (checkpoint_file w) (failures_file w) (clock_reads w) (stdout w).

(** The identifiers of one kind recorded in the checkpoint file, as a set. *)
Definition done_reviews (w : World) : gset Z :=
  list_to_set (reviews (loaded_checkpoint w)).

Definition done_products (w : World) : gset Z :=
  list_to_set (products (loaded_checkpoint w)).

(** What a review run may change between two worlds: the review
    identifiers of the checkpoint file may grow, its product list stays, and
    the index changes at most at the point ids in [K]. *)
Definition review_run_rel (K : gset Z) (w w' : World) : Prop :=
  done_reviews w ⊆ done_reviews w' /\
  products (loaded_checkpoint w') = products (loaded_checkpoint w) /\
  (forall j, j ∉ K -> qdrant w' !! j = qdrant w !! j).

(** The same for a product run. *)
Definition product_run_rel (K : gset Z) (w w' : World) : Prop :=
  done_products w ⊆ done_products w' /\
  reviews (loaded_checkpoint w') = reviews (loaded_checkpoint w) /\
  (forall j, j ∉ K -> qdrant w' !! j = qdrant w !! j).

(** The loop variables of a review run agree with the checkpoint file: the
    set in memory holds at least the identifiers of the file, and the copy of
    the checkpoint in memory has the product list of the file. *)
Definition review_inv (st : Initial.Loop) (w : World) : Prop :=
  done_reviews w ⊆ Initial.processed_ids st /\
  products (Initial.checkpoint st) = products (loaded_checkpoint w).

Definition product_inv (st : Initial.Loop) (w : World) : Prop :=
  done_products w ⊆ Initial.processed_ids st /\
  reviews (Initial.checkpoint st) = reviews (loaded_checkpoint w).

Definition retry_inv (st : Retry.Loop) (w : World) : Prop :=
  done_reviews w ⊆ Retry.processed st /\
  products (Retry.checkpoint st) = products (loaded_checkpoint w).

(** The point ids of a list of review identifiers and of the product
    numbers that parse. *)
Definition review_points (ids : list Z) : gset Z :=
  list_to_set (review_point_id <$> ids).

Definition product_points (rows : list ProductRow.t) : gset Z :=
  list_to_set (omap (fun row => int_of_str (ProductRow.product_no row)) rows).

(** What a run of the recovery driver may change: as for a review run, and
    the ledger file stays as it is. *)
Definition retry_run_rel (K : gset Z) (w w' : World) : Prop :=
  review_run_rel K w w' /\ failures_file w' = failures_file w.

Module MoreExamples.

(** The fourth call of a review run that starts without a checkpoint is
    interrupted. *)
Definition interrupted_run : (Initial.Report + exn) * World :=
  Initial.process_reviews Examples.interrupted_at_fourth None Examples.fresh.

(** A product run over the two products, resumed from the same
    checkpoint. *)
Definition product_resume_run : (Initial.Report + exn) * World :=
  Initial.process_products Examples.resumed None Examples.three_done.

(** The recovery driver in ledger mode for reviews 4 and 7, of which only
    review 4 is in the table; the checkpoint already holds reviews 1 to 3. *)
Definition ledger_world : World :=
  mkWorld [] 0 ∅ (Some {| products := [1]; reviews := [1; 2; 3] |})
          (Some Examples.ledger_4_7) 0 [].

Definition ledger_env : Env :=
  Examples.healthy [] [Examples.review 4 [Examples.ascii_a]].

Definition ledger_run : (option Retry.Report + exn) * World :=
  Retry.main ledger_env Examples.retry_ledger ledger_world.

End MoreExamples.

Module Scenario.

(** The end-to-end scenario: reviews 10, 20 and 30, no checkpoint, and an
    embedding service that fails on review 20, that is on its second to
    fourth call. *)
Definition source : list ReviewRow.t :=
  [Examples.review 10 [Examples.ascii_a]; Examples.review 20 [Examples.ascii_a];
   Examples.review 30 [Examples.ascii_a]].

Definition env : Env :=
  {| ollama := fun n _ =>
       if ((1 <=? n) && (n <=? 3))%nat then EmbedError []
       else Examples.embed_ok;
     qdrant_put := fun _ _ _ _ => PutOk;
     now := fun _ => [];
     kurly_skin_products := [];
     kurly_skin_reviews := source |}.

Definition first_run : (Initial.Report + exn) * World :=
  Initial.process_reviews env None Examples.fresh.

(** The run that follows it, from the world the first run left. *)
Definition second_run : (Initial.Report + exn) * World :=
  Initial.process_reviews env None (snd first_run).

End Scenario.

(** The branches of the retry loop that count as a success. *)
Definition is_saved (o : Retry.Outcome) : bool :=
  match o with Retry.SAVED _ => true | _ => false end.

(** The iterations of a review run that called the embedding service, and
    those that went on to call the index. *)
Definition is_embedded (o : Initial.Outcome) : bool := negb (is_skip o).

Definition is_written (o : Initial.Outcome) : bool :=
  match o with Initial.SUCCESS | Initial.WRITE_FAIL => true | _ => false end.

(** The number of POSTs to Ollama and of PUTs to Qdrant between two
    worlds. *)
Definition posts_between (w w' : World) : Z :=
  Z.of_nat (length (embed_sent w')) - Z.of_nat (length (embed_sent w)).

Definition puts_between (w w' : World) : Z :=
  Z.of_nat (put_calls w') - Z.of_nat (put_calls w).

(** The title of a notice entry has one of the keywords that are tested
    before the ingredient keyword. *)
Definition before_ingredient (title : pystr) : bool :=
  contains K_VOLUME title || contains K_WEIGHT title
  || contains K_SKINTYPE title || contains K_SPEC title
  || contains K_USAGE title || contains K_ORIGIN title
  || contains K_FUNCTIONAL title.

(** What the ledger of failed reviews keeps of the contents of a review:
    a preview of at most 100 characters on one line, and the length of the
    stripped contents. *)
Definition preview_ok (f : Failure.t) : bool :=
  (0 <? len (Failure.contents_preview f))
  && (len (Failure.contents_preview f) <=? 100)
  && (len (Failure.contents_preview f) <=? Failure.contents_length f)
  && forallb (fun c => negb (c =? 10)%N) (Failure.contents_preview f).



Module EdgeExamples.





(** A review run limited to two rows. *)
Definition limited_run : (Initial.Report + exn) * World :=
  Initial.process_reviews Examples.resumed (Some 2) Examples.fresh.

(** Three notice entries: one without a description, the long ingredient
    list, one whose title is blank. *)
Definition no_description : Notice :=
  {| title := Some K_ORIGIN; description := None |}.

Definition blank_title : Notice :=
  {| title := Some [32; 32]%N; description := Some [Examples.ascii_a] |}.

(** A review of 150 characters with a line break every third character. *)
Definition multi_line : ReviewRow.t :=
  Examples.review 1 (concat (replicate 50 [Examples.ascii_a; 10; 98]%N)).

Definition multi_line_run : (Initial.Report + exn) * World :=
  Initial.process_reviews (Examples.ollama_down [] [multi_line]) None
                          Examples.fresh.

End EdgeExamples.

(** * Properties *)

#[local] Set Warnings "-clear-no-such-hyp".

Section Frames.

Variable env : Env.

Lemma post_embed_frame text w r w' :
  post_embed env text w = (r, w') ->
  embed_only w w' /\ embed_sent w' = embed_sent w ++ [text] /\
  (forall code, r <> inr (SystemExit code)).
Proof.
  unfold post_embed. intros H.
  destruct (ollama env (length (embed_sent w)) text);
    injection H as <- <-; repeat split; discriminate.
Qed.

Lemma generate_embedding_from_spec n text w r w' :
  Initial.generate_embedding_from env n text w = (r, w') ->
  embed_only w w' /\
  (r = inr KeyboardInterrupt \/ exists x, r = inl x).
Proof.
  revert w. induction n as [|n IH]; intros w H; simpl in H.
  - injection H as <- <-. split; [repeat split | right; eauto].
  - unfold try_except, bind in H.
    destruct (post_embed env text w) as [[emb|e] w1] eqn:Hp.
    + apply post_embed_frame in Hp as (Hf & _ & _).
      destruct emb as [[|e0 l]|]; injection H as <- <-; split; eauto.
    + apply post_embed_frame in Hp as (Hf & _ & Hx).
      destruct e as [|code|msg].
      * injection H as <- <-. split; eauto.
      * destruct (Hx code eq_refl).
      * destruct n.
        -- injection H as <- <-. split; eauto.
        -- apply IH in H as [Hf' Hr]. split; [|exact Hr].
           unfold embed_only in *. intuition congruence.
Qed.

Lemma put_point_spec pid v p w r w' :
  put_point env pid v p w = (r, w') ->
  put_only w w' /\
  ((r = inl tt /\ qdrant w' = <[pid := (v, p)]> (qdrant w)) \/
   ((r = inr KeyboardInterrupt \/ exists msg, r = inr (Exception msg)) /\
    qdrant w' = qdrant w)).
Proof.
  unfold put_point. intros H.
  destruct (encodable v);
    [destruct (qdrant_put env (put_calls w) pid v p)|];
    injection H as <- <-; (split; [repeat split|]); eauto.
Qed.

Lemma save_to_qdrant_from_spec n pid v p w r w' :
  save_to_qdrant_from env n pid v p w = (r, w') ->
  put_only w w' /\
  ((r = inl true /\ qdrant w' = <[pid := (v, p)]> (qdrant w)) \/
   ((r = inl false \/ r = inr KeyboardInterrupt) /\ qdrant w' = qdrant w)).
Proof.
  revert w. induction n as [|n IH]; intros w H; simpl in H.
  - injection H as <- <-. split; [repeat split | right; eauto].
  - unfold try_except, bind in H.
    destruct (put_point env pid v p w) as [[[]|e] w1] eqn:Hp;
      apply put_point_spec in Hp as [Hf Hq].
    + injection H as <- <-. split; [exact Hf|left].
      destruct Hq as [[_ Hq]|[[Hq|[m Hq]] _]]; try discriminate. eauto.
    + destruct Hq as [[Hq _]|[Hr Hq]]; [discriminate|].
      destruct e as [|code|msg].
      * injection H as <- <-. split; [exact Hf|right; eauto].
      * destruct Hr as [Hr|[m Hr]]; discriminate.
      * destruct n.
        -- injection H as <- <-. split; [exact Hf|right; eauto].
        -- apply IH in H as [Hf' Hr']. split.
           ++ unfold put_only in *. intuition congruence.
           ++ rewrite Hq in Hr'. exact Hr'.
Qed.

End Frames.

Section Loops.

Context {R S O : Type}.
Variable body : R -> S -> M (O * S).
Variable step : R -> S -> World -> O * S + exn -> World -> Prop.
Hypothesis body_step :
  forall x st w res w', body x st w = (res, w') -> step x st w res w'.

(** A loop that returns has run one step per element. *)
Lemma for_each_run xs st w os st' w' :
  for_each body xs st w = (inl (os, st'), w') ->
  run_steps step xs st w os st' w'.
Proof.
  revert st w os. induction xs as [|x xs IH]; intros st w os H; simpl in H.
  - injection H as <- <- <-. constructor.
  - unfold bind in H.
    destruct (body x st w) as [[[o st1]|e] w1] eqn:Hb; [|discriminate].
    simpl in H.
    destruct (for_each body xs st1 w1) as [[[os1 st2]|e] w2] eqn:Hr;
      [|discriminate].
    injection H as <- <- <-. simpl.
    econstructor; [apply body_step, Hb | apply IH, Hr].
Qed.

Lemma run_steps_length xs st w os st' w' :
  run_steps step xs st w os st' w' -> length os = length xs.
Proof. induction 1; simpl; congruence. Qed.

End Loops.

Section Inversion.

Variable env : Env.

Import Initial.

Lemma load_checkpoint_eq w :
  load_checkpoint w = (inl (loaded_checkpoint w), w).
Proof.
  unfold load_checkpoint, loaded_checkpoint. by destruct (checkpoint_file w).
Qed.

Lemma datetime_now_eq w :
  datetime_now env w = (inl (now env (clock_reads w)), ticked w).
Proof. reflexivity. Qed.

Lemma review_body_inv row st w res w' :
  review_body env row st w = (res, w') -> review_step env row st w res w'.
Proof.
  unfold review_body. intros H.
  destruct (decide (ReviewRow.id row ∈ processed_ids st)) as [Hin|Hin].
  { injection H as <- <-. by constructor. }
  unfold try_except in H.
  destruct (strip (ReviewRow.contents row)) as [|c s] eqn:Hs; simpl in H.
  { injection H as <- <-. by constructor. }
  rewrite <- Hs in *.
  assert (Hne : strip (ReviewRow.contents row) <> [])
    by (rewrite Hs; discriminate).
  unfold bind in H.
  destruct (generate_embedding env _ w) as [[r|e] w1] eqn:Hg.
  - destruct (usable (fst r)) as [v|] eqn:Hu.
    + rewrite datetime_now_eq in H.
      destruct (save_to_qdrant env _ v _ _) as [res0 w2] eqn:Hq.
      pose proof (save_to_qdrant_from_spec env _ _ _ _ _ _ _ Hq) as [_ Hres].
      destruct Hres as [[-> _]|[[->| ->] _]].
      * destruct (commit _ _ _ _ _) as [[x|e] w3] eqn:Hc.
        -- injection H as <- <-. eapply RS_success; eauto.
        -- unfold commit, bind in Hc.
           destruct (_ =? 0) in Hc; discriminate.
      * injection H as <- <-. eapply RS_write_fail; eauto.
      * injection H as <- <-. eapply RS_write_interrupt; eauto.
    + injection H as <- <-. by econstructor.
  - apply generate_embedding_from_spec in Hg as Hg'.
    destruct Hg' as [_ [He|[x He]]]; [|discriminate].
    injection He as ->. injection H as <- <-. by econstructor.
Qed.

Lemma product_body_inv row st w res w' :
  product_body env row st w = (res, w') -> product_step env row st w res w'.
Proof.
  unfold product_body. intros H.
  destruct (decide (ProductRow.id row ∈ processed_ids st)) as [Hin|Hin].
  { injection H as <- <-. by constructor. }
  unfold try_except, bind, int_or in H.
  destruct (product_cells row) as [[[s d] c]|] eqn:Hc; unfold product_cells in Hc;
    destruct (cell_int 0 (ProductRow.sales_price row)) as [s'|] eqn:E1;
    try (injection H as <- <-; constructor; [done|];
         unfold product_cells; by rewrite E1);
    destruct (cell_int 0 (ProductRow.discounted_price row)) as [d'|] eqn:E2;
    try (injection H as <- <-; constructor; [done|];
         unfold product_cells; by rewrite E1, E2);
    destruct (cell_int 0 (ProductRow.review_count row)) as [c'|] eqn:E3;
    try (injection H as <- <-; constructor; [done|];
         unfold product_cells; by rewrite E1, E2, E3);
    try discriminate.
  injection Hc as -> -> ->.
  assert (Hcells : product_cells row = Some (s, d, c))
    by (unfold product_cells; by rewrite E1, E2, E3).
  unfold ret at 1 2 3 in H.
  destruct (generate_embedding env _ w) as [[r|e] w1] eqn:Hg.
  - destruct (usable (fst r)) as [v|] eqn:Hu.
    + rewrite datetime_now_eq in H. unfold int_cell in H.
      destruct (int_of_str (ProductRow.product_no row)) as [n|] eqn:Hn.
      * unfold ret at 1 in H.
        destruct (save_to_qdrant env _ v _ _) as [res0 w2] eqn:Hq.
        pose proof (save_to_qdrant_from_spec env _ _ _ _ _ _ _ Hq) as [_ Hres].
        destruct Hres as [[-> _]|[[->| ->] _]].
        -- destruct (commit _ _ _ _ _) as [[x|e] w3] eqn:Hcm.
           ++ injection H as <- <-. eapply PS_success; eauto.
           ++ unfold commit, bind in Hcm.
              destruct (_ =? 0) in Hcm; discriminate.
        -- injection H as <- <-. eapply PS_write_fail; eauto.
        -- injection H as <- <-. eapply PS_write_interrupt; eauto.
      * injection H as <- <-. eapply PS_bad_product_no; eauto.
    + injection H as <- <-. by econstructor.
  - apply generate_embedding_from_spec in Hg as Hg'.
    destruct Hg' as [_ [He|[x He]]]; [|discriminate].
    injection He as ->. injection H as <- <-. by econstructor.
Qed.

End Inversion.

Section RetryInversion.

Variable env : Env.

Import Retry.

Lemma try_embed_spec text w r w' :
  try_embed env text w = (r, w') ->
  embed_only w w' /\ embed_sent w' = embed_sent w ++ [text] /\
  (r = inr KeyboardInterrupt \/ exists x, r = inl x).
Proof.
  unfold try_embed, try_except, bind. intros H.
  destruct (post_embed env text w) as [[emb|e] w1] eqn:Hp;
    apply post_embed_frame in Hp as (Hf & Hs & Hx).
  - destruct emb as [[|e0 l]|]; injection H as <- <-; eauto.
  - destruct e as [|code|msg].
    + injection H as <- <-. eauto.
    + destruct (Hx code eq_refl).
    + injection H as <- <-. eauto.
Qed.

Lemma retry_body_inv args review_id st w res w' :
  retry_body env args review_id st w = (res, w') ->
  retry_step env args review_id st w res w'.
Proof.
  unfold retry_body, bind, query_by_id. intros H. unfold ret at 1 in H.
  destruct (filter _ (kurly_skin_reviews env)) as [|row rest] eqn:Hl.
  { injection H as <- <-. constructor. unfold lookup_row. by rewrite Hl. }
  assert (Hrow : lookup_row env review_id = Some row)
    by (unfold lookup_row; by rewrite Hl).
  destruct (strip (ReviewRow.contents row)) as [|c s] eqn:Hs; simpl in H.
  { injection H as <- <-. by econstructor. }
  assert (Hne : strip (ReviewRow.contents row) <> [])
    by (rewrite Hs; discriminate).
  destruct (try_embed env _ w) as [[r|e] w1] eqn:Hg.
  - destruct (choose_vector args (fst r)) as [[v fb]|] eqn:Hu.
    + destruct (save_to_qdrant env _ v _ _) as [res0 w2] eqn:Hq.
      pose proof (save_to_qdrant_from_spec env _ _ _ _ _ _ _ Hq) as [_ Hres].
      destruct Hres as [[-> _]|[[->| ->] _]].
      * injection H as <- <-. eapply TS_saved; eauto.
      * injection H as <- <-. eapply TS_write_fail; eauto.
      * injection H as <- <-. eapply TS_write_interrupt; eauto.
    + injection H as <- <-. by econstructor.
  - apply try_embed_spec in Hg as Hg'.
    destruct Hg' as (_ & _ & [He|[x He]]); [|discriminate].
    injection He as ->. injection H as <- <-. by econstructor.
Qed.

End RetryInversion.

Section Summaries.

Variable env : Env.

Import Initial.

Lemma generate_embedding_frame text w r w' :
  generate_embedding env text w = (r, w') -> embed_only w w'.
Proof. intros H. by apply generate_embedding_from_spec in H as [? _]. Qed.

Lemma save_to_qdrant_true pid v p w w' :
  save_to_qdrant env pid v p w = (inl true, w') ->
  put_only w w' /\ qdrant w' = <[pid := (v, p)]> (qdrant w).
Proof.
  intros H. apply save_to_qdrant_from_spec in H as [Hf Hq]. split; [done|].
  destruct Hq as [[_ Hq]|[[Hq|Hq] _]]; [done|discriminate..].
Qed.

Lemma save_to_qdrant_false pid v p w r w' :
  save_to_qdrant env pid v p w = (r, w') -> r <> inl true ->
  put_only w w' /\ qdrant w' = qdrant w.
Proof.
  intros H Hr. apply save_to_qdrant_from_spec in H as [Hf Hq]. split; [done|].
  by destruct Hq as [[Hq _]|[_ Hq]].
Qed.

(** The tail of a successful iteration always returns [SUCCESS]; it adds
    the identifier, counts it, and at most rewrites the checkpoint file,
    with the set it has just built. *)
Lemma commit_spec set_kind cadence i st w res w' :
  set_kind = set_products \/ set_kind = set_reviews ->
  commit set_kind cadence i st w = (res, w') ->
  exists st',
    res = inl (SUCCESS, st') /\
    processed_ids st' = {[i]} ∪ processed_ids st /\
    success_count st' = success_count st + 1 /\
    skip_count st' = skip_count st /\ fail_count st' = fail_count st /\
    failed_log st' = failed_log st /\
    checkpoint_only w w' /\
    (checkpoint_file w' = checkpoint_file w \/
     checkpoint_file w' = Some (checkpoint st')).
Proof.
  intros Hk H. unfold commit, bind in H.
  destruct (_ =? 0) in H.
  - injection H as <- <-.
    destruct Hk as [-> | ->]; eexists; (split; [reflexivity|]);
      simpl; repeat split; auto.
  - injection H as <- <-. eexists; (split; [reflexivity|]);
      simpl; repeat split; auto.
Qed.

Lemma not_empty_truthy (s : pystr) : s <> [] -> negb (truthy s) = false.
Proof. by destruct s. Qed.

Lemma review_step_summary row st w o st' w' :
  review_step env row st w (inl (o, st')) w' ->
  step_summary (ReviewRow.id row)
    (negb (truthy (strip (ReviewRow.contents row)))) st w o st' w'.
Proof.
  intros H. inversion H; subst; clear H; unfold step_summary.
  - simpl. rewrite Z.add_0_r. repeat split; try done; try lia.
    intros [Hn _]. done.
  - simpl. rewrite Z.add_0_r. repeat split; try done; try lia.
    match goal with E : strip _ = [] |- _ => by rewrite E end.
  - match goal with E : generate_embedding _ _ _ = _ |- _ =>
      apply generate_embedding_frame in E as (?&?&?&?&?&?) end.
    simpl. rewrite !Z.add_0_r. repeat split; try done.
    intros [_ Hn]. by rewrite not_empty_truthy in Hn.
  - match goal with E : generate_embedding _ _ _ = _ |- _ =>
      apply generate_embedding_frame in E as (?&?&?&?&?&?) end.
    match goal with E : save_to_qdrant _ _ _ _ _ = _ |- _ =>
      apply save_to_qdrant_false in E as [(?&?&?&?&?) ?]; [|discriminate] end.
    simpl in *. rewrite !Z.add_0_r. repeat split; try congruence; try done.
    intros [_ Hn]. by rewrite not_empty_truthy in Hn.
  - match goal with E : generate_embedding _ _ _ = _ |- _ =>
      apply generate_embedding_frame in E as (?&?&?&?&?&?) end.
    match goal with E : save_to_qdrant _ _ _ _ _ = _ |- _ =>
      apply save_to_qdrant_true in E as [(?&?&?&?&?) ?] end.
    match goal with E : commit _ _ _ _ _ = _ |- _ =>
      apply commit_spec in E as (st2 & E2 & ? & ? & ? & ? & ? & (?&?&?&?&?&?) & ?);
        [|by right] end.
    injection E2 as -> ->.
    simpl in *. rewrite !Z.add_0_r. repeat split; try congruence; try done.
    intros [_ Hn]. by rewrite not_empty_truthy in Hn.
Qed.

Lemma product_step_summary row st w o st' w' :
  product_step env row st w (inl (o, st')) w' ->
  step_summary (ProductRow.id row) false st w o st' w'.
Proof.
  intros H. inversion H; subst; clear H; unfold step_summary.
  - simpl. rewrite Z.add_0_r. repeat split; try done; try lia.
    all: try (by intros [Hn _]).
  - simpl. rewrite !Z.add_0_r. repeat split; try done.
    all: try (by intros [_ Hn]).
  - match goal with E : generate_embedding _ _ _ = _ |- _ =>
      apply generate_embedding_frame in E as (?&?&?&?&?&?) end.
    simpl. rewrite !Z.add_0_r. repeat split; try done.
    all: try (by intros [_ Hn]).
  - match goal with E : generate_embedding _ _ _ = _ |- _ =>
      apply generate_embedding_frame in E as (?&?&?&?&?&?) end.
    simpl. rewrite !Z.add_0_r. repeat split; try done.
    all: try (by intros [_ Hn]).
  - match goal with E : generate_embedding _ _ _ = _ |- _ =>
      apply generate_embedding_frame in E as (?&?&?&?&?&?) end.
    match goal with E : save_to_qdrant _ _ _ _ _ = _ |- _ =>
      apply save_to_qdrant_false in E as [(?&?&?&?&?) ?]; [|discriminate] end.
    simpl in *. rewrite !Z.add_0_r. repeat split; try congruence; try done.
    all: try (by intros [_ Hn]).
  - match goal with E : generate_embedding _ _ _ = _ |- _ =>
      apply generate_embedding_frame in E as (?&?&?&?&?&?) end.
    match goal with E : save_to_qdrant _ _ _ _ _ = _ |- _ =>
      apply save_to_qdrant_true in E as [(?&?&?&?&?) ?] end.
    match goal with E : commit _ _ _ _ _ = _ |- _ =>
      apply commit_spec in E as (st2 & E2 & ? & ? & ? & ? & ? & (?&?&?&?&?&?) & ?);
        [|by left] end.
    injection E2 as -> ->.
    simpl in *. rewrite !Z.add_0_r. repeat split; try congruence; try done.
    all: try (by intros [_ Hn]).
Qed.

End Summaries.

Section LoopFacts.

Import Initial.

Context {R : Type}.
Variable ident : R -> Z.
Variable empty : R -> bool.
Variable step : R -> Loop -> World -> Outcome * Loop + exn -> World -> Prop.
Hypothesis step_sum :
  forall x st w o st' w',
    step x st w (inl (o, st')) w' ->
    step_summary (ident x) (empty x) st w o st' w'.

(** The counters count the branches taken, and the set gains exactly the
    identifiers of the successful iterations. *)
Lemma run_counts xs st w os st' w' :
  run_steps step xs st w os st' w' ->
  failures_file w' = failures_file w /\ stdout w' = stdout w /\
  skip_count st' = skip_count st + count_if is_skip os /\
  fail_count st' = fail_count st + count_if is_fail os /\
  success_count st' = success_count st + count_if is_success os /\
  processed_ids st' =
    processed_ids st ∪ list_to_set (ids_ending is_success (ident <$> xs) os).
Proof.
  induction 1 as [st w|x xs st w o st1 w1 os st' w' Hs _ IH].
  - simpl. rewrite !Z.add_0_r. repeat split. set_solver.
  - apply step_sum in Hs as (Hf & Ho & Hk & Hl & Hc & Hp & _).
    destruct IH as (Hf' & Ho' & Hk' & Hl' & Hc' & Hp').
    simpl. repeat split; try congruence; try lia.
    rewrite Hp', Hp. destruct (is_success o); set_solver.
Qed.

(** With distinct identifiers in the source, the checkpoint test of every
    iteration sees the set as it was loaded. *)
Lemma run_skips_from (P : gset Z) xs st w os st' w' :
  (forall x, x ∈ xs -> ident x ∈ processed_ids st <-> ident x ∈ P) ->
  NoDup (ident <$> xs) ->
  run_steps step xs st w os st' w' ->
  Forall2 (fun x o =>
             (o = SKIP <-> ident x ∈ P) /\
             (o = SKIP_EMPTY <-> (ident x ∉ P) /\ empty x = true))
          xs os.
Proof.
  intros HP Hnd Hrun. revert HP Hnd.
  induction Hrun as [st w|x xs st w o st1 w1 os st' w' Hs _ IH]; intros HP Hnd.
  - constructor.
  - apply NoDup_cons in Hnd as [Hx Hnd]. fold (fmap ident xs) in *.
    apply step_sum in Hs as (_ & _ & _ & _ & _ & Hp & Hskip & Hempty & _).
    pose proof (HP x (list_elem_of_here x xs)) as HPx.
    constructor.
    + rewrite Hskip, Hempty, HPx. tauto.
    + apply IH; [|exact Hnd].
      intros y Hy. rewrite <- (HP y (list_elem_of_further _ _ _ Hy)), Hp.
      assert (ident y <> ident x).
      { intros E. apply Hx. rewrite <- E. apply list_elem_of_fmap. eauto. }
      destruct (is_success o); set_solver.
Qed.

Lemma run_skips xs st w os st' w' :
  NoDup (ident <$> xs) ->
  run_steps step xs st w os st' w' ->
  Forall2 (fun x o =>
             (o = SKIP <-> ident x ∈ processed_ids st) /\
             (o = SKIP_EMPTY <->
                (ident x ∉ processed_ids st) /\ empty x = true))
          xs os.
Proof. apply run_skips_from. tauto. Qed.

End LoopFacts.

Section Runs.

Variable env : Env.

Import Initial.

Lemma limit_rows_eq {R} (test_limit : option Z) (rows : list R) w :
  limit_rows test_limit rows w =
  match limited test_limit rows with
  | Some l => (inl l, w)
  | None => (inr (SystemExit 1), w)
  end.
Proof.
  unfold limit_rows, limited. destruct test_limit as [n|]; [|done].
  destruct (n =? 0); [done|]. by destruct (n <? 0).
Qed.

(** A review run that returns: the rows it read, the steps it took, and
    what it left in the world. *)
Lemma process_reviews_inv test_limit w report w' :
  process_reviews env test_limit w = (inl report, w') ->
  exists rows st' w1,
    limited test_limit (review_source env) = Some rows /\
    run_steps (review_step env) rows
      (loop_start (reviews (loaded_checkpoint w)) w) w
      (outcomes report) st' w1 /\
    n_success report = success_count st' /\
    n_skip report = skip_count st' /\
    n_fail report = fail_count st' /\
    checkpoint_file w' =
      Some {| products := products (checkpoint st');
              reviews := elements (processed_ids st') |} /\
    failures_file w' =
      match failed_log st' with
      | [] => failures_file w1
      | _ :: _ => Some (failed_log st')
      end /\
    qdrant w' = qdrant w1 /\ embed_sent w' = embed_sent w1 /\
    stdout w' = stdout w1 ++ [MsgReviewSummary (success_count st')
                                (skip_count st') (fail_count st')].
Proof.
  unfold process_reviews, bind, load_checkpoint, query_reviews. intros H.
  fold (review_source env) in H.
  replace (match checkpoint_file w with
           | Some c => (inl c, w)
           | None => (inl {| products := []; reviews := [] |}, w)
           end) with (@inl Checkpoint exn (loaded_checkpoint w), w) in H
    by (unfold loaded_checkpoint; by destruct (checkpoint_file w)).
  rewrite limit_rows_eq in H.
  destruct (limited test_limit (review_source env)) as [rows|]; [|discriminate].
  destruct (for_each (review_body env) rows _ w) as [[[os st']|e] w1] eqn:Hloop;
    [|discriminate].
  apply (for_each_run _ _ (review_body_inv env)) in Hloop.
  exists rows, st', w1. simpl in H.
  destruct (failed_log st') as [|f fl] eqn:Hlog;
    injection H as <- <-; simpl; rewrite ?Hlog; repeat split; auto.
Qed.

Lemma process_products_inv test_limit w report w' :
  process_products env test_limit w = (inl report, w') ->
  exists rows st' w1,
    limited test_limit (kurly_skin_products env) = Some rows /\
    run_steps (product_step env) rows
      (loop_start (products (loaded_checkpoint w)) w) w
      (outcomes report) st' w1 /\
    n_success report = success_count st' /\
    n_skip report = skip_count st' /\
    n_fail report = fail_count st' /\
    checkpoint_file w' =
      Some {| products := elements (processed_ids st');
              reviews := reviews (checkpoint st') |} /\
    failures_file w' = failures_file w1 /\
    qdrant w' = qdrant w1 /\ embed_sent w' = embed_sent w1 /\
    stdout w' = stdout w1 ++ [MsgProductSummary (success_count st')
                                (skip_count st') (fail_count st')].
Proof.
  unfold process_products, bind, load_checkpoint, query_products. intros H.
  replace (match checkpoint_file w with
           | Some c => (inl c, w)
           | None => (inl {| products := []; reviews := [] |}, w)
           end) with (@inl Checkpoint exn (loaded_checkpoint w), w) in H
    by (unfold loaded_checkpoint; by destruct (checkpoint_file w)).
  rewrite limit_rows_eq in H.
  destruct (limited test_limit (kurly_skin_products env)) as [rows|];
    [|discriminate].
  destruct (for_each (product_body env) rows _ w) as [[[os st']|e] w1] eqn:Hloop;
    [|discriminate].
  apply (for_each_run _ _ (product_body_inv env)) in Hloop.
  exists rows, st', w1. simpl in H.
  injection H as <- <-; simpl; repeat split; auto.
Qed.

End Runs.

Section Interruption.

Variable env : Env.

Import Initial.

(** Below the flush cadence an iteration never writes the checkpoint file,
    however it ends. *)
Lemma review_step_no_flush row st w res w' :
  review_step env row st w res w' ->
  0 <= success_count st -> success_count st + 1 < 50 ->
  checkpoint_file w' = checkpoint_file w /\
  (forall o st', res = inl (o, st') ->
     success_count st <= success_count st' <= success_count st + 1).
Proof.
  intros H H0 H50.
  inversion H; subst; clear H;
    repeat match goal with
      | E : generate_embedding _ _ _ = _ |- _ =>
          apply generate_embedding_frame in E as (?&?&?&?&?&?)
      | E : save_to_qdrant _ _ _ _ _ = _ |- _ =>
          apply save_to_qdrant_from_spec in E as [(?&?&?&?&?) _]
      end; simpl in *;
    try (split; [congruence|intros o st1 [= <- <-]; simpl; lia]);
    try (split; [congruence|intros; discriminate]).
  match goal with E : commit _ _ _ _ _ = _ |- _ =>
    unfold commit, bind in E; simpl in E end.
  destruct (Z.eqb_spec ((success_count st + 1) mod 50) 0) as [Hm|Hm].
  - rewrite Z.mod_small in Hm by lia. lia.
  - match goal with E : ret _ _ = _ |- _ => injection E as <- <- end.
    split; [congruence|intros o st1 [= <- <-]; simpl; lia].
Qed.

Lemma review_loop_no_flush rows st w res w' :
  0 <= success_count st ->
  success_count st + Z.of_nat (length rows) < 50 ->
  for_each (review_body env) rows st w = (res, w') ->
  checkpoint_file w' = checkpoint_file w.
Proof.
  revert st w res. induction rows as [|row rows IH]; intros st w res H0 H50 H.
  - simpl in H. by injection H as <- <-.
  - simpl in H. unfold bind in H. simpl length in H50.
    destruct (review_body env row st w) as [[[o st1]|e] w1] eqn:Hb.
    + apply review_body_inv in Hb.
      apply review_step_no_flush in Hb as [Hc Hs]; [|lia..].
      specialize (Hs o st1 eq_refl). simpl in H.
      destruct (for_each (review_body env) rows st1 w1)
        as [[[os st2]|e] w2] eqn:Hr.
      * injection H as <- <-. apply IH in Hr; [congruence|lia..].
      * injection H as <- <-. apply IH in Hr; [congruence|lia..].
    + injection H as <- <-. apply review_body_inv in Hb.
      by apply review_step_no_flush in Hb as [Hc _]; [|lia..].
Qed.

(** A review run over fewer than 50 rows that ends in an exception leaves
    the checkpoint file as it found it: the successes of the run are in
    memory only. *)
Lemma interrupted_reviews_keep_old_file test_limit rows w e w' :
  limited test_limit (review_source env) = Some rows ->
  Z.of_nat (length rows) < 50 ->
  process_reviews env test_limit w = (inr e, w') ->
  checkpoint_file w' = checkpoint_file w.
Proof.
  intros Hrows Hlen. unfold process_reviews, bind, query_reviews.
  rewrite load_checkpoint_eq. fold (review_source env).
  rewrite limit_rows_eq, Hrows.
  destruct (for_each (review_body env) rows _ w) as [[[os st']|e0] w1] eqn:Hl.
  - simpl. destruct (failed_log st'); discriminate.
  - intros [= <- <-]. apply review_loop_no_flush in Hl; simpl; [done|lia..].
Qed.

End Interruption.

(** ** From the calls of the services to the result of an iteration *)

Section Converse.

Variable env : Env.

Import Initial.

Lemma review_step_body row st w res w' :
  review_step env row st w res w' -> review_body env row st w = (res, w').
Proof.
  intros H. unfold review_body.
  inversion H; subst; clear H;
    destruct (decide (ReviewRow.id row ∈ processed_ids st)); try done;
    unfold try_except, bind;
    repeat match goal with
      | E : strip _ = [] |- _ => rewrite E; simpl
      | E : strip _ <> [] |- _ => rewrite (not_empty_truthy _ E); clear E
      | E : generate_embedding _ _ _ = _ |- _ => rewrite E; clear E
      | E : usable _ = _ |- _ => rewrite E; clear E
      | E : save_to_qdrant _ _ _ _ _ = _ |- _ =>
          rewrite datetime_now_eq, E; clear E
      end; try reflexivity.
  match goal with E : commit _ _ _ _ _ = _ |- _ =>
    rewrite E; apply commit_spec in E as (st2 & -> & _); [done|by right] end.
Qed.

Lemma product_step_body row st w res w' :
  product_step env row st w res w' -> product_body env row st w = (res, w').
Proof.
  intros H. unfold product_body.
  inversion H; subst; clear H;
    destruct (decide (ProductRow.id row ∈ processed_ids st)); try done;
    unfold try_except, bind, int_or, int_cell;
    match goal with E : product_cells _ = _ |- _ =>
      unfold product_cells in E;
      destruct (cell_int 0 (ProductRow.sales_price row)); try done;
      destruct (cell_int 0 (ProductRow.discounted_price row)); try done;
      destruct (cell_int 0 (ProductRow.review_count row)); try done;
      try (injection E as -> -> ->)
    end;
    unfold ret at 1 2 3;
    repeat match goal with
      | E : generate_embedding _ _ _ = _ |- _ => rewrite E; clear E
      | E : usable _ = _ |- _ => rewrite E; clear E
      | E : int_of_str _ = _ |- _ => rewrite datetime_now_eq, E; clear E
      | E : save_to_qdrant _ _ _ _ _ = _ |- _ => unfold ret at 1; rewrite E; clear E
      end; try reflexivity.
  match goal with E : commit _ _ _ _ _ = _ |- _ =>
    rewrite E; apply commit_spec in E as (st2 & -> & _); [done|by left] end.
Qed.

End Converse.

Section RetryConverse.

Variable env : Env.

Import Retry.

Lemma retry_step_body args i st w res w' :
  retry_step env args i st w res w' -> retry_body env args i st w = (res, w').
Proof.
  intros H. unfold retry_body, bind, query_by_id. unfold ret at 1.
  inversion H; subst; clear H;
    match goal with E : lookup_row _ _ = _ |- _ =>
      unfold lookup_row in E;
      destruct (filter _ (kurly_skin_reviews env)) as [|row0 rest];
      simpl in E; try discriminate; try (injection E as ->)
    end; try reflexivity;
    repeat match goal with
      | E : strip _ = [] |- _ => rewrite E; simpl
      | E : strip _ <> [] |- _ => rewrite (not_empty_truthy _ E); clear E
      | E : try_embed _ _ _ = _ |- _ => rewrite E; clear E
      | E : choose_vector _ _ = _ |- _ => rewrite E; clear E
      | E : save_to_qdrant _ _ _ _ _ = _ |- _ =>
          rewrite datetime_now_eq, E; clear E
      end; reflexivity.
Qed.

End RetryConverse.

(** ** Loops as chains of calls of the body *)

Section Chains.

Context {R S O : Type}.
Variable body : R -> S -> M (O * S).

Lemma for_each_iterates xs st w os st' w' :
  for_each body xs st w = (inl (os, st'), w') <->
  iterates body xs st w os st' w'.
Proof.
  split.
  - apply (for_each_run body (fun x s0 w0 res w1 => body x s0 w0 = (res, w1))).
    auto.
  - induction 1 as [st w|x xs st w o st1 w1 os st' w' Hs _ IH]; [done|].
    simpl. unfold bind. rewrite Hs. simpl. by rewrite IH.
Qed.

Lemma iterates_steps
    (step : R -> S -> World -> O * S + exn -> World -> Prop)
    xs st w os st' w' :
  (forall x s0 w0 res w1, body x s0 w0 = (res, w1) -> step x s0 w0 res w1) ->
  iterates body xs st w os st' w' -> run_steps step xs st w os st' w'.
Proof.
  intros Hb. induction 1; econstructor; eauto.
Qed.

(** A body that always returns makes the loop return. *)
Lemma for_each_total xs st w :
  (forall x s0 w0, exists o s1 w1, body x s0 w0 = (inl (o, s1), w1)) ->
  exists os st' w', for_each body xs st w = (inl (os, st'), w').
Proof.
  intros Hb. revert st w. induction xs as [|x xs IH]; intros st w.
  - simpl. unfold ret. eauto.
  - destruct (Hb x st w) as (o & s1 & w1 & Hx).
    destruct (IH s1 w1) as (os & st' & w' & Hxs).
    simpl. unfold bind. rewrite Hx. simpl. rewrite Hxs. simpl.
    unfold ret. eauto.
Qed.

End Chains.

(** ** Runs without interruption *)

Section Totality.

Variable env : Env.
Hypothesis quiet : never_interrupts env.

Lemma generate_embedding_from_total n text w :
  exists r w', Initial.generate_embedding_from env n text w = (inl r, w').
Proof.
  revert w. induction n as [|n IH]; intros w; simpl.
  - unfold ret. eauto.
  - unfold try_except, bind, post_embed.
    destruct (ollama env (length (embed_sent w)) text) as [emb|msg|] eqn:Ho.
    + destruct emb as [[|e0 l]|]; unfold ret; eauto.
    + destruct n; [unfold ret; eauto|]. apply IH.
    + by destruct (proj1 quiet _ _ Ho).
Qed.

Lemma generate_embedding_total text w :
  exists r w', Initial.generate_embedding env text w = (inl r, w').
Proof. apply generate_embedding_from_total. Qed.

Lemma try_embed_total text w :
  exists r w', Retry.try_embed env text w = (inl r, w').
Proof.
  unfold Retry.try_embed, try_except, bind, post_embed.
  destruct (ollama env (length (embed_sent w)) text) as [emb|msg|] eqn:Ho.
  - destruct emb as [[|e0 l]|]; unfold ret; eauto.
  - unfold ret. eauto.
  - by destruct (proj1 quiet _ _ Ho).
Qed.

Lemma save_to_qdrant_from_total n pid v p w :
  exists ok w', save_to_qdrant_from env n pid v p w = (inl ok, w').
Proof.
  revert w. induction n as [|n IH]; intros w; simpl.
  - unfold ret. eauto.
  - unfold try_except, bind, put_point.
    destruct (encodable v).
    + destruct (qdrant_put env (put_calls w) pid v p) as [|msg|] eqn:Hq.
      * unfold ret. eauto.
      * destruct n; [unfold ret; eauto|]. apply IH.
      * by destruct (proj2 quiet _ _ _ _ Hq).
    + destruct n; [unfold ret; eauto|]. apply IH.
Qed.

Lemma save_to_qdrant_total pid v p w :
  exists ok w', save_to_qdrant env pid v p w = (inl ok, w').
Proof. apply save_to_qdrant_from_total. Qed.

Lemma review_body_total row st w :
  exists o st' w', Initial.review_body env row st w = (inl (o, st'), w').
Proof.
  destruct (Initial.review_body env row st w) as [[[o st']|e] w'] eqn:H;
    [eauto|].
  apply review_body_inv in H. inversion H; subst; clear H.
  - match goal with E : Initial.generate_embedding _ ?t ?w0 = _ |- _ =>
      destruct (generate_embedding_total t w0) as (? & ? & E');
      rewrite E' in E; discriminate end.
  - match goal with E : save_to_qdrant _ ?i ?v ?p ?w0 = _ |- _ =>
      destruct (save_to_qdrant_total i v p w0) as (? & ? & E');
      rewrite E' in E; discriminate end.
  - match goal with E : Initial.commit _ _ _ _ _ = _ |- _ =>
      apply commit_spec in E as (? & ? & _); [discriminate|by right] end.
Qed.

Lemma product_body_total row st w :
  exists o st' w', Initial.product_body env row st w = (inl (o, st'), w').
Proof.
  destruct (Initial.product_body env row st w) as [[[o st']|e] w'] eqn:H;
    [eauto|].
  apply product_body_inv in H. inversion H; subst; clear H.
  - match goal with E : Initial.generate_embedding _ ?t ?w0 = _ |- _ =>
      destruct (generate_embedding_total t w0) as (? & ? & E');
      rewrite E' in E; discriminate end.
  - match goal with E : save_to_qdrant _ ?i ?v ?p ?w0 = _ |- _ =>
      destruct (save_to_qdrant_total i v p w0) as (? & ? & E');
      rewrite E' in E; discriminate end.
  - match goal with E : Initial.commit _ _ _ _ _ = _ |- _ =>
      apply commit_spec in E as (? & ? & _); [discriminate|by left] end.
Qed.

Lemma retry_body_total args i st w :
  exists o st' w', Retry.retry_body env args i st w = (inl (o, st'), w').
Proof.
  destruct (Retry.retry_body env args i st w) as [[[o st']|e] w'] eqn:H;
    [eauto|].
  apply retry_body_inv in H. inversion H; subst; clear H.
  - match goal with E : Retry.try_embed _ ?t ?w0 = _ |- _ =>
      destruct (try_embed_total t w0) as (? & ? & E');
      rewrite E' in E; discriminate end.
  - match goal with E : save_to_qdrant _ ?i ?v ?p ?w0 = _ |- _ =>
      destruct (save_to_qdrant_total i v p w0) as (? & ? & E');
      rewrite E' in E; discriminate end.
Qed.

(** A run that is not interrupted, with a row limit that the query accepts,
    returns its report. *)
Lemma process_reviews_total test_limit w :
  limit_ok test_limit ->
  exists report w',
    Initial.process_reviews env test_limit w = (inl report, w').
Proof.
  intros Hl. unfold Initial.process_reviews, bind.
  rewrite load_checkpoint_eq. unfold Initial.query_reviews.
  rewrite limit_rows_eq.
  destruct (limited test_limit _) as [rows|] eqn:Hrows.
  - match goal with |- context [for_each ?b ?xs ?st ?w0] =>
      destruct (for_each_total b xs st w0) as (os & st' & w1 & Hf);
        [apply review_body_total|rewrite Hf] end.
    simpl. destruct (Initial.failed_log st'); simpl; eauto.
  - unfold limited in Hrows. destruct test_limit as [n|]; [|done].
    simpl in Hl. destruct (n =? 0); [done|].
    destruct (Z.ltb_spec n 0); [lia|done].
Qed.

Lemma process_products_total test_limit w :
  limit_ok test_limit ->
  exists report w',
    Initial.process_products env test_limit w = (inl report, w').
Proof.
  intros Hl. unfold Initial.process_products, bind.
  rewrite load_checkpoint_eq. unfold Initial.query_products.
  rewrite limit_rows_eq.
  destruct (limited test_limit _) as [rows|] eqn:Hrows.
  - match goal with |- context [for_each ?b ?xs ?st ?w0] =>
      destruct (for_each_total b xs st w0) as (os & st' & w1 & Hf);
        [apply product_body_total|rewrite Hf] end.
    simpl. eauto.
  - unfold limited in Hrows. destruct test_limit as [n|]; [|done].
    simpl in Hl. destruct (n =? 0); [done|].
    destruct (Z.ltb_spec n 0); [lia|done].
Qed.

Lemma main_total args w :
  limit_ok (Initial.arg_test args) ->
  exists w',
    Initial.main env args w = (inl tt, w') /\
    last (stdout w') = Some MsgAllDone.
Proof.
  intros Hl. unfold Initial.main, bind.
  destruct (_ || Initial.arg_product args).
  - destruct (process_products_total (Initial.arg_test args) w Hl)
      as (r1 & w1 & ->).
    simpl. destruct (_ || Initial.arg_review args).
    + destruct (process_reviews_total (Initial.arg_test args) w1 Hl)
        as (r2 & w2 & ->).
      simpl. eexists. split; [reflexivity|]. simpl. apply last_snoc.
    + simpl. eexists. split; [reflexivity|]. simpl. apply last_snoc.
  - simpl. destruct (_ || Initial.arg_review args).
    + destruct (process_reviews_total (Initial.arg_test args) w Hl)
        as (r2 & w2 & ->).
      simpl. eexists. split; [reflexivity|]. simpl. apply last_snoc.
    + simpl. eexists. split; [reflexivity|]. simpl. apply last_snoc.
Qed.

(** The recovery driver makes one call of its loop body per pending
    identifier and returns its report. *)
Lemma retry_main_total args w ids :
  Retry.pending env args w = (inl (Some ids), w) ->
  ids <> [] ->
  exists report st' w',
    Retry.main env args w = (inl (Some report), w') /\
    iterates (Retry.retry_body env args) ids (retry_loop_start w) w
             (Retry.outcomes report) st' w' /\
    Retry.n_success report = Retry.success st' /\
    Retry.n_fail report = Retry.failures st'.
Proof.
  intros Hp Hne. unfold Retry.main, bind. rewrite Hp.
  destruct ids as [|i ids]; [done|].
  rewrite load_checkpoint_eq.
  destruct (for_each_total (Retry.retry_body env args) (i :: ids)
              (retry_loop_start w) w) as (os & st' & w' & Hf);
    [apply retry_body_total|].
  unfold retry_loop_start in Hf. rewrite Hf. simpl.
  eexists _, st', w'. split; [reflexivity|]. simpl.
  split; [|done]. by apply for_each_iterates.
Qed.

End Totality.

Section RetryRuns.

Variable env : Env.

Lemma pending_world args w res w1 :
  Retry.pending env args w = (res, w1) -> w1 = w.
Proof.
  unfold Retry.pending, bind. destruct (Retry.from_db args).
  - rewrite load_checkpoint_eq. by intros [= _ <-].
  - unfold Retry.load_failures. destruct (failures_file w); by intros [= _ <-].
Qed.

Lemma pending_result args w res w1 :
  Retry.pending env args w = (res, w1) -> exists p, res = inl p.
Proof.
  unfold Retry.pending, bind. destruct (Retry.from_db args).
  - rewrite load_checkpoint_eq. intros [= <- _]. eauto.
  - unfold Retry.load_failures.
    destruct (failures_file w); intros [= <- _]; eauto.
Qed.


End RetryRuns.

Section RunChains.

Variable env : Env.

Import Initial.

(** A review run that returns is the chain of the calls of [review_body]
    on the rows it read, followed by the two writes and the summary. *)
Lemma process_reviews_chain test_limit w report w' :
  process_reviews env test_limit w = (inl report, w') ->
  exists rows st' w1,
    limited test_limit (review_source env) = Some rows /\
    iterates (review_body env) rows
      (loop_start (reviews (loaded_checkpoint w)) w) w
      (outcomes report) st' w1 /\
    n_success report = success_count st' /\
    n_skip report = skip_count st' /\
    n_fail report = fail_count st' /\
    checkpoint_file w' =
      Some {| products := products (checkpoint st');
              reviews := elements (processed_ids st') |} /\
    failures_file w' =
      match failed_log st' with
      | [] => failures_file w1
      | _ :: _ => Some (failed_log st')
      end /\
    qdrant w' = qdrant w1 /\ embed_sent w' = embed_sent w1 /\
    put_calls w' = put_calls w1 /\
    stdout w' = stdout w1 ++ [MsgReviewSummary (success_count st')
                                (skip_count st') (fail_count st')].
Proof.
  unfold process_reviews, bind. rewrite load_checkpoint_eq.
  unfold query_reviews. fold (review_source env). intros H.
  rewrite limit_rows_eq in H.
  destruct (limited test_limit (review_source env)) as [rows|]; [|discriminate].
  destruct (for_each (review_body env) rows _ w) as [[[os st']|e] w1] eqn:Hloop;
    [|discriminate].
  apply for_each_iterates in Hloop.
  exists rows, st', w1. simpl in H.
  destruct (failed_log st') as [|f fl] eqn:Hlog;
    injection H as <- <-; simpl; rewrite ?Hlog; repeat split; auto.
Qed.

Lemma process_products_chain test_limit w report w' :
  process_products env test_limit w = (inl report, w') ->
  exists rows st' w1,
    limited test_limit (kurly_skin_products env) = Some rows /\
    iterates (product_body env) rows
      (loop_start (products (loaded_checkpoint w)) w) w
      (outcomes report) st' w1 /\
    n_success report = success_count st' /\
    n_skip report = skip_count st' /\
    n_fail report = fail_count st' /\
    checkpoint_file w' =
      Some {| products := elements (processed_ids st');
              reviews := reviews (checkpoint st') |} /\
    failures_file w' = failures_file w1 /\
    qdrant w' = qdrant w1 /\ embed_sent w' = embed_sent w1 /\
    put_calls w' = put_calls w1 /\
    stdout w' = stdout w1 ++ [MsgProductSummary (success_count st')
                                (skip_count st') (fail_count st')].
Proof.
  unfold process_products, bind. rewrite load_checkpoint_eq.
  unfold query_products. intros H.
  rewrite limit_rows_eq in H.
  destruct (limited test_limit (kurly_skin_products env)) as [rows|];
    [|discriminate].
  destruct (for_each (product_body env) rows _ w) as [[[os st']|e] w1] eqn:Hloop;
    [|discriminate].
  apply for_each_iterates in Hloop.
  exists rows, st', w1. simpl in H.
  injection H as <- <-; simpl; repeat split; auto.
Qed.

End RunChains.

(** ** The calls of one iteration *)

Section EmbeddingClient.

Variable env : Env.

Lemma generate_embedding_from_posts n text w r w' :
  Initial.generate_embedding_from env n text w = (r, w') ->
  exists k, (k <= n)%nat /\ (n <> 0%nat -> k <> 0%nat) /\
            w' = posted k text w /\
  (r = inr KeyboardInterrupt \/ (exists e0, r = inl (Some e0, None)) \/
   (exists msg, r = inl (None, Some msg))).
Proof.
  revert w. induction n as [|n IH]; intros w H; simpl in H.
  - injection H as <- <-. exists 0%nat. repeat split; [lia|done| |eauto].
    unfold posted. simpl. rewrite app_nil_r. by destruct w.
  - unfold try_except, bind, post_embed in H.
    assert (Hone : mkWorld (embed_sent w ++ [text]) (put_calls w) (qdrant w)
                     (checkpoint_file w) (failures_file w) (clock_reads w)
                     (stdout w) = posted 1 text w) by reflexivity.
    rewrite Hone in H.
    destruct (ollama env (length (embed_sent w)) text) as [emb|msg|].
    + exists 1%nat.
      destruct emb as [[|e0 l]|]; injection H as <- <-;
        repeat split; try lia; eauto.
    + destruct n.
      * injection H as <- <-. exists 1%nat. repeat split; try lia; eauto.
      * apply IH in H as (k & Hk & _ & -> & Hr).
        exists (S k). repeat split; [lia|lia| |exact Hr].
        unfold posted. simpl. by rewrite <- app_assoc.
    + injection H as <- <-. exists 1%nat. repeat split; try lia; eauto.
Qed.

End EmbeddingClient.

Section Writes.

Variable env : Env.

Import Initial.

(** When the cells of a product parse, its embedding is usable and the
    upsert returns [True], the iteration ends in [SUCCESS] with the point
    stored under the product number, whatever that number is. *)
Lemma product_write_succeeds row st w s d c n r w1 v w2 :
  ProductRow.id row ∉ processed_ids st ->
  product_cells row = Some (s, d, c) ->
  int_of_str (ProductRow.product_no row) = Some n ->
  generate_embedding env (product_text row) w = (inl r, w1) ->
  usable (fst r) = Some v ->
  save_to_qdrant env (product_point_id n) v
    (product_payload row s d c (now env (clock_reads w1))) (ticked w1)
    = (inl true, w2) ->
  exists st' w',
    product_body env row st w = (inl (SUCCESS, st'), w') /\
    qdrant w'
      = <[n := (v, product_payload row s d c (now env (clock_reads w1)))]>
          (qdrant w) /\
    stdout w' = stdout w /\
    processed_ids st' = {[ProductRow.id row]} ∪ processed_ids st.
Proof.
  intros Hin Hcells Hn Hg Hu Hq.
  destruct (commit set_products 10 (ProductRow.id row) st w2)
    as [res w'] eqn:Hc.
  pose proof Hc as Hc'.
  apply commit_spec in Hc' as (st2 & -> & Hp & _ & _ & _ & _ & Hco & _);
    [|by left].
  exists st2, w'. split; [|split; [|split; [|exact Hp]]].
  - apply product_step_body. by eapply PS_success.
  - apply generate_embedding_frame in Hg as (_ & Hq1 & _).
    apply save_to_qdrant_true in Hq as [_ Hq2].
    destruct Hco as (_ & _ & Hq3 & _).
    rewrite Hq3, Hq2. simpl. by rewrite Hq1.
  - apply generate_embedding_frame in Hg as (_ & _ & _ & _ & _ & Ho1).
    apply save_to_qdrant_true in Hq as [(_ & _ & _ & _ & Ho2) _].
    destruct Hco as (_ & _ & _ & _ & _ & Ho3).
    rewrite Ho3, Ho2. simpl. exact Ho1.
Qed.

Lemma review_write_succeeds row st w r w1 v w2 :
  ReviewRow.id row ∉ processed_ids st ->
  strip (ReviewRow.contents row) <> [] ->
  generate_embedding env (strip (ReviewRow.contents row)) w = (inl r, w1) ->
  usable (fst r) = Some v ->
  save_to_qdrant env (review_point_id (ReviewRow.id row)) v
    (review_payload row (now env (clock_reads w1))) (ticked w1)
    = (inl true, w2) ->
  exists st' w',
    review_body env row st w = (inl (SUCCESS, st'), w') /\
    qdrant w'
      = <[review_point_id (ReviewRow.id row)
          := (v, review_payload row (now env (clock_reads w1)))]> (qdrant w) /\
    stdout w' = stdout w /\
    processed_ids st' = {[ReviewRow.id row]} ∪ processed_ids st.
Proof.
  intros Hin Hne Hg Hu Hq.
  destruct (commit set_reviews 50 (ReviewRow.id row) st w2)
    as [res w'] eqn:Hc.
  pose proof Hc as Hc'.
  apply commit_spec in Hc' as (st2 & -> & Hp & _ & _ & _ & _ & Hco & _);
    [|by right].
  exists st2, w'. split; [|split; [|split; [|exact Hp]]].
  - apply review_step_body. by eapply RS_success.
  - apply generate_embedding_frame in Hg as (_ & Hq1 & _).
    apply save_to_qdrant_true in Hq as [_ Hq2].
    destruct Hco as (_ & _ & Hq3 & _).
    rewrite Hq3, Hq2. simpl. by rewrite Hq1.
  - apply generate_embedding_frame in Hg as (_ & _ & _ & _ & _ & Ho1).
    apply save_to_qdrant_true in Hq as [(_ & _ & _ & _ & Ho2) _].
    destruct Hco as (_ & _ & _ & _ & _ & Ho3).
    rewrite Ho3, Ho2. simpl. exact Ho1.
Qed.

End Writes.

Section Processed.

Variable env : Env.

Import Initial.

Lemma review_blank_step row st w :
  ReviewRow.id row ∉ processed_ids st ->
  strip (ReviewRow.contents row) = [] ->
  review_body env row st w = (inl (SKIP_EMPTY, count_skip st), w).
Proof. intros Hin He. apply review_step_body. by constructor. Qed.

(** What [generate_embedding] leaves behind: between one and three POSTs
    of the text. *)
Lemma generate_embedding_sends text w r w1 :
  generate_embedding env text w = (r, w1) ->
  exists k, (1 <= k <= 3)%nat /\ w1 = posted k text w.
Proof.
  intros H. apply generate_embedding_from_posts in H as (k & Hk & Hk0 & -> & _).
  exists k. split; [|done]. assert (k <> 0%nat) by (apply Hk0; discriminate).
  lia.
Qed.

(** A review that is neither in the checkpoint nor blank is sent to the
    embedding service, and the iteration ends in [SUCCESS] exactly when the
    embedding is usable and the upsert returns [True]. *)
Lemma review_processed row st w res w' :
  ReviewRow.id row ∉ processed_ids st ->
  strip (ReviewRow.contents row) <> [] ->
  review_body env row st w = (res, w') ->
  (exists k, (1 <= k <= 3)%nat /\
     embed_sent w'
       = embed_sent w ++ replicate k (strip (ReviewRow.contents row))) /\
  (forall o st',
     res = inl (o, st') ->
     skip_count st' = skip_count st /\
     (o = EMBED_FAIL \/ o = WRITE_FAIL \/ o = SUCCESS) /\
     (o = SUCCESS <-> review_upserted env row w) /\
     (o = SUCCESS ->
      exists v p,
        qdrant w' !! review_point_id (ReviewRow.id row) = Some (v, p))).
Proof.
  intros Hin Hne H. pose proof H as Hb. apply review_body_inv in H.
  assert (Hup : review_upserted env row w ->
                exists st1, res = inl (SUCCESS, st1)).
  { intros (r & w1 & v & w2 & Hg & Hu & Hq).
    destruct (review_write_succeeds env _ st _ _ _ _ _ Hin Hne Hg Hu Hq)
      as (st1 & w1' & Hb' & _).
    rewrite Hb in Hb'. injection Hb' as -> _. eauto. }
  inversion H; subst; clear H; try done;
    match goal with E : generate_embedding _ _ _ = _ |- _ =>
      pose proof (generate_embedding_sends _ _ _ _ E) as (k & Hk & Hw1) end.
  - split; [exists k; by subst|]. intros ? ? [=].
  - split; [exists k; by subst|]. intros ? ? [= <- <-].
    repeat split; auto; try done.
    intros Hu. destruct (Hup Hu) as [? [=]].
  - match goal with E : save_to_qdrant _ _ _ _ _ = _ |- _ =>
      apply save_to_qdrant_false in E as [(He & _) _]; [|discriminate] end.
    split; [exists k; rewrite He; by subst|]. intros ? ? [=].
  - match goal with E : save_to_qdrant _ _ _ _ _ = _ |- _ =>
      apply save_to_qdrant_false in E as [(He & _) _]; [|discriminate] end.
    split; [exists k; rewrite He; by subst|]. intros ? ? [= <- <-].
    repeat split; auto; try done.
    intros Hu. destruct (Hup Hu) as [? [=]].
  - match goal with E : save_to_qdrant _ _ _ _ _ = _ |- _ =>
      pose proof E as Hq;
      apply save_to_qdrant_true in E as [(He & _) Hi] end.
    match goal with E : commit _ _ _ _ _ = _ |- _ =>
      apply commit_spec in E
        as (st2 & -> & _ & _ & Hs & _ & _ & (He' & _ & Hq' & _) & _);
        [|by right] end.
    split; [exists k; rewrite He', He; by subst|]. intros ? ? [= <- <-].
    split; [exact Hs|]. split; [auto|]. split.
    + split; [|done]. intros _. by repeat eexists.
    + intros _. rewrite Hq', Hi. rewrite lookup_insert_eq. eauto.
Qed.

(** The same for a product whose numeric cells parse. *)
Lemma product_processed row st w res w' cells :
  ProductRow.id row ∉ processed_ids st ->
  product_cells row = Some cells ->
  product_body env row st w = (res, w') ->
  (exists k, (1 <= k <= 3)%nat /\
     embed_sent w' = embed_sent w ++ replicate k (product_text row)) /\
  (forall o st',
     res = inl (o, st') ->
     skip_count st' = skip_count st /\
     is_skip o = false /\
     (o = SUCCESS <-> product_upserted env row w) /\
     (o = SUCCESS ->
      exists n v p,
        int_of_str (ProductRow.product_no row) = Some n /\
        qdrant w' !! product_point_id n = Some (v, p))).
Proof.
  intros Hin Hcells H. pose proof H as Hb. apply product_body_inv in H.
  assert (Hup : product_upserted env row w ->
                exists st1, res = inl (SUCCESS, st1)).
  { intros (s & d & c & n & r & w1 & v & w2 & Hc & Hn & Hg & Hu & Hq).
    destruct (product_write_succeeds env _ st _ _ _ _ _ _ _ _ _
                Hin Hc Hn Hg Hu Hq) as (st1 & w1' & Hb' & _).
    rewrite Hb in Hb'. injection Hb' as -> _. eauto. }
  inversion H; subst; clear H; try done; try congruence;
    match goal with E : generate_embedding _ _ _ = _ |- _ =>
      pose proof (generate_embedding_sends _ _ _ _ E) as (k & Hk & Hw1) end.
  - split; [exists k; by subst|]. intros ? ? [=].
  - split; [exists k; by subst|]. intros ? ? [= <- <-].
    repeat split; auto; try done.
    intros Hu. destruct (Hup Hu) as [? [=]].
  - split; [exists k; by subst|]. intros ? ? [= <- <-].
    repeat split; auto; try done.
    intros Hu. destruct (Hup Hu) as [? [=]].
  - match goal with E : save_to_qdrant _ _ _ _ _ = _ |- _ =>
      apply save_to_qdrant_false in E as [(He & _) _]; [|discriminate] end.
    split; [exists k; rewrite He; by subst|]. intros ? ? [=].
  - match goal with E : save_to_qdrant _ _ _ _ _ = _ |- _ =>
      apply save_to_qdrant_false in E as [(He & _) _]; [|discriminate] end.
    split; [exists k; rewrite He; by subst|]. intros ? ? [= <- <-].
    repeat split; auto; try done.
    intros Hu. destruct (Hup Hu) as [? [=]].
  - match goal with E : save_to_qdrant _ _ _ _ _ = _ |- _ =>
      pose proof E as Hq;
      apply save_to_qdrant_true in E as [(He & _) Hi] end.
    match goal with E : commit _ _ _ _ _ = _ |- _ =>
      apply commit_spec in E
        as (st2 & -> & _ & _ & Hs & _ & _ & (He' & _ & Hq' & _) & _);
        [|by left] end.
    split; [exists k; rewrite He', He; by subst|]. intros ? ? [= <- <-].
    split; [exact Hs|]. split; [done|]. split.
    + split; [|done]. intros _. by repeat eexists.
    + intros _. eexists n, _, _. split; [done|].
      rewrite Hq', Hi. by rewrite lookup_insert_eq.
Qed.

End Processed.
(** ** The claims *)

(** C1 (the code departs from the claim): three reviews are embedded and
    written, the fourth call is interrupted. [main] returns normally after
    printing that the checkpoint was saved, yet the checkpoint file was
    never written: the final flush of [process_reviews] comes after the loop
    and is skipped when [KeyboardInterrupt] propagates, and three successes
    are below the flush cadence of 50. *)
Theorem interrupt_skips_final_flush :
  let r := Initial.main Examples.interrupted_at_fourth Examples.only_reviews
                        Examples.fresh in
  fst r = inl tt /\
  stdout (snd r) = [MsgInterruptedCheckpointSaved] /\
  dom (qdrant (snd r)) = {[10000001; 10000002; 10000003]} /\
  checkpoint_file (snd r) = None.
Proof. vm_compute. repeat split; reflexivity. Qed.

(** C2: a product number below 10,000,000 and a non-negative review
    identifier never map to the same point id; within a kind different
    identifiers map to different point ids; and the point id is a function
    of the kind and the identifier alone. *)
Theorem point_id_collision_free (product_no review_id : Z) :
  product_no < 10000000 -> 0 <= review_id ->
  point_id Product product_no <> point_id Review review_id /\
  (forall k i i', point_id k i = point_id k i' -> i = i') /\
  (forall k k' i i', (k, i) = (k', i') -> point_id k i = point_id k' i').
Proof.
  intros Hp Hr. split; [|split].
  - unfold point_id, product_point_id, review_point_id, REVIEW_OFFSET. lia.
  - intros [] i i'; unfold point_id, product_point_id, review_point_id; lia.
  - intros k k' i i' H. injection H as -> ->. reflexivity.
Qed.

(** The largest product number of the range against the smallest review
    identifier. *)
Lemma point_id_collision_free_witness :
  point_id Product 9999999 <> point_id Review 0.
Proof. apply (point_id_collision_free 9999999 0); lia. Defined.

Lemma count_if_Forall2 {A B} (f : A -> bool) (g : B -> bool) xs ys :
  Forall2 (fun x y => f x = g y) xs ys -> count_if f xs = count_if g ys.
Proof. induction 1; simpl; congruence. Qed.

Lemma count_if_or {A} (f g : A -> bool) xs :
  (forall x, f x && g x = false) ->
  count_if (fun x => f x || g x) xs = count_if f xs + count_if g xs.
Proof.
  intros Hd. induction xs as [|x xs IH]; simpl; [done|].
  specialize (Hd x). rewrite IH.
  destruct (f x), (g x); simpl in *; try discriminate; lia.
Qed.

Section Resume.

Variable env : Env.

Import Initial.

Lemma review_resume test_limit w w' report rows :
  limited test_limit (review_source env) = Some rows ->
  NoDup (ReviewRow.id <$> rows) ->
  process_reviews env test_limit w = (inl report, w') ->
  let loaded : gset Z := list_to_set (reviews (loaded_checkpoint w)) in
  Forall2 (fun row o =>
             (o = SKIP <-> ReviewRow.id row ∈ loaded) /\
             (o = SKIP_EMPTY <->
                (ReviewRow.id row ∉ loaded) /\ blank row = true))
          rows (outcomes report) /\
  n_skip report =
    count_if (fun row => in_checkpoint loaded (ReviewRow.id row)) rows
    + count_if (fun row => negb (in_checkpoint loaded (ReviewRow.id row))
                           && blank row) rows.
Proof.
  intros Hrows Hnd Hrun loaded.
  apply process_reviews_inv in Hrun
    as (rows' & st' & w1 & Hrows' & Hsteps & _ & Hskip & _).
  rewrite Hrows in Hrows'. injection Hrows' as <-.
  pose proof (run_skips ReviewRow.id blank _ (review_step_summary env)
                _ _ _ _ _ _ Hnd Hsteps) as Hskips.
  pose proof (run_counts ReviewRow.id blank _ (review_step_summary env)
                _ _ _ _ _ _ Hsteps) as (_ & _ & Hk & _).
  simpl in Hskips, Hk. split; [exact Hskips|].
  rewrite Hskip, Hk, <- count_if_or.
  - symmetry. apply count_if_Forall2.
    eapply Forall2_impl; [exact Hskips|].
    intros row o [Hs He]. unfold in_checkpoint. fold loaded in Hs, He.
    destruct (bool_decide_reflect (ReviewRow.id row ∈ loaded)) as [Hin|Hin];
      simpl.
    + apply Hs in Hin as ->. reflexivity.
    + destruct (blank row) eqn:Hb.
      * assert (o = SKIP_EMPTY) as -> by (apply He; auto). reflexivity.
      * destruct o; try reflexivity.
        -- exfalso. apply Hin, Hs. reflexivity.
        -- exfalso. assert (Hx : SKIP_EMPTY = SKIP_EMPTY) by reflexivity.
           apply He in Hx as [_ Hx]. discriminate.
  - intros row. by destruct (in_checkpoint loaded (ReviewRow.id row)).
Qed.

Lemma product_resume test_limit w w' report rows :
  limited test_limit (kurly_skin_products env) = Some rows ->
  NoDup (ProductRow.id <$> rows) ->
  process_products env test_limit w = (inl report, w') ->
  let loaded : gset Z := list_to_set (products (loaded_checkpoint w)) in
  Forall2 (fun row o => (o = SKIP <-> ProductRow.id row ∈ loaded) /\
                        o <> SKIP_EMPTY)
          rows (outcomes report) /\
  n_skip report =
    count_if (fun row => in_checkpoint loaded (ProductRow.id row)) rows.
Proof.
  intros Hrows Hnd Hrun loaded.
  apply process_products_inv in Hrun
    as (rows' & st' & w1 & Hrows' & Hsteps & _ & Hskip & _).
  rewrite Hrows in Hrows'. injection Hrows' as <-.
  pose proof (run_skips ProductRow.id (fun _ => false) _
                (product_step_summary env) _ _ _ _ _ _ Hnd Hsteps) as Hskips.
  pose proof (run_counts ProductRow.id (fun _ => false) _
                (product_step_summary env) _ _ _ _ _ _ Hsteps)
    as (_ & _ & Hk & _).
  simpl in Hskips, Hk.
  assert (Hskips' :
    Forall2 (fun row o => (o = SKIP <-> ProductRow.id row ∈ loaded) /\
                          o <> SKIP_EMPTY) rows (outcomes report)).
  { eapply Forall2_impl; [exact Hskips|].
    intros row o [Hs He]. split; [exact Hs|].
    intros Ho. apply He in Ho as [_ Ho]. discriminate. }
  split; [exact Hskips'|].
  rewrite Hskip, Hk. symmetry. apply count_if_Forall2.
  eapply Forall2_impl; [exact Hskips'|].
  intros row o [Hs He]. unfold in_checkpoint.
  destruct (bool_decide_reflect (ProductRow.id row ∈ loaded)) as [Hin|Hin].
  - apply Hs in Hin as ->. reflexivity.
  - destruct o; try reflexivity.
    + exfalso. apply Hin, Hs. reflexivity.
    + by destruct He.
Qed.

Lemma review_skip_step row st w :
  ReviewRow.id row ∈ processed_ids st ->
  review_body env row st w = (inl (SKIP, count_skip st), w).
Proof.
  intros Hin. unfold review_body.
  by destruct (decide (ReviewRow.id row ∈ processed_ids st)).
Qed.

Lemma product_skip_step row st w :
  ProductRow.id row ∈ processed_ids st ->
  product_body env row st w = (inl (SKIP, count_skip st), w).
Proof.
  intros Hin. unfold product_body.
  by destruct (decide (ProductRow.id row ∈ processed_ids st)).
Qed.

End Resume.

(** C6, as amended: an iteration whose row is in the set of done
    identifiers ends in [SKIP] and changes nothing but the skip counter; a
    review outside the set whose stripped contents are empty is skipped as
    well, without any call. Every other row is processed: its text is sent
    to the embedding service (for a product, once its numeric cells have
    parsed), the skip counter stays, and the iteration ends in [SUCCESS]
    exactly when the embedding is usable and the upsert returns [True], with
    the point in the index. A completed run is the chain of these iterations
    from the set loaded from the checkpoint; over a source with distinct
    identifiers it skips at the checkpoint test exactly the rows of the
    loaded set, and its skip count is their number plus, for reviews, the
    number of the remaining rows with empty contents. *)
Theorem resume_skips_checkpointed (env : Env) :
  (forall row st w,
     ReviewRow.id row ∈ Initial.processed_ids st ->
     Initial.review_body env row st w
       = (inl (Initial.SKIP, Initial.count_skip st), w)) /\
  (forall row st w,
     ProductRow.id row ∈ Initial.processed_ids st ->
     Initial.product_body env row st w
       = (inl (Initial.SKIP, Initial.count_skip st), w)) /\
  (forall row st w,
     ReviewRow.id row ∉ Initial.processed_ids st ->
     strip (ReviewRow.contents row) = [] ->
     Initial.review_body env row st w
       = (inl (Initial.SKIP_EMPTY, Initial.count_skip st), w)) /\
  (forall row st w res w',
     ReviewRow.id row ∉ Initial.processed_ids st ->
     strip (ReviewRow.contents row) <> [] ->
     Initial.review_body env row st w = (res, w') ->
     (exists k, (1 <= k <= 3)%nat /\
        embed_sent w'
          = embed_sent w ++ replicate k (strip (ReviewRow.contents row))) /\
     (forall o st',
        res = inl (o, st') ->
        Initial.skip_count st' = Initial.skip_count st /\
        (o = Initial.EMBED_FAIL \/ o = Initial.WRITE_FAIL \/
         o = Initial.SUCCESS) /\
        (o = Initial.SUCCESS <-> review_upserted env row w) /\
        (o = Initial.SUCCESS ->
         exists v p,
           qdrant w' !! review_point_id (ReviewRow.id row) = Some (v, p)))) /\
  (forall row st w res w' cells,
     ProductRow.id row ∉ Initial.processed_ids st ->
     product_cells row = Some cells ->
     Initial.product_body env row st w = (res, w') ->
     (exists k, (1 <= k <= 3)%nat /\
        embed_sent w' = embed_sent w ++ replicate k (Initial.product_text row)) /\
     (forall o st',
        res = inl (o, st') ->
        Initial.skip_count st' = Initial.skip_count st /\
        is_skip o = false /\
        (o = Initial.SUCCESS <-> product_upserted env row w) /\
        (o = Initial.SUCCESS ->
         exists n v p,
           int_of_str (ProductRow.product_no row) = Some n /\
           qdrant w' !! product_point_id n = Some (v, p)))) /\
  (forall test_limit w report w',
     Initial.process_reviews env test_limit w = (inl report, w') ->
     exists rows st' w1,
       limited test_limit (review_source env) = Some rows /\
       iterates (Initial.review_body env) rows
         (loop_start (reviews (loaded_checkpoint w)) w) w
         (Initial.outcomes report) st' w1 /\
       Initial.n_skip report = Initial.skip_count st' /\
       (NoDup (ReviewRow.id <$> rows) ->
        let loaded : gset Z := list_to_set (reviews (loaded_checkpoint w)) in
        Forall2 (fun row o =>
                   (o = Initial.SKIP <-> ReviewRow.id row ∈ loaded) /\
                   (o = Initial.SKIP_EMPTY <->
                      (ReviewRow.id row ∉ loaded) /\ blank row = true))
                rows (Initial.outcomes report) /\
        Initial.n_skip report =
          count_if (fun row => in_checkpoint loaded (ReviewRow.id row)) rows
          + count_if (fun row =>
                        negb (in_checkpoint loaded (ReviewRow.id row))
                        && blank row) rows)) /\
  (forall test_limit w report w',
     Initial.process_products env test_limit w = (inl report, w') ->
     exists rows st' w1,
       limited test_limit (kurly_skin_products env) = Some rows /\
       iterates (Initial.product_body env) rows
         (loop_start (products (loaded_checkpoint w)) w) w
         (Initial.outcomes report) st' w1 /\
       Initial.n_skip report = Initial.skip_count st' /\
       (NoDup (ProductRow.id <$> rows) ->
        let loaded : gset Z := list_to_set (products (loaded_checkpoint w)) in
        Forall2 (fun row o =>
                   (o = Initial.SKIP <-> ProductRow.id row ∈ loaded) /\
                   o <> Initial.SKIP_EMPTY)
                rows (Initial.outcomes report) /\
        Initial.n_skip report =
          count_if (fun row => in_checkpoint loaded (ProductRow.id row))
                   rows)).
Proof.
  split; [apply review_skip_step|]. split; [apply product_skip_step|].
  split; [apply review_blank_step|]. split; [apply review_processed|].
  split; [apply product_processed|]. split.
  - intros test_limit w report w' Hr. pose proof Hr as Hr'.
    apply process_reviews_chain in Hr
      as (rows & st' & w1 & Hrows & Hch & _ & Hn & _).
    exists rows, st', w1. split; [done|]. split; [done|]. split; [done|].
    intros Hnd. by eapply review_resume.
  - intros test_limit w report w' Hr. pose proof Hr as Hr'.
    apply process_products_chain in Hr
      as (rows & st' & w1 & Hrows & Hch & _ & Hn & _).
    exists rows, st', w1. split; [done|]. split; [done|]. split; [done|].
    intros Hnd. by eapply product_resume.
Qed.

(** The example of the specification: reviews 1, 2 and 3 are in the
    checkpoint and the source yields 1 to 5. Review 4 is sent to the
    embedding service once, and the run skips three rows. *)
Lemma resume_skips_checkpointed_witness :
  (exists k, (1 <= k <= 3)%nat /\
     embed_sent
       (snd (Initial.review_body Examples.resumed
               (Examples.review 4 [Examples.ascii_a])
               (loop_start [1; 2; 3] Examples.three_done) Examples.three_done))
     = embed_sent Examples.three_done
         ++ replicate k
              (strip (ReviewRow.contents
                        (Examples.review 4 [Examples.ascii_a])))) /\
  Initial.n_skip (Examples.report_of Examples.no_report Examples.resumed_reviews)
    = 3 /\
  Initial.outcomes
    (Examples.report_of Examples.no_report Examples.resumed_reviews)
    = [Initial.SKIP; Initial.SKIP; Initial.SKIP;
       Initial.SUCCESS; Initial.SUCCESS].
Proof.
  split; [|split].
  - refine (proj1 (proj1 (proj2 (proj2 (proj2
      (resume_skips_checkpointed Examples.resumed))))
      (Examples.review 4 [Examples.ascii_a])
      (loop_start [1; 2; 3] Examples.three_done) Examples.three_done
      (fst (Initial.review_body Examples.resumed
              (Examples.review 4 [Examples.ascii_a])
              (loop_start [1; 2; 3] Examples.three_done) Examples.three_done))
      _ _ _ _)).
    + vm_compute. set_solver.
    + vm_compute. discriminate.
    + vm_compute. reflexivity.
  - destruct (proj1 (proj2 (proj2 (proj2 (proj2 (proj2
      (resume_skips_checkpointed Examples.resumed))))))
      None Examples.three_done
      (Examples.report_of Examples.no_report Examples.resumed_reviews)
      (snd Examples.resumed_reviews))
      as (rows & st' & w1 & Hrows & _ & _ & Hskips);
      [vm_compute; reflexivity|].
    injection Hrows as <-.
    destruct Hskips as [_ ->];
      [apply (bool_decide_unpack _); vm_compute; exact I|].
    vm_compute. reflexivity.
  - vm_compute. reflexivity.
Defined.

(** C6 as stated fails: the checkpoint is empty and the source yields review
    1, whose contents are blank. The review is not in the checkpoint, yet
    nothing is sent to the embedding service, and the run reports one skip
    although no source identifier is in the checkpoint. *)
Lemma blank_review_is_skipped :
  let r := Initial.process_reviews Examples.blank_review None Examples.fresh in
  reviews (loaded_checkpoint Examples.fresh) = [] /\
  ReviewRow.id <$> review_source Examples.blank_review = [1] /\
  fst r = inl (Initial.mkReport 0 1 0 [Initial.SKIP_EMPTY]) /\
  embed_sent (snd r) = [].
Proof. vm_compute. repeat split; reflexivity. Qed.

Section ProductWrites.

Variable env : Env.

Import Initial.

(** A product iteration that ends in [SUCCESS] parsed the three numeric
    cells and the product number, and left the point, with the payload built
    from them, under the product number. *)
Lemma product_success_inv row st w st' w' :
  product_body env row st w = (inl (SUCCESS, st'), w') ->
  exists s d c n v r w1 w2,
    product_cells row = Some (s, d, c) /\
    int_of_str (ProductRow.product_no row) = Some n /\
    generate_embedding env (product_text row) w = (inl r, w1) /\
    usable (fst r) = Some v /\
    save_to_qdrant env (product_point_id n) v
      (product_payload row s d c (now env (clock_reads w1))) (ticked w1)
      = (inl true, w2) /\
    qdrant w' !! product_point_id n
      = Some (v, product_payload row s d c (now env (clock_reads w1))) /\
    processed_ids st' = {[ProductRow.id row]} ∪ processed_ids st.
Proof.
  intros H. apply product_body_inv in H. inversion H; subst; clear H.
  match goal with E : commit _ _ _ _ _ = _ |- _ =>
    apply commit_spec in E as (st2 & E2 & Hp & _ & _ & _ & _ & Hw & _);
      [|by left] end.
  injection E2 as <-.
  match goal with E : save_to_qdrant _ _ _ _ _ = _ |- _ =>
    pose proof (save_to_qdrant_true _ _ _ _ _ _ E) as [_ Hq] end.
  destruct Hw as (_ & _ & Hq' & _).
  do 8 eexists. repeat split; eauto.
  rewrite Hq', Hq. apply lookup_insert_eq.
Qed.

End ProductWrites.

(** C10: the point of a successfully written product carries
    [price = discounted_price] when the discounted price is positive and
    [price = sales_price] otherwise, and [has_discount] is true exactly when
    [0 < discounted_price < sales_price]; the two prices are the values of
    the row's cells, 0 for an empty cell. *)
Theorem product_price_fields (env : Env) (row : ProductRow.t)
    (st st' : Initial.Loop) (w w' : World) :
  Initial.product_body env row st w = (inl (Initial.SUCCESS, st'), w') ->
  exists n v p s d,
    int_of_str (ProductRow.product_no row) = Some n /\
    qdrant w' !! product_point_id n = Some (v, PayloadProduct p) /\
    Initial.cell_int 0 (ProductRow.sales_price row) = Some s /\
    Initial.cell_int 0 (ProductRow.discounted_price row) = Some d /\
    ProductPayload.sales_price p = s /\
    ProductPayload.discounted_price p = d /\
    ProductPayload.price p = (if 0 <? d then d else s) /\
    (ProductPayload.has_discount p = true <-> 0 < d /\ d < s).
Proof.
  intros H.
  apply product_success_inv in H
    as (s & d & c & n & v & r & w1 & w2 & Hc & Hn & _ & _ & _ & Hq & _).
  unfold product_cells in Hc.
  destruct (Initial.cell_int 0 (ProductRow.sales_price row)) as [s0|];
    [|discriminate].
  destruct (Initial.cell_int 0 (ProductRow.discounted_price row)) as [d0|];
    [|discriminate].
  destruct (Initial.cell_int 0 (ProductRow.review_count row)) as [c0|];
    [|discriminate].
  injection Hc as -> -> ->.
  eexists n, v, _, s, d. split; [exact Hn|]. split; [exact Hq|].
  simpl. do 5 (split; [reflexivity|]).
  rewrite andb_true_iff, Z.ltb_lt, Z.ltb_lt. reflexivity.
Qed.

(** A product with sales price 12000 and discounted price 9000. *)
Lemma product_price_fields_witness :
  exists n v p s d,
    int_of_str (ProductRow.product_no Examples.big_product) = Some n /\
    qdrant (snd (Examples.first_product Examples.big_product))
      !! product_point_id n = Some (v, PayloadProduct p) /\
    Initial.cell_int 0 (ProductRow.sales_price Examples.big_product) = Some s /\
    Initial.cell_int 0 (ProductRow.discounted_price Examples.big_product)
      = Some d /\
    ProductPayload.sales_price p = s /\
    ProductPayload.discounted_price p = d /\
    ProductPayload.price p = (if 0 <? d then d else s) /\
    (ProductPayload.has_discount p = true <-> 0 < d /\ d < s).
Proof.
  apply (product_price_fields (Examples.healthy [Examples.big_product] [])
           Examples.big_product (loop_start [] Examples.fresh)
           (snd (Examples.report_of (Initial.ERROR, loop_start [] Examples.fresh)
                   (Examples.first_product Examples.big_product)))
           Examples.fresh).
  vm_compute. reflexivity.
Defined.

(** C5, as amended: the program has no check of the identifier ranges.
    Whatever number a product number parses to, a product whose embedding is
    usable and whose upsert is accepted is stored under that number and the
    iteration ends in [SUCCESS] without printing anything; a review is
    stored in the same way under 10,000,000 plus its identifier. A product
    number from 10,000,000 on is the point id of a review, and the point
    that was stored there is replaced. [main] itself, when no call is
    interrupted and the row limit is not negative, runs to its last message
    whatever the tables hold. *)
Theorem product_point_id_unchecked (env : Env) :
  (forall row st w s d c n r w1 v w2,
     ProductRow.id row ∉ Initial.processed_ids st ->
     product_cells row = Some (s, d, c) ->
     int_of_str (ProductRow.product_no row) = Some n ->
     Initial.generate_embedding env (Initial.product_text row) w
       = (inl r, w1) ->
     Initial.usable (fst r) = Some v ->
     save_to_qdrant env (product_point_id n) v
       (Initial.product_payload row s d c (now env (clock_reads w1)))
       (ticked w1) = (inl true, w2) ->
     exists st' w',
       Initial.product_body env row st w = (inl (Initial.SUCCESS, st'), w') /\
       qdrant w'
         = <[n := (v, Initial.product_payload row s d c
                        (now env (clock_reads w1)))]> (qdrant w) /\
       stdout w' = stdout w /\
       (forall i,
          n = point_id Review i ->
          qdrant w' !! point_id Review i
            = Some (v, Initial.product_payload row s d c
                         (now env (clock_reads w1))))) /\
  (forall row st w r w1 v w2,
     ReviewRow.id row ∉ Initial.processed_ids st ->
     strip (ReviewRow.contents row) <> [] ->
     Initial.generate_embedding env (strip (ReviewRow.contents row)) w
       = (inl r, w1) ->
     Initial.usable (fst r) = Some v ->
     save_to_qdrant env (review_point_id (ReviewRow.id row)) v
       (Initial.review_payload row (now env (clock_reads w1))) (ticked w1)
       = (inl true, w2) ->
     exists st' w',
       Initial.review_body env row st w = (inl (Initial.SUCCESS, st'), w') /\
       qdrant w'
         = <[point_id Review (ReviewRow.id row)
             := (v, Initial.review_payload row (now env (clock_reads w1)))]>
             (qdrant w) /\
       stdout w' = stdout w) /\
  (forall n,
     10000000 <= n ->
     0 <= n - 10000000 /\ n = point_id Review (n - 10000000)) /\
  (never_interrupts env ->
   forall args w,
     limit_ok (Initial.arg_test args) ->
     exists w',
       Initial.main env args w = (inl tt, w') /\
       last (stdout w') = Some MsgAllDone).
Proof.
  split; [|split; [|split]].
  - intros row st w s d c n r w1 v w2 Hin Hc Hn Hg Hu Hq.
    destruct (product_write_succeeds env _ _ _ _ _ _ _ _ _ _ _
                Hin Hc Hn Hg Hu Hq) as (st' & w' & Hb & Hi & Ho & _).
    exists st', w'. repeat split; try done.
    intros i <-. rewrite Hi. apply lookup_insert_eq.
  - intros row st w r w1 v w2 Hin Hne Hg Hu Hq.
    destruct (review_write_succeeds env _ _ _ _ _ _ _ Hin Hne Hg Hu Hq)
      as (st' & w' & Hb & Hi & Ho & _).
    exists st', w'. repeat split; done.
  - intros n Hn. unfold point_id, review_point_id, REVIEW_OFFSET. lia.
  - intros Hq args w Hl. by apply main_total.
Qed.

(** The product numbered 10,000,005, processed when the index already holds
    review 5: the iteration succeeds and the point of review 5 now carries
    the product. *)
Lemma product_point_id_unchecked_witness :
  exists st' w',
    Cases.product_after_review = (inl (Initial.SUCCESS, st'), w') /\
    qdrant w'
      = <[10000005
          := (Examples.some_vector,
              Initial.product_payload Examples.big_product 12000 9000 0 [])]>
          (qdrant Cases.review_5_indexed) /\
    stdout w' = stdout Cases.review_5_indexed /\
    (forall i,
       10000005 = point_id Review i ->
       qdrant w' !! point_id Review i
         = Some (Examples.some_vector,
                 Initial.product_payload Examples.big_product 12000 9000 0 [])).
Proof.
  apply (proj1 (product_point_id_unchecked Examples.overlapping)
           Examples.big_product (loop_start [] Examples.fresh)
           Cases.review_5_indexed 12000 9000 0 10000005
           (Some Examples.some_vector, None)
           (snd (Initial.generate_embedding Examples.overlapping
                   (Initial.product_text Examples.big_product)
                   Cases.review_5_indexed))
           Examples.some_vector
           (snd (save_to_qdrant Examples.overlapping 10000005
                   Examples.some_vector
                   (Initial.product_payload Examples.big_product 12000 9000 0
                      [])
                   (ticked
                      (snd (Initial.generate_embedding Examples.overlapping
                              (Initial.product_text Examples.big_product)
                              Cases.review_5_indexed)))))).
  - vm_compute. set_solver.
  - vm_compute. reflexivity.
  - vm_compute. reflexivity.
  - vm_compute. reflexivity.
  - vm_compute. reflexivity.
  - vm_compute. reflexivity.
Defined.

(** C5 as stated fails: with a product numbered 10,000,005 and a review
    with identifier 5 in the source, [main --all] runs to the end without
    complaint. Both items are counted as successes and both are in the
    checkpoint, but the index holds a single point, 10,000,005, and it is
    the review: the product's point was overwritten. *)
Lemma no_startup_range_check :
  let r := Initial.main Examples.overlapping Examples.everything
                        Examples.fresh in
  int_of_str (ProductRow.product_no Examples.big_product) = Some 10000005 /\
  fst r = inl tt /\
  stdout (snd r)
    = [MsgProductSummary 1 0 0; MsgReviewSummary 1 0 0; MsgAllDone] /\
  checkpoint_file (snd r) = Some {| products := [1]; reviews := [5] |} /\
  dom (qdrant (snd r)) = {[10000005]} /\
  (exists v p, qdrant (snd r) !! 10000005 = Some (v, PayloadReview p)).
Proof.
  vm_compute. repeat split; try reflexivity. do 2 eexists. reflexivity.
Qed.

Section Ledger.

Variable env : Env.

Import Initial.

Lemma review_step_log row st w o st' w' :
  review_step env row st w (inl (o, st')) w' ->
  Failure.review_id <$> failed_log st' =
  (Failure.review_id <$> failed_log st)
    ++ (if is_embed_fail o then [Some (ReviewRow.id row)] else []).
Proof.
  intros H. inversion H; subst; clear H; simpl; rewrite ?app_nil_r; try done.
  - by rewrite fmap_app.
  - match goal with E : commit _ _ _ _ _ = _ |- _ =>
      apply commit_spec in E as (st2 & E2 & _ & _ & _ & _ & Hl & _);
        [|by right] end.
    injection E2 as -> ->. simpl. by rewrite Hl, app_nil_r.
Qed.

(** The log gains one entry per embedding failure, in source order, and
    nothing else. *)
Lemma run_log rows st w os st' w' :
  run_steps (review_step env) rows st w os st' w' ->
  Failure.review_id <$> failed_log st' =
  (Failure.review_id <$> failed_log st)
    ++ (Some <$> ids_ending is_embed_fail (ReviewRow.id <$> rows) os).
Proof.
  induction 1 as [st w|x xs st w o st1 w1 os st' w' Hs _ IH].
  - simpl. by rewrite app_nil_r.
  - apply review_step_log in Hs. rewrite IH, Hs. simpl.
    destruct (is_embed_fail o); simpl; by rewrite <- app_assoc.
Qed.

End Ledger.

Section LedgerSteps.

Variable env : Env.

Import Initial.

(** The branch of [review_body] that logs: the embedding call returned no
    usable vector. *)
Lemma review_embed_fail row st w e w1 :
  ReviewRow.id row ∉ processed_ids st ->
  strip (ReviewRow.contents row) <> [] ->
  embedding_fails env (strip (ReviewRow.contents row)) w e w1 ->
  review_body env row st w
  = (inl (EMBED_FAIL, log_failure (failure_entry row e) (count_fail st)), w1).
Proof.
  intros Hin Hne (r & Hg & Hu & <-).
  apply review_step_body. by eapply RS_embed_fail.
Qed.

Lemma review_logs_only_embed_fail row st w o st' w' :
  review_body env row st w = (inl (o, st'), w') ->
  failures_file w' = failures_file w /\
  (o = EMBED_FAIL ->
   exists e,
     embedding_fails env (strip (ReviewRow.contents row)) w e w' /\
     st' = log_failure (failure_entry row e) (count_fail st)) /\
  (o <> EMBED_FAIL -> failed_log st' = failed_log st) /\
  (o = WRITE_FAIL -> st' = count_fail st).
Proof.
  intros H. apply review_body_inv in H.
  pose proof (review_step_summary env _ _ _ _ _ _ H) as (Hf & _).
  split; [exact Hf|].
  inversion H; subst; clear H; try (repeat split; done).
  - repeat split; try done. intros _. eexists. split; [|reflexivity].
    eexists. eauto.
  - match goal with E : commit _ _ _ _ _ = _ |- _ =>
      apply commit_spec in E as (st2 & E2 & _ & _ & _ & _ & Hl & _);
        [|by right] end.
    injection E2 as -> ->. repeat split; done.
Qed.

Lemma product_never_logs row st w o st' w' :
  product_body env row st w = (inl (o, st'), w') ->
  failed_log st' = failed_log st /\
  failures_file w' = failures_file w /\
  (is_fail o = true -> st' = count_fail st).
Proof.
  intros H. apply product_body_inv in H.
  pose proof (product_step_summary env _ _ _ _ _ _ H) as (Hf & _).
  inversion H; subst; clear H; try (repeat split; done).
  match goal with E : commit _ _ _ _ _ = _ |- _ =>
    apply commit_spec in E as (st2 & E2 & _ & _ & _ & _ & Hl & _);
      [|by left] end.
  injection E2 as -> ->. repeat split; done.
Qed.

End LedgerSteps.

(** C3, as amended: an iteration of the review loop whose embedding call
    returns no usable vector ends in the branch that appends the review to
    the failure log, and no other branch of either loop appends anything: a
    failed index write and every product failure only add one to the fail
    counter. A review run that completes is the chain of these iterations
    over the rows it read; it writes the ledger file with the log, which
    lists the reviews whose embedding failed in source order, and leaves the
    file as it was when the log is empty. A product run never writes the
    ledger. *)
Theorem embed_failures_reach_ledger (env : Env) :
  (forall row st w e w1,
     ReviewRow.id row ∉ Initial.processed_ids st ->
     strip (ReviewRow.contents row) <> [] ->
     embedding_fails env (strip (ReviewRow.contents row)) w e w1 ->
     Initial.review_body env row st w
     = (inl (Initial.EMBED_FAIL,
             Initial.log_failure (Initial.failure_entry row e)
                                 (Initial.count_fail st)), w1)) /\
  (forall row st w o st' w',
     Initial.review_body env row st w = (inl (o, st'), w') ->
     failures_file w' = failures_file w /\
     (o = Initial.EMBED_FAIL ->
      exists e,
        embedding_fails env (strip (ReviewRow.contents row)) w e w' /\
        st' = Initial.log_failure (Initial.failure_entry row e)
                                  (Initial.count_fail st)) /\
     (o <> Initial.EMBED_FAIL ->
      Initial.failed_log st' = Initial.failed_log st) /\
     (o = Initial.WRITE_FAIL -> st' = Initial.count_fail st)) /\
  (forall row st w o st' w',
     Initial.product_body env row st w = (inl (o, st'), w') ->
     Initial.failed_log st' = Initial.failed_log st /\
     failures_file w' = failures_file w /\
     (is_fail o = true -> st' = Initial.count_fail st)) /\
  (forall test_limit w report w',
     Initial.process_reviews env test_limit w = (inl report, w') ->
     exists rows st' w1,
       limited test_limit (review_source env) = Some rows /\
       iterates (Initial.review_body env) rows
         (loop_start (reviews (loaded_checkpoint w)) w) w
         (Initial.outcomes report) st' w1 /\
       Failure.review_id <$> Initial.failed_log st'
         = Some <$> ids_ending is_embed_fail (ReviewRow.id <$> rows)
                               (Initial.outcomes report) /\
       failures_file w'
         = match Initial.failed_log st' with
           | [] => failures_file w
           | _ :: _ => Some (Initial.failed_log st')
           end /\
       Initial.n_fail report = count_if is_fail (Initial.outcomes report)) /\
  (forall test_limit w report w',
     Initial.process_products env test_limit w = (inl report, w') ->
     failures_file w' = failures_file w /\
     Initial.n_fail report = count_if is_fail (Initial.outcomes report)).
Proof.
  split; [apply review_embed_fail|].
  split; [apply review_logs_only_embed_fail|].
  split; [apply product_never_logs|]. split.
  - intros test_limit w report w' Hr.
    apply process_reviews_chain in Hr
      as (rows & st' & w1 & Hrows & Hch & _ & _ & Hn & _ & Hfile & _).
    pose proof (iterates_steps _ _ _ _ _ _ _ _ (review_body_inv env) Hch)
      as Hsteps.
    pose proof (run_log env _ _ _ _ _ _ Hsteps) as Hlog. simpl in Hlog.
    pose proof (run_counts ReviewRow.id blank _ (review_step_summary env)
                  _ _ _ _ _ _ Hsteps) as (Hf1 & _ & _ & Hfc & _).
    exists rows, st', w1. repeat split; try done.
    + rewrite Hfile. destruct (Initial.failed_log st'); [exact Hf1|done].
    + rewrite Hn, Hfc. simpl. lia.
  - intros test_limit w report w' Hp.
    apply process_products_inv in Hp
      as (prows & pst & pw1 & _ & Hpsteps & _ & _ & Hn & _ & Hpfile & _).
    pose proof (run_counts ProductRow.id (fun _ => false) _
                  (product_step_summary env) _ _ _ _ _ _ Hpsteps)
      as (Hf2 & _ & _ & Hfc & _).
    split; [congruence|]. rewrite Hn, Hfc. simpl. lia.
Qed.

(** Ollama is down while two products and two reviews are processed: the
    iteration of review 1 logs it after three failed calls, the ledger lists
    reviews 1 and 2, and the product run leaves no ledger. *)
Lemma embed_failures_reach_ledger_witness :
  Initial.review_body Examples.embedding_outage
    (Examples.review 1 [Examples.ascii_a]) (loop_start [] Examples.fresh)
    Examples.fresh
  = (inl (Initial.EMBED_FAIL,
          Initial.log_failure
            (Initial.failure_entry (Examples.review 1 [Examples.ascii_a])
                                   (Some []))
            (Initial.count_fail (loop_start [] Examples.fresh))),
     posted 3 [Examples.ascii_a] Examples.fresh) /\
  (exists rows st' w1,
     limited None (review_source Examples.embedding_outage) = Some rows /\
     iterates (Initial.review_body Examples.embedding_outage) rows
       (loop_start (reviews (loaded_checkpoint Examples.fresh)) Examples.fresh)
       Examples.fresh
       (Initial.outcomes
          (Examples.report_of Examples.no_report Examples.outage_reviews))
       st' w1 /\
     Failure.review_id <$> Initial.failed_log st'
       = Some <$> ids_ending is_embed_fail (ReviewRow.id <$> rows)
                    (Initial.outcomes
                       (Examples.report_of Examples.no_report
                          Examples.outage_reviews)) /\
     failures_file (snd Examples.outage_reviews)
       = match Initial.failed_log st' with
         | [] => failures_file Examples.fresh
         | _ :: _ => Some (Initial.failed_log st')
         end /\
     Initial.n_fail
       (Examples.report_of Examples.no_report Examples.outage_reviews)
     = count_if is_fail
         (Initial.outcomes
            (Examples.report_of Examples.no_report Examples.outage_reviews))) /\
  failures_file (snd Examples.outage_products) = failures_file Examples.fresh.
Proof.
  split; [|split].
  - apply (proj1 (embed_failures_reach_ledger Examples.embedding_outage)).
    + vm_compute. set_solver.
    + vm_compute. discriminate.
    + exists (None, Some []). vm_compute. repeat split; reflexivity.
  - apply (proj1 (proj2 (proj2 (proj2
             (embed_failures_reach_ledger Examples.embedding_outage))))
             None Examples.fresh).
    vm_compute. reflexivity.
  - apply (proj2 (proj2 (proj2 (proj2
             (embed_failures_reach_ledger Examples.embedding_outage))))
             None Examples.fresh
             (Examples.report_of Examples.no_report Examples.outage_products)).
    vm_compute. reflexivity.
Defined.

(** C3 as stated fails: Qdrant refuses every write of the only review, the
    run counts one failure and writes no ledger; Ollama fails on both
    products, the run counts two failures and writes no ledger. *)
Lemma counted_failures_without_ledger :
  let r := Initial.process_reviews
             (Examples.qdrant_down [Examples.review 1 [Examples.ascii_a]])
             None Examples.fresh in
  let p := Examples.outage_products in
  fst r = inl (Initial.mkReport 0 0 1 [Initial.WRITE_FAIL]) /\
  failures_file (snd r) = None /\
  fst p = inl (Initial.mkReport 0 0 2 [Initial.EMBED_FAIL; Initial.EMBED_FAIL]) /\
  failures_file (snd p) = None.
Proof. vm_compute. repeat split; reflexivity. Qed.

Section Growth.

Variable env : Env.

Lemma review_growth row st w o st' w' :
  Initial.review_body env row st w = (inl (o, st'), w') ->
  Initial.processed_ids st ⊆ Initial.processed_ids st' /\
  (o <> Initial.SUCCESS ->
   Initial.processed_ids st' = Initial.processed_ids st) /\
  (o = Initial.SUCCESS ->
   Initial.processed_ids st'
     = {[ReviewRow.id row]} ∪ Initial.processed_ids st /\
   review_upserted env row w).
Proof.
  intros H. apply review_body_inv in H.
  pose proof (review_step_summary env _ _ _ _ _ _ H)
    as (_ & _ & _ & _ & _ & Hp & _).
  split; [|split].
  - rewrite Hp. destruct (is_success o); set_solver.
  - intros Ho. rewrite Hp. by destruct o.
  - intros ->. split; [exact Hp|].
    inversion H; subst; clear H. unfold review_upserted. eauto 10.
Qed.

Lemma product_growth row st w o st' w' :
  Initial.product_body env row st w = (inl (o, st'), w') ->
  Initial.processed_ids st ⊆ Initial.processed_ids st' /\
  (o <> Initial.SUCCESS ->
   Initial.processed_ids st' = Initial.processed_ids st) /\
  (o = Initial.SUCCESS ->
   Initial.processed_ids st'
     = {[ProductRow.id row]} ∪ Initial.processed_ids st /\
   product_upserted env row w).
Proof.
  intros H. apply product_body_inv in H.
  pose proof (product_step_summary env _ _ _ _ _ _ H)
    as (_ & _ & _ & _ & _ & Hp & _).
  split; [|split].
  - rewrite Hp. destruct (is_success o); set_solver.
  - intros Ho. rewrite Hp. by destruct o.
  - intros ->. split; [exact Hp|].
    inversion H; subst; clear H. unfold product_upserted. eauto 15.
Qed.

Lemma choose_vector_inv args v0 v fb :
  Retry.choose_vector args v0 = Some (v, fb) ->
  (fb = false -> Initial.usable v0 = Some v) /\
  (fb = true ->
   Initial.usable v0 = None /\ Retry.fallback args = true /\
   v = Retry.FALLBACK_VECTOR).
Proof.
  unfold Retry.choose_vector.
  destruct (Initial.usable v0) as [u|].
  - intros [= <- <-]. split; [done|discriminate].
  - destruct (Retry.fallback args); [|discriminate].
    intros [= <- <-]. split; [discriminate|done].
Qed.

Lemma retry_growth args i st w o st' w' :
  Retry.retry_body env args i st w = (inl (o, st'), w') ->
  Retry.processed st ⊆ Retry.processed st' /\
  ((forall fb, o <> Retry.SAVED fb) ->
   Retry.processed st' = Retry.processed st) /\
  (forall fb, o = Retry.SAVED fb ->
   Retry.processed st' = {[i]} ∪ Retry.processed st /\
   retry_upserted env args i fb w).
Proof.
  intros H. apply retry_body_inv in H.
  inversion H; subst; clear H; simpl;
    try (split; [set_solver|split; [done|discriminate]]).
  split; [set_solver|split].
  - intros Hn. by destruct (Hn use_fallback).
  - intros fb [= <-]. split; [done|].
    match goal with E : Retry.choose_vector _ _ = _ |- _ =>
      apply choose_vector_inv in E as [? ?] end.
    unfold retry_upserted. eauto 10.
Qed.

(** Over a whole loop the set only grows. *)
Lemma loop_growth {R S O} (body : R -> S -> M (O * S)) (ids : S -> gset Z)
    xs st w os st' w' :
  (forall x s0 w0 o s1 w1,
     body x s0 w0 = (inl (o, s1), w1) -> ids s0 ⊆ ids s1) ->
  for_each body xs st w = (inl (os, st'), w') -> ids st ⊆ ids st'.
Proof.
  intros Hstep H.
  apply (for_each_run body
           (fun x s0 w0 res w1 => body x s0 w0 = (res, w1))) in H; [|done].
  induction H as [|x xs s0 w0 o s1 w1 os s2 w2 Hs _ IH]; [done|].
  apply Hstep in Hs. set_solver.
Qed.

End Growth.

(** C4, as amended: in each of the three driver loops the set of done
    identifiers only grows, an iteration adds at most the identifier of its
    own item, and it does so only when the upsert of that item has returned
    [True]. In the pipeline driver the upserted vector is always the one the
    embedding service returned, so an item whose embedding or write fails
    stays out of the checkpoint. In the recovery driver an item whose write
    fails stays out as well, but one whose embedding fails enters the
    checkpoint when [--fallback] is set and the upsert of the fallback vector
    succeeds. *)
Theorem checkpoint_grows_after_upsert (env : Env) :
  (forall row st w o st' w',
     Initial.review_body env row st w = (inl (o, st'), w') ->
     Initial.processed_ids st ⊆ Initial.processed_ids st' /\
     (o <> Initial.SUCCESS ->
      Initial.processed_ids st' = Initial.processed_ids st) /\
     (o = Initial.SUCCESS ->
      Initial.processed_ids st'
        = {[ReviewRow.id row]} ∪ Initial.processed_ids st /\
      review_upserted env row w)) /\
  (forall row st w o st' w',
     Initial.product_body env row st w = (inl (o, st'), w') ->
     Initial.processed_ids st ⊆ Initial.processed_ids st' /\
     (o <> Initial.SUCCESS ->
      Initial.processed_ids st' = Initial.processed_ids st) /\
     (o = Initial.SUCCESS ->
      Initial.processed_ids st'
        = {[ProductRow.id row]} ∪ Initial.processed_ids st /\
      product_upserted env row w)) /\
  (forall args i st w o st' w',
     Retry.retry_body env args i st w = (inl (o, st'), w') ->
     Retry.processed st ⊆ Retry.processed st' /\
     ((forall fb, o <> Retry.SAVED fb) ->
      Retry.processed st' = Retry.processed st) /\
     (forall fb, o = Retry.SAVED fb ->
      Retry.processed st' = {[i]} ∪ Retry.processed st /\
      retry_upserted env args i fb w)) /\
  (forall rows st w os st' w',
     for_each (Initial.review_body env) rows st w = (inl (os, st'), w') ->
     Initial.processed_ids st ⊆ Initial.processed_ids st') /\
  (forall rows st w os st' w',
     for_each (Initial.product_body env) rows st w = (inl (os, st'), w') ->
     Initial.processed_ids st ⊆ Initial.processed_ids st') /\
  (forall args ids st w os st' w',
     for_each (Retry.retry_body env args) ids st w = (inl (os, st'), w') ->
     Retry.processed st ⊆ Retry.processed st').
Proof.
  split; [|split; [|split; [|split; [|split]]]].
  - apply review_growth.
  - apply product_growth.
  - apply retry_growth.
  - intros rows st w os st' w'. apply loop_growth.
    intros x s0 w0 o s1 w1 H. by apply review_growth in H as [? _].
  - intros rows st w os st' w'. apply loop_growth.
    intros x s0 w0 o s1 w1 H. by apply product_growth in H as [? _].
  - intros args ids st w os st' w'. apply loop_growth.
    intros x s0 w0 o s1 w1 H. by apply retry_growth in H as [? _].
Qed.

(** The recovery driver with [--fallback] while Ollama is down: the upsert
    that puts review 1 into the checkpoint carried the fallback vector. *)
Lemma checkpoint_grows_after_upsert_witness :
  retry_upserted (Examples.ollama_down [] [Examples.review 1 [Examples.ascii_a]])
                 Examples.retry_with_fallback 1 true Examples.fresh.
Proof.
  destruct (checkpoint_grows_after_upsert
              (Examples.ollama_down [] [Examples.review 1 [Examples.ascii_a]]))
    as (_ & _ & Hretry & _).
  assert (H : Retry.retry_body
                (Examples.ollama_down [] [Examples.review 1 [Examples.ascii_a]])
                Examples.retry_with_fallback 1 Examples.retry_start
                Examples.fresh
              = (inl (Retry.SAVED true,
                      snd (Examples.report_of
                             (Retry.EMBED_FAIL, Examples.retry_start)
                             Examples.fallback_step)),
                 snd Examples.fallback_step))
    by (vm_compute; reflexivity).
  destruct (Hretry _ _ _ _ _ _ _ H) as (_ & _ & Hsaved).
  exact (proj2 (Hsaved true eq_refl)).
Defined.

(** C4 as stated fails: Ollama fails every call, so the embedding of
    review 1 fails; run with [--from-db --fallback], the recovery driver
    still saves the review and records it in the checkpoint file. *)
Lemma fallback_enters_checkpoint :
  (forall n text,
     ollama (Examples.ollama_down [] [Examples.review 1 [Examples.ascii_a]])
            n text = EmbedError []) /\
  fst Examples.fallback_run
    = inl (Some (Retry.mkReport 1 0 [Retry.SAVED true])) /\
  checkpoint_file (snd Examples.fallback_run)
    = Some {| products := []; reviews := [1] |}.
Proof.
  split; [reflexivity|]. vm_compute. split; reflexivity.
Qed.

Section Strings.

Lemma lstrip_suffix s : exists a, s = a ++ lstrip s.
Proof.
  induction s as [|c s [a IH]]; simpl.
  - by exists [].
  - destruct (isspace c).
    + exists (c :: a). simpl. by f_equal.
    + by exists [].
Qed.

Lemma rstrip_prefix s : exists b, s = rstrip s ++ b.
Proof.
  unfold rstrip. destruct (lstrip_suffix (rev s)) as [a Ha].
  exists (rev a). rewrite <- rev_app_distr, <- Ha. by rewrite rev_involutive.
Qed.

(** [strip] only removes code points at the two ends. *)
Lemma strip_infix s : exists a b, s = a ++ strip s ++ b.
Proof.
  unfold strip. destruct (lstrip_suffix s) as [a Ha].
  destruct (rstrip_prefix (lstrip s)) as [b Hb].
  exists a, b. by rewrite <- Hb.
Qed.



Lemma slice_to_200 s : slice_to 200 s = take 200 s.
Proof. reflexivity. Qed.

End Strings.

Lemma replace_char_fuel (a b : N) (n : nat) (s : pystr) :
  (length s <= n)%nat ->
  replace_fuel n [a] [b] s = (fun c => if (a =? c)%N then b else c) <$> s.
Proof.
  revert s. induction n as [|n IH]; intros [|c s] Hn; simpl in *;
    try done; try lia.
  rewrite andb_true_r. destruct (a =? c)%N.
  - simpl. rewrite drop_0. f_equal. apply IH. lia.
  - f_equal. apply IH. lia.
Qed.

Lemma replace_char (a b : N) (s : pystr) :
  replace [a] [b] s = (fun c => if (a =? c)%N then b else c) <$> s.
Proof. unfold replace. by apply replace_char_fuel. Qed.

Lemma strip_length (s : pystr) : (length (strip s) <= length s)%nat.
Proof.
  destruct (strip_infix s) as (a & b & Hs).
  rewrite Hs at 2. rewrite !length_app. lia.
Qed.


Section RetrySends.

Variable env : Env.


End RetrySends.

Section Truncations.

Variable env : Env.




End Truncations.






Section Fallback.

Variable env : Env.

Lemma fallback_encodable : encodable Retry.FALLBACK_VECTOR = true.
Proof. vm_compute. reflexivity. Qed.

(** [save_to_qdrant] returns [True] as soon as one of its PUTs is accepted,
    the ones before it having been refused. *)
Lemma save_to_qdrant_from_accepts n pid v p w k :
  encodable v = true ->
  (k < n)%nat ->
  (forall j, (j < k)%nat ->
     exists m, qdrant_put env (put_calls w + j) pid v p = PutError m) ->
  qdrant_put env (put_calls w + k) pid v p = PutOk ->
  exists w',
    save_to_qdrant_from env n pid v p w = (inl true, w') /\
    put_calls w' = (put_calls w + S k)%nat.
Proof.
  intros He. revert w k. induction n as [|n IH]; intros w k Hk Hr Ha; [lia|].
  simpl. unfold try_except, bind, put_point. rewrite He.
  destruct k as [|k].
  - rewrite Nat.add_0_r in Ha. rewrite Ha. eexists. split; [reflexivity|].
    simpl. lia.
  - destruct (Hr 0%nat) as [m Hm]; [lia|]. rewrite Nat.add_0_r in Hm.
    rewrite Hm. destruct n as [|n]; [lia|].
    match goal with |- context [save_to_qdrant_from env (S n) pid v p ?w0] =>
      destruct (IH w0 k) as (w' & Hs & Hc) end.
    + lia.
    + intros j Hj. destruct (Hr (S j)) as [m' Hm']; [lia|]. exists m'.
      simpl. by replace (S (put_calls w + j)) with (put_calls w + S j)%nat
        by lia.
    + simpl. by replace (S (put_calls w + k)) with (put_calls w + S k)%nat
        by lia.
    + exists w'. split; [exact Hs|]. simpl in Hc. lia.
Qed.

(** One retry iteration when the embedding fails, [--fallback] is set and
    the upsert of the fallback vector returns [True]. *)
Lemma retry_fallback_saved args i st w row r w1 w2 :
  Retry.fallback args = true ->
  lookup_row env i = Some row ->
  strip (ReviewRow.contents row) <> [] ->
  Retry.try_embed env (Retry.truncated_text args row) w = (inl r, w1) ->
  Initial.usable (fst r) = None ->
  save_to_qdrant env (review_point_id i) Retry.FALLBACK_VECTOR
    (Retry.retry_payload i row (now env (clock_reads w1)) true) (ticked w1)
    = (inl true, w2) ->
  exists w' p,
    Retry.retry_body env args i st w
      = (inl (Retry.SAVED true, Retry.count_success i st), w') /\
    qdrant w'
      = <[review_point_id i := (Retry.FALLBACK_VECTOR, PayloadReview p)]>
          (qdrant w) /\
    ReviewPayload.embedding_fallback p = true /\
    ReviewPayload.review_id p = i /\
    checkpoint_file w' = Some (Retry.checkpoint (Retry.count_success i st)).
Proof.
  intros Hfb Hrow Hne Htry Hu Hq.
  eexists _, _. split; [|split; [|split; [|split]]].
  - apply retry_step_body. eapply TS_saved; eauto.
    unfold Retry.choose_vector. by rewrite Hu, Hfb.
  - simpl. apply save_to_qdrant_true in Hq as [_ ->]. simpl.
    apply try_embed_spec in Htry as ((_ & -> & _) & _). reflexivity.
  - reflexivity.
  - reflexivity.
  - reflexivity.
Qed.

(** In the same situation the upsert of the fallback vector is always
    attempted: at least one PUT is sent, and when the upsert does not return
    [True] the iteration ends as a failed write or with the interrupt. *)
Lemma retry_fallback_attempt args i st w row r w1 :
  Retry.fallback args = true ->
  lookup_row env i = Some row ->
  strip (ReviewRow.contents row) <> [] ->
  Retry.try_embed env (Retry.truncated_text args row) w = (inl r, w1) ->
  Initial.usable (fst r) = None ->
  exists r2 w2,
    save_to_qdrant env (review_point_id i) Retry.FALLBACK_VECTOR
      (Retry.retry_payload i row (now env (clock_reads w1)) true) (ticked w1)
      = (r2, w2) /\
    (put_calls w < put_calls w2)%nat /\
    (r2 = inl true \/ r2 = inl false \/ r2 = inr KeyboardInterrupt) /\
    (r2 = inl false ->
     Retry.retry_body env args i st w
       = (inl (Retry.WRITE_FAIL, Retry.count_fail st), w2)) /\
    (r2 = inr KeyboardInterrupt ->
     Retry.retry_body env args i st w = (inr KeyboardInterrupt, w2)).
Proof.
  intros Hfb Hrow Hne Htry Hu.
  assert (Hcv : Retry.choose_vector args (fst r)
                = Some (Retry.FALLBACK_VECTOR, true))
    by (unfold Retry.choose_vector; by rewrite Hu, Hfb).
  destruct (save_to_qdrant env (review_point_id i) Retry.FALLBACK_VECTOR
              (Retry.retry_payload i row (now env (clock_reads w1)) true)
              (ticked w1)) as [r2 w2] eqn:Hq.
  exists r2, w2. split; [reflexivity|].
  pose proof (save_to_qdrant_from_spec env _ _ _ _ _ _ _ Hq) as [_ Hres].
  split; [|split; [|split]].
  - assert (Hput : exists k, (k < 3)%nat /\
                     put_calls w2 = (put_calls (ticked w1) + S k)%nat).
    { unfold save_to_qdrant in Hq. simpl in Hq.
      unfold try_except, bind, put_point in Hq.
      rewrite fallback_encodable in Hq.
      destruct (qdrant_put env (put_calls (ticked w1)) _ _ _);
        [injection Hq as <- <-; exists 0%nat; simpl; split; lia| |
         injection Hq as <- <-; exists 0%nat; simpl; split; lia].
      simpl in Hq.
      destruct (qdrant_put env (S (put_calls w1)) _ _ _);
        [injection Hq as <- <-; exists 1%nat; simpl; split; lia| |
         injection Hq as <- <-; exists 1%nat; simpl; split; lia].
      simpl in Hq.
      destruct (qdrant_put env (S (S (put_calls w1))) _ _ _);
        injection Hq as <- <-; exists 2%nat; simpl; split; lia. }
    destruct Hput as (k & _ & ->).
    apply try_embed_spec in Htry as ((Hpc & _) & _). simpl. lia.
  - destruct Hres as [[-> _]|[[->| ->] _]]; auto.
  - intros ->. apply retry_step_body. by eapply TS_write_fail.
  - intros ->. apply retry_step_body. by eapply TS_write_interrupt.
Qed.

(** With [--fallback] no iteration gives up on an embedding failure, and
    what an iteration saves with the flag is the fallback vector. *)
Lemma retry_with_fallback_inv args i st w o st' w' :
  Retry.fallback args = true ->
  Retry.retry_body env args i st w = (inl (o, st'), w') ->
  o <> Retry.EMBED_FAIL /\
  (o = Retry.SAVED true ->
   holds_fallback w' i /\ i ∈ Retry.processed st' /\
   retry_upserted env args i true w).
Proof.
  intros Hfb H. pose proof (retry_growth env _ _ _ _ _ _ _ H) as (_ & _ & Hs).
  apply retry_body_inv in H. inversion H; subst; clear H.
  - split; [done|]. intros [=].
  - split; [done|]. intros [=].
  - match goal with E : Retry.choose_vector _ _ = None |- _ =>
      unfold Retry.choose_vector in E; rewrite Hfb in E;
      destruct (Initial.usable _); discriminate end.
  - split; [done|]. intros [=].
  - split; [done|]. intros [= ->].
    destruct (Hs true eq_refl) as [Hp Hup].
    match goal with E : Retry.choose_vector _ _ = Some _ |- _ =>
      apply choose_vector_inv in E as [_ E]; destruct (E eq_refl) as (_ & _ & ->)
    end.
    match goal with E : save_to_qdrant _ _ _ _ _ = _ |- _ =>
      apply save_to_qdrant_true in E as [_ Hi] end.
    split; [|split; [set_solver|exact Hup]].
    eexists. split; [simpl; rewrite Hi; apply lookup_insert_eq|].
    split; reflexivity.
Qed.

(** The set in memory is the set of the checkpoint file, from the start of
    the loop to its end. *)
Lemma retry_processed_is_file args i st w o st' w' :
  Retry.retry_body env args i st w = (inl (o, st'), w') ->
  Retry.processed st = done_reviews w ->
  Retry.processed st' = done_reviews w'.
Proof.
  intros H Hinv. apply retry_body_inv in H.
  assert (Hsame : forall w0, checkpoint_file w0 = checkpoint_file w ->
                             done_reviews w0 = done_reviews w).
  { intros w0 E. unfold done_reviews, loaded_checkpoint. by rewrite E. }
  inversion H; subst; clear H; simpl; try done.
  - match goal with E : Retry.try_embed _ _ _ = _ |- _ =>
      apply try_embed_spec in E as ((_ & _ & Hc & _) & _) end.
    rewrite Hinv. symmetry. by apply Hsame.
  - match goal with E : Retry.try_embed _ _ _ = _ |- _ =>
      apply try_embed_spec in E as ((_ & _ & Hc & _) & _) end.
    match goal with E : save_to_qdrant _ _ _ _ _ = _ |- _ =>
      apply save_to_qdrant_false in E as [(_ & Hc' & _) _]; [|discriminate] end.
    rewrite Hinv. symmetry. apply Hsame. rewrite Hc'. exact Hc.
  - unfold done_reviews, loaded_checkpoint. simpl.
    by rewrite list_to_set_elements_L.
Qed.

Section Outage.

Variable args : Retry.Args.
Hypothesis fallback_on : Retry.fallback args = true.
Hypothesis ollama_fails : forall n text, exists m, ollama env n text = EmbedError m.
Hypothesis qdrant_accepts : forall n pid v p, qdrant_put env n pid v p = PutOk.

Lemma outage_quiet : never_interrupts env.
Proof.
  split.
  - intros n text. by destruct (ollama_fails n text) as [m ->].
  - intros n pid v p. by rewrite qdrant_accepts.
Qed.

Lemma try_embed_fails text w r w1 :
  Retry.try_embed env text w = (inl r, w1) -> Initial.usable (fst r) = None.
Proof.
  unfold Retry.try_embed, try_except, bind, post_embed.
  destruct (ollama_fails (length (embed_sent w)) text) as [m ->].
  by intros [= <- <-].
Qed.

Lemma outage_step i st w o st' w' :
  Retry.retry_body env args i st w = (inl (o, st'), w') ->
  (forall j, holds_fallback w j -> holds_fallback w' j) /\
  Retry.processed st ⊆ Retry.processed st' /\
  (forall row,
     lookup_row env i = Some row ->
     strip (ReviewRow.contents row) <> [] ->
     o = Retry.SAVED true /\ holds_fallback w' i /\ i ∈ Retry.processed st').
Proof.
  intros H.
  pose proof (retry_with_fallback_inv _ _ _ _ _ _ _ fallback_on H) as [Hne Hs].
  apply retry_body_inv in H. inversion H; subst; clear H.
  - split; [done|]. split; [done|]. intros row Hr. congruence.
  - split; [done|]. split; [done|]. intros row0 Hr Hn. congruence.
  - done.
  - match goal with E : Retry.try_embed _ _ _ = _ |- _ =>
      pose proof (try_embed_fails _ _ _ _ E) as Hu end.
    match goal with E : Retry.choose_vector _ _ = Some _ |- _ =>
      unfold Retry.choose_vector in E; rewrite Hu, fallback_on in E;
      injection E as <- <- end.
    match goal with E : save_to_qdrant _ ?pid ?v ?p ?w0 = _ |- _ =>
      destruct (save_to_qdrant_from_accepts 3 pid v p w0 0)
        as (w3 & E3 & _);
        [apply fallback_encodable|lia|intros j Hj; lia|
         apply qdrant_accepts|];
      unfold save_to_qdrant in E; rewrite E3 in E; discriminate end.
  - match goal with E : Retry.try_embed _ _ _ = _ |- _ =>
      pose proof (try_embed_fails _ _ _ _ E) as Hu;
      apply try_embed_spec in E as ((_ & Hq1 & _) & _) end.
    match goal with E : Retry.choose_vector _ _ = Some _ |- _ =>
      unfold Retry.choose_vector in E; rewrite Hu, fallback_on in E;
      injection E as <- <- end.
    destruct (Hs eq_refl) as (Hh & Hp & _).
    match goal with E : save_to_qdrant _ _ _ _ _ = _ |- _ =>
      apply save_to_qdrant_true in E as [_ Hi] end.
    split; [|split; [simpl; set_solver|done]].
    intros j (p & Hj & Hflag).
    destruct (decide (j = i)) as [->|Hji]; [exact Hh|].
    exists p. split; [|exact Hflag].
    simpl. rewrite Hi. rewrite lookup_insert_ne.
    + simpl. by rewrite Hq1.
    + unfold review_point_id. lia.
Qed.

Lemma outage_loop ids st w os st' w' :
  iterates (Retry.retry_body env args) ids st w os st' w' ->
  Retry.processed st = done_reviews w ->
  Retry.processed st' = done_reviews w' /\
  Retry.processed st ⊆ Retry.processed st' /\
  (forall j, holds_fallback w j -> holds_fallback w' j) /\
  (forall i row,
     i ∈ ids -> lookup_row env i = Some row ->
     strip (ReviewRow.contents row) <> [] ->
     holds_fallback w' i /\ i ∈ Retry.processed st').
Proof.
  unfold iterates.
  induction 1 as [st w|x xs st w o st1 w1 os st' w' Hs _ IH]; intros Hinv.
  - split; [done|]. split; [done|]. split; [done|].
    intros i0 row Hi. by apply elem_of_nil in Hi.
  - pose proof (retry_processed_is_file _ _ _ _ _ _ _ Hs Hinv) as Hinv1.
    apply outage_step in Hs as (Hk & Hp & Hx).
    destruct (IH Hinv1) as (Hinv' & Hp' & Hk' & Hxs).
    split; [exact Hinv'|]. split; [set_solver|]. split; [auto|].
    intros i0 row Hi Hr Hn. apply elem_of_cons in Hi as [->|Hi].
    + destruct (Hx row Hr Hn) as (_ & Hh & Hin). split; [auto|set_solver].
    + eauto.
Qed.

(** The whole run while Ollama is down and Qdrant accepts every PUT. *)
Lemma outage_run w ids :
  Retry.pending env args w = (inl (Some ids), w) ->
  ids <> [] ->
  exists report w',
    Retry.main env args w = (inl (Some report), w') /\
    length (Retry.outcomes report) = length ids /\
    forall i row,
      i ∈ ids -> lookup_row env i = Some row ->
      strip (ReviewRow.contents row) <> [] ->
      holds_fallback w' i /\ i ∈ done_reviews w'.
Proof.
  intros Hp Hne.
  destruct (retry_main_total env outage_quiet args w ids Hp Hne)
    as (report & st' & w' & Hm & Hch & _).
  exists report, w'. split; [exact Hm|]. split.
  - pose proof (iterates_steps _ _ _ _ _ _ _ _ (retry_body_inv env args) Hch)
      as Hsteps.
    by apply run_steps_length in Hsteps.
  - apply outage_loop in Hch as (Hinv & _ & _ & Hall); [|reflexivity].
    intros i row Hi Hr Hn. destruct (Hall i row Hi Hr Hn) as [Hh Hin].
    split; [exact Hh|]. by rewrite <- Hinv.
Qed.

End Outage.

Lemma no_give_up args ids st w os st' w' :
  Retry.fallback args = true ->
  iterates (Retry.retry_body env args) ids st w os st' w' ->
  Forall (fun o => o <> Retry.EMBED_FAIL) os.
Proof.
  intros Hfb. unfold iterates.
  induction 1 as [st w|x xs st w o st1 w1 os st' w' Hs _ IH];
    constructor; [|exact IH].
  by apply (retry_with_fallback_inv _ _ _ _ _ _ _ Hfb) in Hs as [? _].
Qed.

End Fallback.

(** C8: with [--fallback] set, an iteration of the retry loop whose
    embedding call returns no usable vector still writes the review: it
    always sends the fallback vector to the index, and when the upsert
    returns [True], which it does as soon as one of its three PUTs is
    accepted, the iteration ends in the saved branch, the index holds the
    point with the fallback vector and a payload whose [embedding_fallback]
    is true, and the checkpoint file holds the review; otherwise the
    iteration is a failed write. No iteration gives up on an embedding
    failure. [main] makes one
    such iteration per pending identifier; while the embedding service fails
    every call and the index accepts every PUT, every pending review that
    has contents ends up in the index with the fallback vector and the flag,
    and in the checkpoint file. The fallback vector has 1024 components,
    each the binary64 value of [1.0 / 1024 ** 0.5], which is exactly 1/32,
    the positive number whose square times 1024 is 1; the sum of the
    squares, added in binary64, is exactly 1.0. *)
Theorem fallback_substitution (env : Env) (args : Retry.Args) :
  Retry.fallback args = true ->
  (forall i st w row r w1 w2,
     lookup_row env i = Some row ->
     strip (ReviewRow.contents row) <> [] ->
     Retry.try_embed env (Retry.truncated_text args row) w = (inl r, w1) ->
     Initial.usable (fst r) = None ->
     save_to_qdrant env (review_point_id i) Retry.FALLBACK_VECTOR
       (Retry.retry_payload i row (now env (clock_reads w1)) true) (ticked w1)
       = (inl true, w2) ->
     exists w' p,
       Retry.retry_body env args i st w
         = (inl (Retry.SAVED true, Retry.count_success i st), w') /\
       qdrant w'
         = <[review_point_id i := (Retry.FALLBACK_VECTOR, PayloadReview p)]>
             (qdrant w) /\
       ReviewPayload.embedding_fallback p = true /\
       ReviewPayload.review_id p = i /\
       i ∈ Retry.processed (Retry.count_success i st) /\
       (exists c, checkpoint_file w' = Some c /\ i ∈ reviews c)) /\
  (forall i st w row r w1,
     lookup_row env i = Some row ->
     strip (ReviewRow.contents row) <> [] ->
     Retry.try_embed env (Retry.truncated_text args row) w = (inl r, w1) ->
     Initial.usable (fst r) = None ->
     exists r2 w2,
       save_to_qdrant env (review_point_id i) Retry.FALLBACK_VECTOR
         (Retry.retry_payload i row (now env (clock_reads w1)) true)
         (ticked w1) = (r2, w2) /\
       (put_calls w < put_calls w2)%nat /\
       (r2 = inl true \/ r2 = inl false \/ r2 = inr KeyboardInterrupt) /\
       (r2 = inl false ->
        Retry.retry_body env args i st w
          = (inl (Retry.WRITE_FAIL, Retry.count_fail st), w2)) /\
       (r2 = inr KeyboardInterrupt ->
        Retry.retry_body env args i st w = (inr KeyboardInterrupt, w2))) /\
  (forall pid p w k,
     (k < 3)%nat ->
     (forall j, (j < k)%nat ->
        exists m,
          qdrant_put env (put_calls w + j) pid Retry.FALLBACK_VECTOR p
            = PutError m) ->
     qdrant_put env (put_calls w + k) pid Retry.FALLBACK_VECTOR p = PutOk ->
     exists w2,
       save_to_qdrant env pid Retry.FALLBACK_VECTOR p w = (inl true, w2)) /\
  (forall i st w o st' w',
     Retry.retry_body env args i st w = (inl (o, st'), w') ->
     o <> Retry.EMBED_FAIL /\
     (o = Retry.SAVED true ->
      holds_fallback w' i /\ i ∈ Retry.processed st' /\
      retry_upserted env args i true w)) /\
  (never_interrupts env ->
   forall w ids,
     Retry.pending env args w = (inl (Some ids), w) ->
     ids <> [] ->
     exists report st' w',
       Retry.main env args w = (inl (Some report), w') /\
       iterates (Retry.retry_body env args) ids (retry_loop_start w) w
                (Retry.outcomes report) st' w' /\
       Forall (fun o => o <> Retry.EMBED_FAIL) (Retry.outcomes report)) /\
  ((forall n text, exists m, ollama env n text = EmbedError m) ->
   (forall n pid v p, qdrant_put env n pid v p = PutOk) ->
   forall w ids,
     Retry.pending env args w = (inl (Some ids), w) ->
     ids <> [] ->
     exists report w',
       Retry.main env args w = (inl (Some report), w') /\
       length (Retry.outcomes report) = length ids /\
       forall i row,
         i ∈ ids -> lookup_row env i = Some row ->
         strip (ReviewRow.contents row) <> [] ->
         holds_fallback w' i /\ i ∈ done_reviews w') /\
  length Retry.FALLBACK_VECTOR = 1024%nat /\
  Forall (fun x => x = (1 / PrimFloat.sqrt (Retry.float_of_int 1024))%float)
         Retry.FALLBACK_VECTOR /\
  (exists q,
     Retry.float_exact (1 / PrimFloat.sqrt (Retry.float_of_int 1024))%float
       = Some q /\
     (q == 1 # 32)%Q /\ (q * q * 1024 == 1)%Q) /\
  Retry.sum_of_squares Retry.FALLBACK_VECTOR = 1%float.
Proof.
  intros Hfb.
  split; [|split; [|split; [|split; [|split; 
    [|split; [|split; [|split; [|split]]]]]]]].
  2: { intros i st w row r w1. by apply retry_fallback_attempt. }
  - intros i st w row r w1 w2 Hrow Hne Htry Hu Hq.
    destruct (retry_fallback_saved env args i st w row r w1 w2
                Hfb Hrow Hne Htry Hu Hq) as (w' & p & Hb & Hi & Hf & Hid & Hc).
    exists w', p. repeat split; try done.
    + simpl. set_solver.
    + eexists. split; [exact Hc|]. simpl.
      apply elem_of_elements. set_solver.
  - intros pid p w k Hk Hr Ha.
    destruct (save_to_qdrant_from_accepts env 3 pid Retry.FALLBACK_VECTOR p w k
                (fallback_encodable) Hk Hr Ha) as (w2 & Hs & _).
    by exists w2.
  - intros i st w o st' w'. by apply retry_with_fallback_inv.
  - intros Hq w ids Hp Hne.
    destruct (retry_main_total env Hq args w ids Hp Hne)
      as (report & st' & w' & Hm & Hch & _).
    exists report, st', w'. split; [done|]. split; [done|].
    by eapply no_give_up.
  - intros Hdown Hup w ids Hp Hne. by apply outage_run.
  - vm_compute. reflexivity.
  - apply Forall_replicate. reflexivity.
  - eexists. split; [vm_compute; reflexivity|]. split; reflexivity.
  - vm_compute. reflexivity.
Qed.

(** The retry of review 1 while Ollama is down and Qdrant refuses the first
    PUT: the review is saved on the second PUT, with the fallback vector. *)
Lemma fallback_substitution_witness :
  (exists w' p,
     Cases.flaky_step
       = (inl (Retry.SAVED true, Retry.count_success 1 Examples.retry_start),
          w') /\
     qdrant w'
       = <[review_point_id 1 := (Retry.FALLBACK_VECTOR, PayloadReview p)]>
           (qdrant Examples.fresh) /\
     ReviewPayload.embedding_fallback p = true /\
     ReviewPayload.review_id p = 1 /\
     1 ∈ Retry.processed (Retry.count_success 1 Examples.retry_start) /\
     (exists c, checkpoint_file w' = Some c /\ 1 ∈ reviews c)) /\
  put_calls (snd Cases.flaky_step) = 2%nat /\
  Retry.sum_of_squares Retry.FALLBACK_VECTOR = 1%float.
Proof.
  destruct (fallback_substitution Cases.flaky_index
              Examples.retry_with_fallback eq_refl)
    as (Hrun & _ & _ & _ & _ & _ & _ & _ & _ & Hsum).
  split; [|split; [vm_compute; reflexivity|exact Hsum]].
  apply (Hrun 1 Examples.retry_start Examples.fresh
              (Examples.review 1 [Examples.ascii_a]) (None, Some [])
              (mkWorld [[Examples.ascii_a]] 0 ∅ None None 0 [])
              (snd (save_to_qdrant Cases.flaky_index (review_point_id 1)
                      Retry.FALLBACK_VECTOR
                      (Retry.retry_payload 1
                         (Examples.review 1 [Examples.ascii_a]) [] true)
                      (mkWorld [[Examples.ascii_a]] 0 ∅ None None 1 [])))).
  - vm_compute. reflexivity.
  - vm_compute. discriminate.
  - vm_compute. reflexivity.
  - reflexivity.
  - vm_compute. reflexivity.
Defined.

Section Pending.

Variable env : Env.

Lemma pending_from_db args w :
  Retry.from_db args = true ->
  Retry.pending env args w
  = (inl (Some (merge_sort Z.le
                  (elements
                     ((list_to_set (ReviewRow.id <$> review_source env)
                         : gset Z)
                      ∖ list_to_set (reviews (loaded_checkpoint w)))))), w).
Proof.
  intros Hdb. unfold Retry.pending. rewrite Hdb.
  unfold bind. rewrite load_checkpoint_eq. reflexivity.
Qed.



End Pending.

Section PendingRuns.

Variable env : Env.





End PendingRuns.



(** C9 as stated fails. In ledger mode an entry whose identifier is 0 is
    listed in the ledger and not retried: of a ledger listing 0 and 4 only 4
    is pending. With [--from-db] a review whose contents are empty is known
    to the source and absent from the checkpoint, yet it is not pending. *)
Lemma unusable_ids_not_pending :
  Failure.review_id <$> Cases.ledger_0_none_4 = [Some 0; None; Some 4] /\
  fst (Retry.pending (Examples.healthy [] []) Examples.retry_ledger
                     Cases.with_odd_ledger) = inl (Some [4]) /\
  ReviewRow.id <$> kurly_skin_reviews Cases.with_empty_review = [1; 2] /\
  reviews (loaded_checkpoint Examples.fresh) = [] /\
  fst (Retry.pending Cases.with_empty_review Examples.retry_default
                     Examples.fresh) = inl (Some [1]).
Proof. vm_compute. repeat split; reflexivity. Qed.

(** * Further properties of the code *)

(** X1: [generate_embedding] sends the same text between one and three
    times and changes nothing else in the world. It never lets an
    [Exception] escape: it returns a vector without error text, or an error
    text without vector, unless a [KeyboardInterrupt] passes through. *)
Theorem generate_embedding_bounded (env : Env) (text : pystr) (w w' : World)
    (r : (option vector * option pystr) + exn) :
  Initial.generate_embedding env text w = (r, w') ->
  (exists k, (1 <= k <= 3)%nat /\ w' = posted k text w) /\
  (r = inr KeyboardInterrupt \/ (exists e0, r = inl (Some e0, None)) \/
   (exists msg, r = inl (None, Some msg))).
Proof.
  intros H. apply generate_embedding_from_posts in H as (k & Hk & Hk0 & -> & Hr).
  split; [|exact Hr]. exists k. split; [|reflexivity].
  assert (k <> 0%nat) by (apply Hk0; discriminate). lia.
Qed.

Lemma generate_embedding_bounded_witness :
  (exists k, (1 <= k <= 3)%nat /\
     snd (Initial.generate_embedding (Examples.ollama_down [] [])
            [Examples.ascii_a] Examples.fresh)
       = posted k [Examples.ascii_a] Examples.fresh) /\
  (fst (Initial.generate_embedding (Examples.ollama_down [] [])
          [Examples.ascii_a] Examples.fresh) = inr KeyboardInterrupt \/
   (exists e0,
      fst (Initial.generate_embedding (Examples.ollama_down [] [])
             [Examples.ascii_a] Examples.fresh) = inl (Some e0, None)) \/
   (exists msg,
      fst (Initial.generate_embedding (Examples.ollama_down [] [])
             [Examples.ascii_a] Examples.fresh) = inl (None, Some msg))).
Proof.
  apply (generate_embedding_bounded (Examples.ollama_down [] [])
           [Examples.ascii_a] Examples.fresh).
  vm_compute. reflexivity.
Defined.

(** X2: a response that arrives without error ends [generate_embedding] at
    once. Its first vector is returned; when it carries no vector (no
    [embeddings] key, or an empty list) the call is not retried and the
    result is the error text "empty embeddings in response". *)
Theorem generate_embedding_first_response (env : Env) (text : pystr)
    (w : World) (emb : option (list vector)) :
  ollama env (length (embed_sent w)) text = EmbedBody emb ->
  Initial.generate_embedding env text w
  = (inl (match emb with
          | Some (e0 :: _) => (Some e0, None)
          | _ => (None, Some MSG_EMPTY_IN_RESPONSE)
          end), posted 1 text w).
Proof.
  intros H. unfold Initial.generate_embedding. simpl.
  unfold try_except, bind, post_embed. rewrite H.
  by destruct emb as [[|e0 l]|].
Qed.

Lemma generate_embedding_first_response_witness :
  Initial.generate_embedding
    {| ollama := fun _ _ => EmbedBody (Some []);
       qdrant_put := fun _ _ _ _ => PutOk;
       now := fun _ => [];
       kurly_skin_products := [];
       kurly_skin_reviews := [] |} [Examples.ascii_a] Examples.fresh
  = (inl (None, Some MSG_EMPTY_IN_RESPONSE),
     posted 1 [Examples.ascii_a] Examples.fresh).
Proof.
  apply (generate_embedding_first_response
           {| ollama := fun _ _ => EmbedBody (Some []);
              qdrant_put := fun _ _ _ _ => PutOk;
              now := fun _ => [];
              kurly_skin_products := [];
              kurly_skin_reviews := [] |} [Examples.ascii_a] Examples.fresh
           (Some [])).
  reflexivity.
Defined.

(** X3: a failed call is tried again, at most twice. After one error the
    second response decides; after three errors in a row the result is the
    text of the third error, and no fourth call is made. *)
Theorem generate_embedding_retries (env : Env) (text : pystr) (w : World)
    (m1 m2 m3 : pystr) :
  ollama env (length (embed_sent w)) text = EmbedError m1 ->
  (forall e0 l,
     ollama env (S (length (embed_sent w))) text = EmbedBody (Some (e0 :: l)) ->
     Initial.generate_embedding env text w
     = (inl (Some e0, None), posted 2 text w)) /\
  (ollama env (S (length (embed_sent w))) text = EmbedError m2 ->
   ollama env (S (S (length (embed_sent w)))) text = EmbedError m3 ->
   Initial.generate_embedding env text w
   = (inl (None, Some m3), posted 3 text w)).
Proof.
  intros H1. split.
  - intros e0 l H2. unfold Initial.generate_embedding. simpl.
    unfold try_except, bind, post_embed. rewrite H1. simpl.
    rewrite length_app. simpl. rewrite Nat.add_1_r, H2.
    unfold posted. simpl. by rewrite <- app_assoc.
  - intros H2 H3. unfold Initial.generate_embedding. simpl.
    unfold try_except, bind, post_embed. rewrite H1. simpl.
    rewrite length_app. simpl. rewrite Nat.add_1_r, H2. simpl.
    rewrite !length_app. simpl. rewrite !Nat.add_1_r, H3.
    unfold posted. simpl. by rewrite <- !app_assoc.
Qed.

Lemma generate_embedding_retries_witness :
  Initial.generate_embedding (Examples.ollama_down [] []) [Examples.ascii_a]
                             Examples.fresh
  = (inl (None, Some []), posted 3 [Examples.ascii_a] Examples.fresh).
Proof.
  apply (generate_embedding_retries (Examples.ollama_down [] [])
           [Examples.ascii_a] Examples.fresh [] [] []); reflexivity.
Defined.

Section IndexWriter.

Variable env : Env.

Lemma save_to_qdrant_from_calls n pid v p w r w' :
  save_to_qdrant_from env n pid v p w = (r, w') ->
  (put_calls w <= put_calls w' <= put_calls w + n)%nat /\
  (encodable v = false -> r = inl false /\ w' = w) /\
  (r = inl true -> encodable v = true /\ (put_calls w < put_calls w')%nat) /\
  (encodable v = true -> r = inl false ->
   put_calls w' = (put_calls w + n)%nat /\
   forall k, (k < n)%nat ->
     exists msg, qdrant_put env (put_calls w + k) pid v p = PutError msg) /\
  (encodable v = true -> n <> 0%nat -> (put_calls w < put_calls w')%nat).
Proof.
  destruct (encodable v) eqn:He.
  - revert w. induction n as [|n IH]; intros w H; simpl in H.
    { injection H as <- <-. repeat split; try lia; try done. }
    unfold try_except, bind, put_point in H. rewrite He in H.
    destruct (qdrant_put env (put_calls w) pid v p) as [|msg|] eqn:Hp.
    + injection H as <- <-. simpl. repeat split; try lia; try done.
    + destruct n.
      * injection H as <- <-. simpl. repeat split; try lia; try done.
        intros k Hk. assert (k = 0%nat) as -> by lia.
        rewrite Nat.add_0_r. eauto.
      * apply IH in H as (Hc & _ & Ht & Hf & _). simpl in Hc.
        split; [lia|]. split; [done|]. split; [|split].
        -- intros Hr. destruct (Ht Hr). split; [done|lia].
        -- intros _ Hr. destruct (Hf eq_refl Hr) as [Hn Hf'].
           simpl in Hn. split; [lia|].
           intros [|k] Hk; [rewrite Nat.add_0_r; eauto|].
           destruct (Hf' k) as [m Hm]; [lia|]. exists m. simpl in Hm.
           by replace (put_calls w + S k)%nat
             with (S (put_calls w + k))%nat by lia.
        -- intros _ _. lia.
    + injection H as <- <-. simpl. repeat split; try lia; try done.
  - revert w. induction n as [|n IH]; intros w H; simpl in H.
    { injection H as <- <-. repeat split; try lia; try done. }
    unfold try_except, bind, put_point in H. rewrite He in H.
    destruct n.
    + injection H as <- <-. repeat split; try lia; try done.
    + apply IH in H as (Hc & Hn & _). destruct (Hn eq_refl) as [-> ->].
      repeat split; try lia; try done.
Qed.

End IndexWriter.



(** X6: the embedding call of the recovery driver is a single POST. Unlike
    [generate_embedding] it does not try again: an error response gives the
    error text at once. No [Exception] escapes it. *)
Theorem try_embed_single_post (env : Env) (text : pystr) (w w' : World)
    (r : (option vector * option pystr) + exn) :
  Retry.try_embed env text w = (r, w') ->
  w' = posted 1 text w /\
  (forall msg,
     ollama env (length (embed_sent w)) text = EmbedError msg ->
     r = inl (None, Some msg)) /\
  (r = inr KeyboardInterrupt \/ (exists e0, r = inl (Some e0, None)) \/
   (exists msg, r = inl (None, Some msg))).
Proof.
  unfold Retry.try_embed, try_except, bind, post_embed. intros H.
  destruct (ollama env (length (embed_sent w)) text) as [emb|msg|].
  - destruct emb as [[|e0 l]|]; injection H as <- <-;
      (split; [reflexivity|split; [discriminate|eauto]]).
  - injection H as <- <-.
    split; [reflexivity|split; [by intros ? [= <-]|eauto]].
  - injection H as <- <-. split; [reflexivity|split; [discriminate|eauto]].
Qed.

Lemma try_embed_single_post_witness :
  snd (Retry.try_embed (Examples.ollama_down [] []) [Examples.ascii_a]
                       Examples.fresh)
  = posted 1 [Examples.ascii_a] Examples.fresh.
Proof.
  apply (try_embed_single_post (Examples.ollama_down [] []) [Examples.ascii_a]
           Examples.fresh _
           (fst (Retry.try_embed (Examples.ollama_down [] [])
                   [Examples.ascii_a] Examples.fresh))).
  vm_compute. reflexivity.
Defined.

Section AnyResult.

Context {R S O : Type}.
Variable body : R -> S -> M (O * S).
Variable I : S -> World -> Prop.
Variable T : World -> World -> Prop.
Hypothesis T_refl : forall w, T w w.
Hypothesis T_trans : forall a b c, T a b -> T b c -> T a c.

(** A relation between worlds that every iteration respects, however it
    ends, is respected by the loop, however it ends. *)
Lemma for_each_any (all : list R) :
  (forall x st w res w',
     x ∈ all -> I st w -> body x st w = (res, w') ->
     T w w' /\ forall o st', res = inl (o, st') -> I st' w') ->
  forall xs st w res w',
    xs ⊆ all -> I st w -> for_each body xs st w = (res, w') ->
    T w w' /\ forall os st', res = inl (os, st') -> I st' w'.
Proof.
  intros Hstep. induction xs as [|x xs IH]; intros st w res w' Hsub HI H.
  - simpl in H. injection H as <- <-. split; [apply T_refl|].
    by intros os st' [= _ <-].
  - simpl in H. unfold bind in H.
    destruct (body x st w) as [[[o st1]|e] w1] eqn:Hb.
    + destruct (Hstep x st w _ w1 (Hsub x (list_elem_of_here x xs)) HI Hb)
        as [HT HI1].
      specialize (HI1 o st1 eq_refl). simpl in H.
      assert (Hsub' : xs ⊆ all)
        by (intros y Hy; apply Hsub; by apply list_elem_of_further).
      destruct (for_each body xs st1 w1) as [[[os st2]|e] w2] eqn:Hr;
        destruct (IH _ _ _ _ Hsub' HI1 Hr) as [HT' HI2];
        injection H as <- <-; (split; [by eapply T_trans|]).
      * intros os' st' [= _ <-]. by eapply HI2.
      * discriminate.
    + destruct (Hstep x st w _ w1 (Hsub x (list_elem_of_here x xs)) HI Hb)
        as [HT _].
      injection H as <- <-. split; [exact HT|discriminate].
Qed.

End AnyResult.

Section FileGrowth.

Variable env : Env.

Import Initial.

Lemma commit_cases set_kind cadence i st w :
  commit set_kind cadence i st w = (inl (SUCCESS, count_success i st), w) \/
  commit set_kind cadence i st w
  = (inl (SUCCESS, set_kind (count_success i st)),
     snd (save_checkpoint (checkpoint (set_kind (count_success i st))) w)).
Proof.
  unfold commit, bind. destruct (_ =? 0); [right|left]; reflexivity.
Qed.

Lemma review_run_rel_refl K w : review_run_rel K w w.
Proof. by repeat split. Qed.

Lemma review_run_rel_trans K a b c :
  review_run_rel K a b -> review_run_rel K b c -> review_run_rel K a c.
Proof.
  intros (H1 & H2 & H3) (H1' & H2' & H3'). repeat split.
  - set_solver.
  - congruence.
  - intros j Hj. rewrite H3', H3; auto.
Qed.

Lemma product_run_rel_refl K w : product_run_rel K w w.
Proof. by repeat split. Qed.

Lemma product_run_rel_trans K a b c :
  product_run_rel K a b -> product_run_rel K b c -> product_run_rel K a c.
Proof.
  intros (H1 & H2 & H3) (H1' & H2' & H3'). repeat split.
  - set_solver.
  - congruence.
  - intros j Hj. rewrite H3', H3; auto.
Qed.

(** Worlds that differ neither in the checkpoint file nor in the index. *)
Lemma review_run_rel_same K w w' :
  checkpoint_file w' = checkpoint_file w -> qdrant w' = qdrant w ->
  review_run_rel K w w'.
Proof.
  intros Hc Hq. unfold review_run_rel, done_reviews, loaded_checkpoint.
  rewrite Hc, Hq. by repeat split.
Qed.

Lemma product_run_rel_same K w w' :
  checkpoint_file w' = checkpoint_file w -> qdrant w' = qdrant w ->
  product_run_rel K w w'.
Proof.
  intros Hc Hq. unfold product_run_rel, done_products, loaded_checkpoint.
  rewrite Hc, Hq. by repeat split.
Qed.

Lemma review_inv_same st st' w w' :
  checkpoint_file w' = checkpoint_file w ->
  processed_ids st ⊆ processed_ids st' ->
  checkpoint st' = checkpoint st ->
  review_inv st w -> review_inv st' w'.
Proof.
  unfold review_inv, done_reviews, loaded_checkpoint.
  intros -> Hp -> [H1 H2]. split; [set_solver|done].
Qed.

Lemma product_inv_same st st' w w' :
  checkpoint_file w' = checkpoint_file w ->
  processed_ids st ⊆ processed_ids st' ->
  checkpoint st' = checkpoint st ->
  product_inv st w -> product_inv st' w'.
Proof.
  unfold product_inv, done_products, loaded_checkpoint.
  intros -> Hp -> [H1 H2]. split; [set_solver|done].
Qed.

Lemma done_reviews_saved w c :
  done_reviews (snd (save_checkpoint c w)) = list_to_set (reviews c).
Proof. reflexivity. Qed.

Lemma done_products_saved w c :
  done_products (snd (save_checkpoint c w)) = list_to_set (products c).
Proof. reflexivity. Qed.

(** A successful review iteration: the point is written, the identifier
    joins the set, and the file is either left alone or rewritten with the
    whole set. *)
Lemma review_commit_any K i st w0 w2 res w' v p :
  review_point_id i ∈ K ->
  review_inv st w0 ->
  checkpoint_file w2 = checkpoint_file w0 ->
  qdrant w2 = <[review_point_id i := (v, p)]> (qdrant w0) ->
  commit set_reviews 50 i st w2 = (res, w') ->
  review_run_rel K w0 w' /\
  forall o st', res = inl (o, st') -> review_inv st' w'.
Proof.
  intros HK [Hd Hp] Hc Hq Hcm.
  assert (Hframe : forall j, j ∉ K -> qdrant w2 !! j = qdrant w0 !! j).
  { intros j Hj. rewrite Hq. apply lookup_insert_ne. set_solver. }
  destruct (commit_cases set_reviews 50 i st w2) as [E|E];
    rewrite E in Hcm; injection Hcm as <- <-.
  - split.
    + unfold review_run_rel, done_reviews, loaded_checkpoint.
      rewrite Hc. by repeat split.
    + intros o st' [= _ <-]. unfold review_inv, done_reviews, loaded_checkpoint.
      rewrite Hc. simpl. split; [set_solver|exact Hp].
  - split.
    + unfold review_run_rel, done_reviews, loaded_checkpoint. simpl.
      rewrite list_to_set_elements_L. repeat split; [set_solver|done|done].
    + intros o st' [= _ <-].
      unfold review_inv, done_reviews, loaded_checkpoint. simpl.
      rewrite list_to_set_elements_L. split; [set_solver|done].
Qed.

Lemma review_step_any K row st w res w' :
  review_point_id (ReviewRow.id row) ∈ K ->
  review_step env row st w res w' ->
  review_inv st w ->
  review_run_rel K w w' /\
  forall o st', res = inl (o, st') -> review_inv st' w'.
Proof.
  intros HK H Hinv.
  inversion H; subst; clear H;
    repeat match goal with
      | E : generate_embedding _ _ _ = _ |- _ =>
          apply generate_embedding_frame in E as (?&?&?&?&?&?)
      end.
  - split; [apply review_run_rel_refl|].
    intros o st' [= _ <-]. by eapply review_inv_same.
  - split; [apply review_run_rel_refl|].
    intros o st' [= _ <-]. by eapply review_inv_same.
  - split; [by apply review_run_rel_same|discriminate].
  - split; [by apply review_run_rel_same|].
    intros o st' [= _ <-]. by eapply review_inv_same.
  - match goal with E : save_to_qdrant _ _ _ _ _ = _ |- _ =>
      apply save_to_qdrant_false in E as [(?&?&?&?&?) ?]; [|discriminate] end.
    simpl in *. split; [apply review_run_rel_same; congruence|discriminate].
  - match goal with E : save_to_qdrant _ _ _ _ _ = _ |- _ =>
      apply save_to_qdrant_false in E as [(?&?&?&?&?) ?]; [|discriminate] end.
    simpl in *. split; [apply review_run_rel_same; congruence|].
    intros o st' [= _ <-].
    apply (review_inv_same st _ w w'); [congruence|done|done|exact Hinv].
  - match goal with E : save_to_qdrant _ _ _ _ _ = _ |- _ =>
      apply save_to_qdrant_true in E as [(?&?&?&?&?) Hq] end.
    simpl in *.
    match goal with E : commit _ _ _ _ ?w2 = _ |- _ =>
      eapply (review_commit_any K _ st w w2); [exact HK|exact Hinv| | |exact E]
    end; [congruence|].
    rewrite Hq. f_equal. congruence.
Qed.

Lemma product_commit_any K n i st w0 w2 res w' v p :
  n ∈ K ->
  product_inv st w0 ->
  checkpoint_file w2 = checkpoint_file w0 ->
  qdrant w2 = <[n := (v, p)]> (qdrant w0) ->
  commit set_products 10 i st w2 = (res, w') ->
  product_run_rel K w0 w' /\
  forall o st', res = inl (o, st') -> product_inv st' w'.
Proof.
  intros HK [Hd Hp] Hc Hq Hcm.
  assert (Hframe : forall j, j ∉ K -> qdrant w2 !! j = qdrant w0 !! j).
  { intros j Hj. rewrite Hq. apply lookup_insert_ne. set_solver. }
  destruct (commit_cases set_products 10 i st w2) as [E|E];
    rewrite E in Hcm; injection Hcm as <- <-.
  - split.
    + unfold product_run_rel, done_products, loaded_checkpoint.
      rewrite Hc. by repeat split.
    + intros o st' [= _ <-].
      unfold product_inv, done_products, loaded_checkpoint.
      rewrite Hc. simpl. split; [set_solver|exact Hp].
  - split.
    + unfold product_run_rel, done_products, loaded_checkpoint. simpl.
      rewrite list_to_set_elements_L. repeat split; [set_solver|done|done].
    + intros o st' [= _ <-].
      unfold product_inv, done_products, loaded_checkpoint. simpl.
      rewrite list_to_set_elements_L. split; [set_solver|done].
Qed.

Lemma product_step_any K row st w res w' :
  (forall n, int_of_str (ProductRow.product_no row) = Some n -> n ∈ K) ->
  product_step env row st w res w' ->
  product_inv st w ->
  product_run_rel K w w' /\
  forall o st', res = inl (o, st') -> product_inv st' w'.
Proof.
  intros HK H Hinv.
  inversion H; subst; clear H;
    repeat match goal with
      | E : generate_embedding _ _ _ = _ |- _ =>
          apply generate_embedding_frame in E as (?&?&?&?&?&?)
      end.
  - split; [apply product_run_rel_refl|].
    intros o st' [= _ <-]. by eapply product_inv_same.
  - split; [apply product_run_rel_refl|].
    intros o st' [= _ <-]. by eapply product_inv_same.
  - split; [by apply product_run_rel_same|discriminate].
  - split; [by apply product_run_rel_same|].
    intros o st' [= _ <-]. by eapply product_inv_same.
  - split; [by apply product_run_rel_same|].
    intros o st' [= _ <-].
    by apply (product_inv_same st _ w (ticked w1)).
  - match goal with E : save_to_qdrant _ _ _ _ _ = _ |- _ =>
      apply save_to_qdrant_false in E as [(?&?&?&?&?) ?]; [|discriminate] end.
    simpl in *. split; [apply product_run_rel_same; congruence|discriminate].
  - match goal with E : save_to_qdrant _ _ _ _ _ = _ |- _ =>
      apply save_to_qdrant_false in E as [(?&?&?&?&?) ?]; [|discriminate] end.
    simpl in *. split; [apply product_run_rel_same; congruence|].
    intros o st' [= _ <-].
    apply (product_inv_same st _ w w'); [congruence|done|done|exact Hinv].
  - match goal with E : save_to_qdrant _ _ _ _ _ = _ |- _ =>
      apply save_to_qdrant_true in E as [(?&?&?&?&?) Hq] end.
    simpl in *.
    match goal with E : commit _ _ _ _ ?w2 = _ |- _ =>
      eapply (product_commit_any K n _ st w w2);
        [by apply HK|exact Hinv| | |exact E]
    end; [congruence|].
    rewrite Hq. f_equal. congruence.
Qed.

Lemma limited_subseteq {R} test_limit (rows xs : list R) :
  limited test_limit rows = Some xs -> xs ⊆ rows.
Proof.
  unfold limited. destruct test_limit as [n|]; [|by intros [= <-]].
  destruct (n =? 0); [by intros [= <-]|].
  destruct (n <? 0); [discriminate|]. intros [= <-].
  apply subseteq_take.
Qed.

Lemma review_points_elem row rows :
  row ∈ rows ->
  review_point_id (ReviewRow.id row) ∈ review_points (ReviewRow.id <$> rows).
Proof.
  intros H. unfold review_points. rewrite elem_of_list_to_set.
  apply list_elem_of_fmap. exists (ReviewRow.id row). split; [done|].
  apply list_elem_of_fmap. eauto.
Qed.

Lemma product_points_elem row rows n :
  row ∈ rows -> int_of_str (ProductRow.product_no row) = Some n ->
  n ∈ product_points rows.
Proof.
  intros H Hn. unfold product_points. rewrite elem_of_list_to_set.
  apply list_elem_of_omap. eauto.
Qed.

(** A review run, however it ends. *)
Lemma process_reviews_any test_limit w res w' :
  process_reviews env test_limit w = (res, w') ->
  review_run_rel (review_points (ReviewRow.id <$> review_source env)) w w'.
Proof.
  unfold process_reviews, bind, query_reviews. intros H.
  fold (review_source env) in H.
  rewrite load_checkpoint_eq, limit_rows_eq in H.
  destruct (limited test_limit (review_source env)) as [rows|] eqn:Hl.
  2:{ injection H as <- <-. apply review_run_rel_refl. }
  apply limited_subseteq in Hl.
  destruct (for_each (review_body env) rows _ w) as [r w1] eqn:Hloop.
  apply (for_each_any (review_body env) review_inv
           (review_run_rel (review_points (ReviewRow.id <$> review_source env)))
           (review_run_rel_refl _) (review_run_rel_trans _)
           (review_source env)) in Hloop; [| |exact Hl|].
  - destruct Hloop as [HT HI]. destruct r as [[os st']|e].
    + specialize (HI os st' eq_refl) as [Hd Hp]. simpl in H.
      eapply review_run_rel_trans; [exact HT|].
      assert (Hrel : review_run_rel
                (review_points (ReviewRow.id <$> review_source env)) w1
                (snd (save_checkpoint (checkpoint (set_reviews st')) w1))).
      { unfold review_run_rel, done_reviews, loaded_checkpoint. simpl.
        rewrite list_to_set_elements_L. by repeat split. }
      destruct (failed_log st'); injection H as <- <-; exact Hrel.
    + injection H as <- <-. exact HT.
  - intros x st0 w0 res0 w0' Hx Hinv Hb.
    apply review_body_inv in Hb.
    eapply review_step_any; eauto. by apply review_points_elem.
  - unfold review_inv, loop_start, done_reviews. simpl. done.
Qed.

(** A product run, however it ends. *)
Lemma process_products_any test_limit w res w' :
  process_products env test_limit w = (res, w') ->
  product_run_rel (product_points (kurly_skin_products env)) w w'.
Proof.
  unfold process_products, bind, query_products. intros H.
  rewrite load_checkpoint_eq, limit_rows_eq in H.
  destruct (limited test_limit (kurly_skin_products env)) as [rows|] eqn:Hl.
  2:{ injection H as <- <-. apply product_run_rel_refl. }
  apply limited_subseteq in Hl.
  destruct (for_each (product_body env) rows _ w) as [r w1] eqn:Hloop.
  apply (for_each_any (product_body env) product_inv
           (product_run_rel (product_points (kurly_skin_products env)))
           (product_run_rel_refl _) (product_run_rel_trans _)
           (kurly_skin_products env)) in Hloop; [| |exact Hl|].
  - destruct Hloop as [HT HI]. destruct r as [[os st']|e].
    + specialize (HI os st' eq_refl) as [Hd Hp]. simpl in H.
      eapply product_run_rel_trans; [exact HT|].
      injection H as <- <-.
      unfold product_run_rel, done_products, loaded_checkpoint. simpl.
      rewrite list_to_set_elements_L. by repeat split.
    + injection H as <- <-. exact HT.
  - intros x st0 w0 res0 w0' Hx Hinv Hb.
    apply product_body_inv in Hb.
    eapply product_step_any; eauto.
    intros n Hn. by eapply product_points_elem.
  - unfold product_inv, loop_start, done_products. simpl. done.
Qed.

End FileGrowth.

Section RetryAny.

Variable env : Env.

Lemma retry_run_rel_refl K w : retry_run_rel K w w.
Proof. split; [apply review_run_rel_refl|done]. Qed.

Lemma retry_run_rel_trans K a b c :
  retry_run_rel K a b -> retry_run_rel K b c -> retry_run_rel K a c.
Proof.
  intros [H1 H2] [H1' H2']. split; [by eapply review_run_rel_trans|congruence].
Qed.

Lemma retry_run_rel_same K w w' :
  checkpoint_file w' = checkpoint_file w -> qdrant w' = qdrant w ->
  failures_file w' = failures_file w -> retry_run_rel K w w'.
Proof. intros. split; [by apply review_run_rel_same|done]. Qed.

Lemma retry_inv_same st st' w w' :
  checkpoint_file w' = checkpoint_file w ->
  Retry.processed st ⊆ Retry.processed st' ->
  Retry.checkpoint st' = Retry.checkpoint st ->
  retry_inv st w -> retry_inv st' w'.
Proof.
  unfold retry_inv, done_reviews, loaded_checkpoint.
  intros -> Hp -> [H1 H2]. split; [set_solver|done].
Qed.

Lemma retry_step_any K args i st w res w' :
  review_point_id i ∈ K ->
  retry_step env args i st w res w' ->
  retry_inv st w ->
  retry_run_rel K w w' /\
  forall o st', res = inl (o, st') -> retry_inv st' w'.
Proof.
  intros HK H Hinv.
  inversion H; subst; clear H;
    repeat match goal with
      | E : Retry.try_embed _ _ _ = _ |- _ =>
          apply try_embed_spec in E as ((?&?&?&?&?&?) & _ & _)
      end.
  - split; [apply retry_run_rel_refl|].
    intros o st' [= _ <-]. by eapply retry_inv_same.
  - split; [apply retry_run_rel_refl|].
    intros o st' [= _ <-]. by eapply retry_inv_same.
  - split; [by apply retry_run_rel_same|discriminate].
  - split; [by apply retry_run_rel_same|].
    intros o st' [= _ <-]. by eapply retry_inv_same.
  - match goal with E : save_to_qdrant _ _ _ _ _ = _ |- _ =>
      apply save_to_qdrant_false in E as [(?&?&?&?&?) ?]; [|discriminate] end.
    simpl in *. split; [apply retry_run_rel_same; congruence|discriminate].
  - match goal with E : save_to_qdrant _ _ _ _ _ = _ |- _ =>
      apply save_to_qdrant_false in E as [(?&?&?&?&?) ?]; [|discriminate] end.
    simpl in *. split; [apply retry_run_rel_same; congruence|].
    intros o st' [= _ <-].
    apply (retry_inv_same st _ w w'); [congruence|done|done|exact Hinv].
  - match goal with E : save_to_qdrant _ _ _ _ _ = _ |- _ =>
      apply save_to_qdrant_true in E as [(?&?&?&?&?) Hq] end.
    destruct Hinv as [Hd Hp]. simpl in *. split.
    + split; [|simpl; congruence].
      unfold review_run_rel, done_reviews, loaded_checkpoint. simpl.
      rewrite list_to_set_elements_L. repeat split; [set_solver|done|].
      intros j Hj. rewrite Hq, lookup_insert_ne by set_solver. congruence.
    + intros o st' [= _ <-].
      unfold retry_inv, done_reviews, loaded_checkpoint. simpl.
      rewrite list_to_set_elements_L. split; [set_solver|done].
Qed.

(** A run of the recovery driver, however it ends. *)
Lemma retry_main_any args w ids res w' :
  Retry.pending env args w = (inl (Some ids), w) ->
  Retry.main env args w = (res, w') ->
  retry_run_rel (review_points ids) w w'.
Proof.
  intros Hp H. unfold Retry.main, bind in H. rewrite Hp in H.
  destruct ids as [|i ids].
  { injection H as <- <-. apply retry_run_rel_refl. }
  rewrite load_checkpoint_eq in H.
  destruct (for_each (Retry.retry_body env args) (i :: ids) _ w)
    as [r w1] eqn:Hloop.
  apply (for_each_any (Retry.retry_body env args) retry_inv
           (retry_run_rel (review_points (i :: ids)))
           (retry_run_rel_refl _) (retry_run_rel_trans _) (i :: ids))
    in Hloop; [| |done|].
  - destruct Hloop as [HT _].
    destruct r as [[os st']|e]; injection H as <- <-; exact HT.
  - intros x st0 w0 res0 w0' Hx Hinv Hb. apply retry_body_inv in Hb.
    eapply retry_step_any; eauto.
    unfold review_points. rewrite elem_of_list_to_set.
    apply list_elem_of_fmap. eauto.
  - unfold retry_inv, done_reviews. simpl. done.
Qed.

End RetryAny.

Section RunsAny.

Variable env : Env.

Lemma review_points_above ids j :
  Forall (fun i => 0 <= i) ids -> j < 10000000 -> j ∉ review_points ids.
Proof.
  intros Hall Hj. unfold review_points. rewrite elem_of_list_to_set.
  intros (i & -> & Hi)%list_elem_of_fmap.
  rewrite Forall_forall in Hall. apply Hall in Hi.
  unfold review_point_id, REVIEW_OFFSET in Hj. lia.
Qed.

End RunsAny.

(** X7: however a review run ends (completed, interrupted, or stopped by
    the failed query), the only points of the index that may have changed
    are the points of reviews of the source. When the review identifiers are
    not negative, no point below 10,000,000, that is no product point in its
    range, has changed. A run that completes leaves the review identifiers
    that were in the checkpoint file in the file, and its product list as it
    was. *)
Theorem review_run_changes_own_points (env : Env) (test_limit : option Z)
    (w w' : World) (res : Initial.Report + exn) :
  Initial.process_reviews env test_limit w = (res, w') ->
  (forall j,
     j ∉ review_points (ReviewRow.id <$> review_source env) ->
     qdrant w' !! j = qdrant w !! j) /\
  (Forall (fun i => 0 <= i) (ReviewRow.id <$> review_source env) ->
   forall j, j < 10000000 -> qdrant w' !! j = qdrant w !! j) /\
  (forall report,
     res = inl report ->
     done_reviews w ⊆ done_reviews w' /\
     products (loaded_checkpoint w') = products (loaded_checkpoint w)).
Proof.
  intros H. apply process_reviews_any in H as (H1 & H2 & H3).
  split; [exact H3|]. split; [|done].
  intros Hall j Hj. apply H3. by apply review_points_above.
Qed.

(** Three reviews are written and the fourth call is interrupted: point 7
    is as it was. *)
Lemma review_run_changes_own_points_witness :
  fst MoreExamples.interrupted_run = inr KeyboardInterrupt /\
  qdrant (snd MoreExamples.interrupted_run) !! 7 = qdrant Examples.fresh !! 7.
Proof.
  split; [vm_compute; reflexivity|].
  refine (proj1 (proj2
    (review_run_changes_own_points Examples.interrupted_at_fourth None
       Examples.fresh (snd MoreExamples.interrupted_run)
       (fst MoreExamples.interrupted_run) _)) _ 7 _).
  - vm_compute. reflexivity.
  - apply (bool_decide_unpack _). vm_compute. exact I.
  - lia.
Defined.

(** X8: however a product run ends, the only points of the index that may
    have changed are those numbered by the product numbers of the table. A
    run that completes leaves the product identifiers that were in the
    checkpoint file in the file, and its review list as it was. *)
Theorem product_run_changes_own_points (env : Env) (test_limit : option Z)
    (w w' : World) (res : Initial.Report + exn) :
  Initial.process_products env test_limit w = (res, w') ->
  (forall j,
     j ∉ product_points (kurly_skin_products env) ->
     qdrant w' !! j = qdrant w !! j) /\
  (forall report,
     res = inl report ->
     done_products w ⊆ done_products w' /\
     reviews (loaded_checkpoint w') = reviews (loaded_checkpoint w)).
Proof.
  intros H. apply process_products_any in H as (H1 & H2 & H3).
  split; [exact H3|done].
Qed.

Lemma product_run_changes_own_points_witness :
  done_products Examples.three_done
    ⊆ done_products (snd MoreExamples.product_resume_run) /\
  reviews (loaded_checkpoint (snd MoreExamples.product_resume_run))
  = reviews (loaded_checkpoint Examples.three_done).
Proof.
  refine (proj2
    (product_run_changes_own_points Examples.resumed None Examples.three_done
       (snd MoreExamples.product_resume_run)
       (fst MoreExamples.product_resume_run) _)
    (Examples.report_of Examples.no_report MoreExamples.product_resume_run) _).
  - vm_compute. reflexivity.
  - vm_compute. reflexivity.
Defined.

(** X10: however a run of the recovery driver ends, it leaves the ledger
    file as it is and changes at most the points of the pending reviews. As
    the ledger is never rewritten, a second run in ledger mode retries the
    same identifiers, those already saved included. A run that completes
    leaves the review identifiers that were in the checkpoint file in the
    file, and its product list as it was. *)
Theorem retry_run_leaves_ledger (env : Env) (args : Retry.Args) (w w' : World)
    (res : option Retry.Report + exn) :
  Retry.main env args w = (res, w') ->
  failures_file w' = failures_file w /\
  (forall ids,
     Retry.pending env args w = (inl (Some ids), w) ->
     forall j, j ∉ review_points ids -> qdrant w' !! j = qdrant w !! j) /\
  (Retry.from_db args = false ->
   fst (Retry.pending env args w') = fst (Retry.pending env args w)) /\
  (forall report,
     res = inl report ->
     done_reviews w ⊆ done_reviews w' /\
     products (loaded_checkpoint w') = products (loaded_checkpoint w)).
Proof.
  intros H.
  assert (Hrel : exists K, retry_run_rel K w w' /\
            forall ids, Retry.pending env args w = (inl (Some ids), w) ->
                        K = review_points ids).
  { destruct (Retry.pending env args w) as [r w1] eqn:Hp.
    pose proof (pending_world env _ _ _ _ Hp) as ->.
    destruct (pending_result env _ _ _ _ Hp) as [[ids|] ->].
    - exists (review_points ids). split; [by eapply retry_main_any|].
      by intros ids' [= <-].
    - exists ∅. unfold Retry.main, bind in H. rewrite Hp in H.
      injection H as <- <-. split; [apply retry_run_rel_refl|discriminate]. }
  destruct Hrel as (K & ((H1 & H2 & H3) & H4) & HK).
  split; [exact H4|]. split; [|split; [|done]].
  - intros ids Hp j Hj. apply H3. by rewrite (HK ids Hp).
  - intros Hdb. unfold Retry.pending. rewrite Hdb.
    unfold bind, Retry.load_failures. rewrite H4.
    by destruct (failures_file w).
Qed.

Lemma retry_run_leaves_ledger_witness :
  failures_file (snd MoreExamples.ledger_run)
    = failures_file MoreExamples.ledger_world /\
  fst (Retry.pending MoreExamples.ledger_env Examples.retry_ledger
                     (snd MoreExamples.ledger_run))
  = fst (Retry.pending MoreExamples.ledger_env Examples.retry_ledger
                       MoreExamples.ledger_world).
Proof.
  destruct (retry_run_leaves_ledger MoreExamples.ledger_env
              Examples.retry_ledger MoreExamples.ledger_world
              (snd MoreExamples.ledger_run) (fst MoreExamples.ledger_run))
    as (H1 & _ & H3 & _).
  - vm_compute. reflexivity.
  - split; [exact H1|]. apply H3. reflexivity.
Defined.

Section Completed.

Variable env : Env.

Import Initial.

Lemma count_classes os :
  count_if is_success os + count_if is_skip os + count_if is_fail os
  = Z.of_nat (length os).
Proof.
  induction os as [|o os IH]; [done|].
  simpl length. rewrite Nat2Z.inj_succ. simpl. destruct o; simpl; lia.
Qed.

(** An iteration changes the index only by storing its own point, and it
    does so exactly when it ends in [SUCCESS]. *)
Lemma review_step_index row st w o st' w' :
  review_step env row st w (inl (o, st')) w' ->
  (o <> SUCCESS /\ qdrant w' = qdrant w) \/
  (o = SUCCESS /\
   exists v p, qdrant w' = <[review_point_id (ReviewRow.id row) := (v, p)]>
                             (qdrant w)).
Proof.
  intros H. inversion H; subst; clear H;
    repeat match goal with
      | E : generate_embedding _ _ _ = _ |- _ =>
          apply generate_embedding_frame in E as (?&?&?&?&?&?)
      end; try (left; split; [discriminate|done]).
  - match goal with E : save_to_qdrant _ _ _ _ _ = _ |- _ =>
      apply save_to_qdrant_false in E as [_ ?]; [|discriminate] end.
    left. split; [discriminate|]. simpl in *. congruence.
  - match goal with E : save_to_qdrant _ _ _ _ _ = _ |- _ =>
      apply save_to_qdrant_true in E as [_ Hq] end.
    match goal with E : commit _ _ _ _ _ = _ |- _ =>
      apply commit_spec in E as (st2 & E2 & _ & _ & _ & _ & _ & Hw & _);
        [|by right] end.
    injection E2 as -> ->. destruct Hw as (_ & _ & Hq' & _).
    right. split; [done|]. do 2 eexists. rewrite Hq', Hq. simpl.
    f_equal. done.
Qed.

Lemma product_step_index row st w o st' w' :
  product_step env row st w (inl (o, st')) w' ->
  (o <> SUCCESS /\ qdrant w' = qdrant w) \/
  (o = SUCCESS /\
   exists n v p, int_of_str (ProductRow.product_no row) = Some n /\
                 qdrant w' = <[n := (v, p)]> (qdrant w)).
Proof.
  intros H. inversion H; subst; clear H;
    repeat match goal with
      | E : generate_embedding _ _ _ = _ |- _ =>
          apply generate_embedding_frame in E as (?&?&?&?&?&?)
      end; try (left; split; [discriminate|done]).
  - match goal with E : save_to_qdrant _ _ _ _ _ = _ |- _ =>
      apply save_to_qdrant_false in E as [_ ?]; [|discriminate] end.
    left. split; [discriminate|]. simpl in *. congruence.
  - match goal with E : save_to_qdrant _ _ _ _ _ = _ |- _ =>
      apply save_to_qdrant_true in E as [_ Hq] end.
    match goal with E : commit _ _ _ _ _ = _ |- _ =>
      apply commit_spec in E as (st2 & E2 & _ & _ & _ & _ & _ & Hw & _);
        [|by left] end.
    injection E2 as -> ->. destruct Hw as (_ & _ & Hq' & _).
    right. split; [done|]. do 3 eexists. split; [eassumption|].
    rewrite Hq', Hq. simpl. f_equal. done.
Qed.

(** Points are never removed, and the point of every review that succeeded
    is in the index when the loop ends. *)
Lemma run_points rows st w os st' w' :
  run_steps (review_step env) rows st w os st' w' ->
  dom (qdrant w) ⊆ dom (qdrant w') /\
  forall i, i ∈ ids_ending is_success (ReviewRow.id <$> rows) os ->
            review_point_id i ∈ dom (qdrant w').
Proof.
  induction 1 as [st w|x xs st w o st1 w1 os st' w' Hs _ [IH1 IH2]].
  - split; [done|]. simpl. intros i Hi. by apply elem_of_nil in Hi.
  - apply review_step_index in Hs as [[Ho Hq]|[-> (v & p & Hq)]].
    + split; [by rewrite <- Hq|].
      simpl. destruct o; try done; simpl; exact IH2.
    + assert (Hd : dom (qdrant w1)
                   = {[review_point_id (ReviewRow.id x)]} ∪ dom (qdrant w))
        by (rewrite Hq; apply dom_insert_L).
      split; [set_solver|].
      simpl. intros i [->|Hi]%elem_of_cons; [set_solver|by apply IH2].
Qed.

End Completed.

(** X11: a completed run counts every row it read exactly once. The three
    counts of the report add up to the number of rows, each is the number of
    iterations that ended in the branches of its class, and the summary line
    printed at the end carries the same three numbers. *)
Theorem review_counts_add_up (env : Env) (test_limit : option Z)
    (w w' : World) (rows : list ReviewRow.t) (report : Initial.Report) :
  limited test_limit (review_source env) = Some rows ->
  Initial.process_reviews env test_limit w = (inl report, w') ->
  length (Initial.outcomes report) = length rows /\
  Initial.n_success report + Initial.n_skip report + Initial.n_fail report
    = Z.of_nat (length rows) /\
  Initial.n_success report = count_if is_success (Initial.outcomes report) /\
  Initial.n_skip report = count_if is_skip (Initial.outcomes report) /\
  Initial.n_fail report = count_if is_fail (Initial.outcomes report) /\
  stdout w' = stdout w ++ [MsgReviewSummary (Initial.n_success report)
                             (Initial.n_skip report) (Initial.n_fail report)].
Proof.
  intros Hrows H.
  apply process_reviews_inv in H
    as (rows' & st' & w1 & Hrows' & Hsteps & Hs & Hk & Hf & _ & _ & _ & _ & Ho).
  rewrite Hrows in Hrows'. injection Hrows' as <-.
  pose proof (run_steps_length _ _ _ _ _ _ _ Hsteps) as Hlen.
  pose proof (run_counts ReviewRow.id blank _ (review_step_summary env)
                _ _ _ _ _ _ Hsteps) as (_ & Hout & Hk' & Hf' & Hs' & _).
  simpl in Hk', Hf', Hs'.
  pose proof (count_classes (Initial.outcomes report)) as Hsum.
  rewrite Hs, Hk, Hf, Ho, Hout. repeat split; try done; lia.
Qed.

Lemma review_counts_add_up_witness :
  Initial.n_success (Examples.report_of Examples.no_report
                       Examples.resumed_reviews)
  + Initial.n_skip (Examples.report_of Examples.no_report
                      Examples.resumed_reviews)
  + Initial.n_fail (Examples.report_of Examples.no_report
                      Examples.resumed_reviews)
  = Z.of_nat (length Examples.five_reviews).
Proof.
  refine (proj1 (proj2
    (review_counts_add_up Examples.resumed None Examples.three_done
       (snd Examples.resumed_reviews) Examples.five_reviews
       (Examples.report_of Examples.no_report Examples.resumed_reviews)
       eq_refl _))).
  vm_compute. reflexivity.
Defined.

(** X12: the same for a product run. *)
Theorem product_counts_add_up (env : Env) (test_limit : option Z)
    (w w' : World) (rows : list ProductRow.t) (report : Initial.Report) :
  limited test_limit (kurly_skin_products env) = Some rows ->
  Initial.process_products env test_limit w = (inl report, w') ->
  length (Initial.outcomes report) = length rows /\
  Initial.n_success report + Initial.n_skip report + Initial.n_fail report
    = Z.of_nat (length rows) /\
  Initial.n_success report = count_if is_success (Initial.outcomes report) /\
  Initial.n_skip report = count_if is_skip (Initial.outcomes report) /\
  Initial.n_fail report = count_if is_fail (Initial.outcomes report) /\
  stdout w' = stdout w ++ [MsgProductSummary (Initial.n_success report)
                             (Initial.n_skip report) (Initial.n_fail report)].
Proof.
  intros Hrows H.
  apply process_products_inv in H
    as (rows' & st' & w1 & Hrows' & Hsteps & Hs & Hk & Hf & _ & _ & _ & _ & Ho).
  rewrite Hrows in Hrows'. injection Hrows' as <-.
  pose proof (run_steps_length _ _ _ _ _ _ _ Hsteps) as Hlen.
  pose proof (run_counts ProductRow.id (fun _ => false) _
                (product_step_summary env) _ _ _ _ _ _ Hsteps)
    as (_ & Hout & Hk' & Hf' & Hs' & _).
  simpl in Hk', Hf', Hs'.
  pose proof (count_classes (Initial.outcomes report)) as Hsum.
  rewrite Hs, Hk, Hf, Ho, Hout. repeat split; try done; lia.
Qed.

Lemma product_counts_add_up_witness :
  Initial.n_success (Examples.report_of Examples.no_report
                       Examples.resumed_products)
  + Initial.n_skip (Examples.report_of Examples.no_report
                      Examples.resumed_products)
  + Initial.n_fail (Examples.report_of Examples.no_report
                      Examples.resumed_products)
  = Z.of_nat (length Examples.two_products).
Proof.
  refine (proj1 (proj2
    (product_counts_add_up Examples.resumed None Examples.three_done
       (snd Examples.resumed_products) Examples.two_products
       (Examples.report_of Examples.no_report Examples.resumed_products)
       eq_refl _))).
  vm_compute. reflexivity.
Defined.

Section FinalFile.

Variable env : Env.

Import Initial.

(** The checkpoint file a completed review run leaves holds the identifiers
    it found there and those of the reviews that succeeded, and the points of
    these are in the index. *)
Lemma completed_reviews_file test_limit w w' rows report :
  limited test_limit (review_source env) = Some rows ->
  process_reviews env test_limit w = (inl report, w') ->
  done_reviews w'
    = done_reviews w
      ∪ list_to_set (ids_ending is_success (ReviewRow.id <$> rows)
                                (outcomes report)) /\
  (forall i,
     i ∈ ids_ending is_success (ReviewRow.id <$> rows) (outcomes report) ->
     is_Some (qdrant w' !! review_point_id i)) /\
  dom (qdrant w) ⊆ dom (qdrant w').
Proof.
  intros Hrows H.
  apply process_reviews_inv in H
    as (rows' & st' & w1 & Hrows' & Hsteps & _ & _ & _ & Hfile & _ & Hq & _).
  rewrite Hrows in Hrows'. injection Hrows' as <-.
  pose proof (run_counts ReviewRow.id blank _ (review_step_summary env)
                _ _ _ _ _ _ Hsteps) as (_ & _ & _ & _ & _ & Hp).
  pose proof (run_points env _ _ _ _ _ _ Hsteps) as [Hd Hin].
  simpl in Hp. rewrite Hq. split; [|split; [|done]].
  - unfold done_reviews at 1. unfold loaded_checkpoint. rewrite Hfile. simpl.
    rewrite list_to_set_elements_L. exact Hp.
  - intros i Hi. apply elem_of_dom. by apply Hin.
Qed.

Lemma ids_ending_subseteq {O} (f : O -> bool) ids os :
  ids_ending f ids os ⊆ ids.
Proof.
  revert os. induction ids as [|i ids IH]; intros [|o os]; simpl; try done.
  - set_solver.
  - specialize (IH os). destruct (f o); set_solver.
Qed.

(** With distinct identifiers, an identifier is among those that ended in a
    branch exactly when its own iteration ended there. *)
Lemma ids_ending_elem {O} (f : O -> bool) ids os k i o :
  NoDup ids -> ids !! k = Some i -> os !! k = Some o ->
  i ∈ ids_ending f ids os <-> f o = true.
Proof.
  revert os k. induction ids as [|j ids IH]; intros [|o' os] k Hnd Hi Ho;
    try done.
  apply NoDup_cons in Hnd as [Hj Hnd].
  destruct k as [|k]; simpl in Hi, Ho.
  - injection Hi as ->. injection Ho as ->. simpl.
    destruct (f o) eqn:Hf.
    + split; [done|]. intros _. set_solver.
    + split; [|done]. intros Hin.
      apply ids_ending_subseteq in Hin. done.
  - simpl. rewrite <- (IH os k Hnd Hi Ho).
    assert (i <> j).
    { intros ->. apply Hj. by eapply list_elem_of_lookup_2. }
    destruct (f o'); set_solver.
Qed.

End FinalFile.

(** X13: the checkpoint file that a completed review run leaves holds
    exactly the identifiers it held before and those of the reviews that
    succeeded in the run; the point of each of these is in the index, and no
    point that was in the index has been removed. *)
Theorem completed_run_checkpoint (env : Env) (test_limit : option Z)
    (w w' : World) (rows : list ReviewRow.t) (report : Initial.Report) :
  limited test_limit (review_source env) = Some rows ->
  Initial.process_reviews env test_limit w = (inl report, w') ->
  done_reviews w'
    = done_reviews w
      ∪ list_to_set (ids_ending is_success (ReviewRow.id <$> rows)
                                (Initial.outcomes report)) /\
  (forall i,
     i ∈ ids_ending is_success (ReviewRow.id <$> rows)
                    (Initial.outcomes report) ->
     is_Some (qdrant w' !! review_point_id i)) /\
  dom (qdrant w) ⊆ dom (qdrant w').
Proof. apply completed_reviews_file. Qed.

(** The end-to-end scenario: the checkpoint holds 10 and 30, the ledger
    lists 20, and the summary reports 2 successes, 0 skips and 1 failure. *)
Lemma completed_run_checkpoint_witness :
  done_reviews (snd Scenario.first_run) = {[10; 30]} /\
  fst Scenario.first_run
    = inl (Initial.mkReport 2 0 1
             [Initial.SUCCESS; Initial.EMBED_FAIL; Initial.SUCCESS]) /\
  (Failure.review_id <$> default [] (failures_file (snd Scenario.first_run)))
    = [Some 20].
Proof.
  destruct (completed_run_checkpoint Scenario.env None Examples.fresh
              (snd Scenario.first_run) Scenario.source
              (Examples.report_of Examples.no_report Scenario.first_run)
              eq_refl) as (H & _).
  - vm_compute. reflexivity.
  - split; [|split; vm_compute; reflexivity].
    rewrite H. vm_compute. reflexivity.
Defined.

(** X14: resumption across runs. When a review run has completed and a
    second run over the same source with distinct identifiers completes too,
    the second run skips at the checkpoint test exactly the reviews that the
    first run skipped there or wrote successfully; the reviews that failed in
    the first run are tried again. *)
Theorem second_run_skips_successes (env : Env) (test_limit : option Z)
    (w w1 w2 : World) (rows : list ReviewRow.t) (r1 r2 : Initial.Report) :
  limited test_limit (review_source env) = Some rows ->
  NoDup (ReviewRow.id <$> rows) ->
  Initial.process_reviews env test_limit w = (inl r1, w1) ->
  Initial.process_reviews env test_limit w1 = (inl r2, w2) ->
  forall k o1 o2,
    Initial.outcomes r1 !! k = Some o1 ->
    Initial.outcomes r2 !! k = Some o2 ->
    (o2 = Initial.SKIP <-> o1 = Initial.SKIP \/ o1 = Initial.SUCCESS).
Proof.
  intros Hrows Hnd H1 H2 k o1 o2 Ho1 Ho2.
  pose proof (completed_reviews_file env _ _ _ _ _ Hrows H1) as (Hfile & _).
  pose proof (review_resume env _ _ _ _ _ Hrows Hnd H1) as [Hg1 _].
  pose proof (review_resume env _ _ _ _ _ Hrows Hnd H2) as [Hg2 _].
  cbv zeta in Hg1, Hg2. fold (done_reviews w) in Hg1.
  fold (done_reviews w1) in Hg2.
  destruct (Forall2_lookup_r _ _ _ _ _ Hg1 Ho1) as (row & Hrow & Hs1 & _).
  pose proof (Forall2_lookup_lr _ _ _ _ _ _ Hg2 Hrow Ho2) as [Hs2 _].
  assert (Hid : (ReviewRow.id <$> rows) !! k = Some (ReviewRow.id row))
    by (rewrite list_lookup_fmap, Hrow; done).
  pose proof (ids_ending_elem is_success _ _ _ _ _ Hnd Hid Ho1) as Hsucc.
  rewrite Hs2, Hfile, elem_of_union, elem_of_list_to_set, Hsucc, <- Hs1.
  split; (intros [?|Hx]; [by left|right]).
  - by destruct o1.
  - by rewrite Hx.
Qed.

(** The scenario run twice: the second run skips reviews 10 and 30 and tries
    review 20 again. *)
Lemma second_run_skips_successes_witness :
  Initial.outcomes (Examples.report_of Examples.no_report Scenario.first_run)
    !! 0%nat = Some Initial.SUCCESS /\
  Initial.outcomes (Examples.report_of Examples.no_report Scenario.second_run)
    !! 0%nat = Some Initial.SKIP /\
  (Initial.SKIP = Initial.SKIP <->
   Initial.SUCCESS = Initial.SKIP \/ Initial.SUCCESS = Initial.SUCCESS).
Proof.
  split; [vm_compute; reflexivity|]. split; [vm_compute; reflexivity|].
  apply (second_run_skips_successes Scenario.env None Examples.fresh
           (snd Scenario.first_run) (snd Scenario.second_run) Scenario.source
           (Examples.report_of Examples.no_report Scenario.first_run)
           (Examples.report_of Examples.no_report Scenario.second_run))
    with (k := 0%nat).
  - reflexivity.
  - apply (bool_decide_unpack _). vm_compute. exact I.
  - vm_compute. reflexivity.
  - vm_compute. reflexivity.
  - vm_compute. reflexivity.
  - vm_compute. reflexivity.
Defined.

Section RetryEdges.

Variable env : Env.

Lemma retry_step_summary args i st w o st' w' :
  retry_step env args i st w (inl (o, st')) w' ->
  Retry.success st' = Retry.success st + b2z (is_saved o) /\
  Retry.failures st' = Retry.failures st + b2z (negb (is_saved o)) /\
  (o = Retry.NOT_IN_DB <-> lookup_row env i = None) /\
  (o = Retry.NO_CONTENTS <->
   exists row, lookup_row env i = Some row /\ blank row = true) /\
  (o = Retry.NOT_IN_DB \/ o = Retry.NO_CONTENTS -> w' = w).
Proof.
  intros H. inversion H; subst; clear H;
    try match goal with E : strip _ = [] |- _ =>
      assert (Hb : blank row = true) by (unfold blank; by rewrite E) end;
    try match goal with E : strip _ <> [] |- _ =>
      assert (Hb : blank row = false)
        by (unfold blank; by rewrite not_empty_truthy) end;
    (split; [simpl; lia|]); (split; [simpl; lia|]);
    (split; [split; [intros; first [discriminate|done]
                    |intros; first [done|congruence]]|]);
    (split; [split; [intros; first [discriminate|eauto]
                    |intros (row' & Hr & Hb');
                     first [reflexivity|congruence]]|]);
    intros [|]; first [discriminate|reflexivity].
Qed.

Lemma retry_run_counts args ids st w os st' w' :
  run_steps (retry_step env args) ids st w os st' w' ->
  Retry.success st' = Retry.success st + count_if is_saved os /\
  Retry.failures st'
    = Retry.failures st + count_if (fun o => negb (is_saved o)) os /\
  Forall2 (fun i o =>
             (o = Retry.NOT_IN_DB <-> lookup_row env i = None) /\
             (o = Retry.NO_CONTENTS <->
              exists row, lookup_row env i = Some row /\ blank row = true))
          ids os.
Proof.
  induction 1 as [st w|x xs st w o st1 w1 os st' w' Hs _ (IH1 & IH2 & IH3)].
  - simpl. rewrite !Z.add_0_r. repeat split. constructor.
  - apply retry_step_summary in Hs as (H1 & H2 & H3 & H4 & _).
    simpl. repeat split; try lia. constructor; [done|exact IH3].
Qed.

Lemma count_saved_or_not os :
  count_if is_saved os + count_if (fun o => negb (is_saved o)) os
  = Z.of_nat (length os).
Proof.
  induction os as [|o os IH]; [done|].
  simpl length. rewrite Nat2Z.inj_succ. simpl. destruct (is_saved o); simpl; lia.
Qed.

Lemma merge_sort_nil : merge_sort Z.le [] = [].
Proof. reflexivity. Qed.

End RetryEdges.

(** X15: the recovery driver returns at once, without a call to any service
    and without writing any file, when there is nothing to retry: in ledger
    mode when the ledger file does not exist or lists no usable identifier,
    and with [--from-db] when every review of the source is already in the
    checkpoint. *)
Theorem retry_nothing_to_do (env : Env) (args : Retry.Args) (w : World) :
  (Retry.from_db args = false /\
   omap Retry.ledger_id (default [] (failures_file w)) = []) \/
  (Retry.from_db args = true /\
   Forall (fun i => i ∈ done_reviews w) (ReviewRow.id <$> review_source env)) ->
  Retry.main env args w = (inl None, w).
Proof.
  intros [[Hdb Hl]|[Hdb Hall]]; unfold Retry.main, bind.
  - unfold Retry.pending, bind, Retry.load_failures. rewrite Hdb.
    destruct (failures_file w) as [entries|]; [|done].
    simpl in Hl. by rewrite Hl.
  - rewrite (pending_from_db env args w Hdb).
    replace ((list_to_set (ReviewRow.id <$> review_source env) : gset Z)
               ∖ list_to_set (reviews (loaded_checkpoint w))) with (∅ : gset Z).
    + by rewrite elements_empty.
    + symmetry. apply set_eq. intros i.
      rewrite elem_of_difference, elem_of_list_to_set.
      split; [|set_solver]. intros [Hi Hn].
      rewrite Forall_forall in Hall. by apply Hall in Hi.
Qed.

(** No ledger file; and a source of five reviews of which the recovery
    driver finds all in the checkpoint that the resumed run left. *)
Lemma retry_nothing_to_do_witness :
  Retry.main (Examples.healthy [] []) Examples.retry_ledger Examples.fresh
    = (inl None, Examples.fresh) /\
  Retry.main Examples.resumed Examples.retry_default
             (snd Examples.resumed_reviews)
    = (inl None, snd Examples.resumed_reviews).
Proof.
  split.
  - apply (retry_nothing_to_do (Examples.healthy [] []) Examples.retry_ledger
             Examples.fresh).
    left. split; reflexivity.
  - apply (retry_nothing_to_do Examples.resumed Examples.retry_default
             (snd Examples.resumed_reviews)).
    right. split; [reflexivity|].
    apply (bool_decide_unpack _). vm_compute. exact I.
Defined.

(** X16: a run of the recovery driver that returns a report has made one
    attempt per pending identifier, and each attempt is counted once, as a
    success when the review was saved and as a failure otherwise. An
    identifier that is not in the table, or whose review has blank contents,
    is a failure of this kind, recognised before any call is made. *)
Theorem retry_counts_add_up (env : Env) (args : Retry.Args) (w w' : World)
    (report : Retry.Report) :
  Retry.main env args w = (inl (Some report), w') ->
  exists ids,
    Retry.pending env args w = (inl (Some ids), w) /\
    length (Retry.outcomes report) = length ids /\
    Retry.n_success report + Retry.n_fail report = Z.of_nat (length ids) /\
    Retry.n_success report = count_if is_saved (Retry.outcomes report) /\
    Forall2 (fun i o =>
               (o = Retry.NOT_IN_DB <-> lookup_row env i = None) /\
               (o = Retry.NO_CONTENTS <->
                exists row, lookup_row env i = Some row /\ blank row = true))
            ids (Retry.outcomes report).
Proof.
  intros H.
  assert (Hrep : exists st', Retry.n_success report = Retry.success st' /\
                             Retry.n_fail report = Retry.failures st' /\
            exists ids, Retry.pending env args w = (inl (Some ids), w) /\
              run_steps (retry_step env args) ids (retry_loop_start w) w
                        (Retry.outcomes report) st' w').
  { unfold Retry.main, bind in H.
    destruct (Retry.pending env args w) as [[[ids|]|e] w1] eqn:Hp;
      try discriminate.
    pose proof (pending_world env _ _ _ _ Hp) as ->.
    destruct ids as [|i ids]; [discriminate|].
    rewrite load_checkpoint_eq in H.
    destruct (for_each (Retry.retry_body env args) (i :: ids) _ w)
      as [[[os st']|e] w2] eqn:Hloop; [|discriminate].
    injection H as <- <-.
    apply (for_each_run _ _ (retry_body_inv env args)) in Hloop.
    exists st'. simpl. repeat split. exists (i :: ids). by split. }
  destruct Hrep as (st' & Hs & Hf & ids & Hp & Hsteps).
  exists ids. split; [exact Hp|].
  pose proof (run_steps_length _ _ _ _ _ _ _ Hsteps) as Hlen.
  pose proof (retry_run_counts env _ _ _ _ _ _ _ Hsteps) as (H1 & H2 & H3).
  pose proof (count_saved_or_not (Retry.outcomes report)) as Hsum.
  simpl in H1, H2. repeat split; try done; lia.
Qed.

(** Ledger mode for reviews 4 and 7, of which only review 4 exists: one
    success and one failure. *)
Lemma retry_counts_add_up_witness :
  exists ids,
    Retry.pending MoreExamples.ledger_env Examples.retry_ledger
                  MoreExamples.ledger_world
      = (inl (Some ids), MoreExamples.ledger_world) /\
    length (Retry.outcomes (Retry.mkReport 1 1 [Retry.SAVED false;
                                                Retry.NOT_IN_DB]))
      = length ids /\
    1 + 1 = Z.of_nat (length ids).
Proof.
  destruct (retry_counts_add_up MoreExamples.ledger_env Examples.retry_ledger
              MoreExamples.ledger_world (snd MoreExamples.ledger_run)
              (Retry.mkReport 1 1 [Retry.SAVED false; Retry.NOT_IN_DB]))
    as (ids & Hp & Hl & Hs & _).
  - vm_compute. reflexivity.
  - exists ids. repeat split; assumption.
Defined.

Section Calls.

Variable env : Env.

Import Initial.

Lemma generate_embedding_posts text w r w' :
  generate_embedding env text w = (r, w') ->
  1 <= posts_between w w' <= 3 /\ puts_between w w' = 0.
Proof.
  intros H. apply generate_embedding_from_posts in H as (k & Hk & Hk0 & -> & _).
  assert (k <> 0%nat) by (apply Hk0; discriminate).
  unfold posts_between, puts_between, posted. simpl.
  rewrite length_app, length_replicate. lia.
Qed.

Lemma save_to_qdrant_puts pid v p w r w' :
  save_to_qdrant env pid v p w = (r, w') ->
  posts_between w w' = 0 /\ 0 <= puts_between w w' <= 3 /\
  (r = inl true -> 1 <= puts_between w w') /\
  (r = inl false -> puts_between w w' = 0 \/ puts_between w w' = 3).
Proof.
  intros H.
  pose proof (save_to_qdrant_from_spec env _ _ _ _ _ _ _ H) as [(He & _) _].
  pose proof (save_to_qdrant_from_calls env _ _ _ _ _ _ _ H)
    as (Hc & Hn & Ht & Hf & _).
  unfold posts_between, puts_between. rewrite He.
  split; [lia|]. split; [lia|]. split.
  - intros Hr. destruct (Ht Hr). lia.
  - intros Hr. destruct (encodable v) eqn:Hv.
    + destruct (Hf eq_refl Hr). right. lia.
    + destruct (Hn eq_refl) as [_ ->]. left. lia.
Qed.

Lemma commit_calls set_kind cadence i st w res w' :
  commit set_kind cadence i st w = (res, w') ->
  posts_between w w' = 0 /\ puts_between w w' = 0.
Proof.
  intros H. destruct (commit_cases set_kind cadence i st w) as [E|E];
    rewrite E in H; injection H as <- <-;
    unfold posts_between, puts_between; simpl; lia.
Qed.

(** The calls of one review iteration, by the branch it ends in. *)
Lemma review_step_calls row st w o st' w' :
  review_step env row st w (inl (o, st')) w' ->
  (is_skip o = true -> w' = w) /\
  (is_skip o = false -> 1 <= posts_between w w' <= 3) /\
  (is_written o = false -> puts_between w w' = 0) /\
  (o = SUCCESS -> 1 <= puts_between w w' <= 3) /\
  (o = WRITE_FAIL -> puts_between w w' = 0 \/ puts_between w w' = 3).
Proof.
  intros H. inversion H; subst; clear H;
    repeat match goal with
      | E : generate_embedding _ _ _ = _ |- _ =>
          apply generate_embedding_posts in E
      | E : save_to_qdrant _ _ _ _ _ = _ |- _ =>
          apply save_to_qdrant_puts in E as (? & ? & Ht & Hf)
      end.
  - unfold puts_between. repeat split; try done; intros; lia.
  - unfold puts_between. repeat split; try done; intros; lia.
  - repeat split; try done; intros; lia.
  - unfold posts_between, puts_between in *. simpl in *.
    specialize (Hf eq_refl). repeat split; try done; intros; lia.
  - match goal with E : commit _ _ _ _ _ = _ |- _ =>
      pose proof (commit_calls _ _ _ _ _ _ _ E) as Hc;
      apply commit_spec in E as (st2 & E2 & _); [|by right] end.
    injection E2 as -> ->.
    unfold posts_between, puts_between in *. simpl in *.
    specialize (Ht eq_refl). repeat split; try done; intros; lia.
Qed.

Lemma review_step_totals row st w o st' w' :
  review_step env row st w (inl (o, st')) w' ->
  b2z (is_embedded o) <= posts_between w w' <= 3 * b2z (is_embedded o) /\
  b2z (is_success o) <= puts_between w w' <= 3 * b2z (is_written o).
Proof.
  intros H. apply review_step_calls in H as (H1 & H2 & H3 & H4 & H5).
  unfold is_embedded. destruct o; simpl in *;
    try (rewrite (H1 eq_refl); unfold posts_between, puts_between; lia);
    try specialize (H2 eq_refl); try specialize (H3 eq_refl);
    try specialize (H4 eq_refl); try specialize (H5 eq_refl); lia.
Qed.

Lemma review_run_calls rows st w os st' w' :
  run_steps (review_step env) rows st w os st' w' ->
  count_if is_embedded os <= posts_between w w' <= 3 * count_if is_embedded os /\
  count_if is_success os <= puts_between w w' <= 3 * count_if is_written os.
Proof.
  induction 1 as [st w|x xs st w o st1 w1 os st' w' Hs _ IH].
  - unfold posts_between, puts_between. simpl. lia.
  - apply review_step_totals in Hs. simpl.
    unfold posts_between, puts_between in *. lia.
Qed.

End Calls.

(** X17: the calls of the review loop, iteration by iteration. An iteration
    that skips its review, for being in the checkpoint or for having blank
    contents, leaves the world as it was. Every other iteration sends
    between one and three POSTs to the embedding service. No PUT is sent
    unless the iteration reaches the index writer; one that ends in
    [SUCCESS] sent between one and three PUTs, and one whose write failed
    sent three, or none when the vector could not be encoded. Over a
    completed run the POSTs and PUTs are bounded accordingly. *)
Theorem review_call_counts (env : Env) :
  (forall row st w o st' w',
     Initial.review_body env row st w = (inl (o, st'), w') ->
     (is_skip o = true -> w' = w) /\
     (is_skip o = false -> 1 <= posts_between w w' <= 3) /\
     (is_written o = false -> puts_between w w' = 0) /\
     (o = Initial.SUCCESS -> 1 <= puts_between w w' <= 3) /\
     (o = Initial.WRITE_FAIL ->
      puts_between w w' = 0 \/ puts_between w w' = 3)) /\
  (forall test_limit w report w',
     Initial.process_reviews env test_limit w = (inl report, w') ->
     count_if is_embedded (Initial.outcomes report) <= posts_between w w'
       <= 3 * count_if is_embedded (Initial.outcomes report) /\
     count_if is_success (Initial.outcomes report) <= puts_between w w'
       <= 3 * count_if is_written (Initial.outcomes report)).
Proof.
  split.
  - intros row st w o st' w' H. apply review_body_inv in H.
    exact (review_step_calls env _ _ _ _ _ _ H).
  - intros test_limit w report w' H.
    apply process_reviews_chain in H
      as (rows & st' & w1 & _ & Hch & _ & _ & _ & _ & _ & _ & He & Hp & _).
    pose proof (iterates_steps _ _ _ _ _ _ _ _ (review_body_inv env) Hch)
      as Hsteps.
    apply review_run_calls in Hsteps.
    unfold posts_between, puts_between in *. rewrite He, Hp. exact Hsteps.
Qed.

(** The scenario: the iteration of review 10 costs one POST and one PUT,
    and the run, in which review 20 costs three POSTs and no PUT, five POSTs
    and two PUTs. *)
Lemma review_call_counts_witness :
  1 <= posts_between Examples.fresh
         (snd (Initial.review_body Scenario.env
                 (Examples.review 10 [Examples.ascii_a])
                 (loop_start [] Examples.fresh) Examples.fresh)) <= 3 /\
  posts_between Examples.fresh (snd Scenario.first_run) = 5 /\
  puts_between Examples.fresh (snd Scenario.first_run) = 2.
Proof.
  split; [|split; vm_compute; reflexivity].
  refine (proj1 (proj2 (proj1 (review_call_counts Scenario.env)
    (Examples.review 10 [Examples.ascii_a]) (loop_start [] Examples.fresh)
    Examples.fresh Initial.SUCCESS
    (snd (Examples.report_of (Initial.ERROR, loop_start [] Examples.fresh)
            (Initial.review_body Scenario.env
               (Examples.review 10 [Examples.ascii_a])
               (loop_start [] Examples.fresh) Examples.fresh)))
    _ _)) eq_refl).
  vm_compute. reflexivity.
Defined.

Section ProductErrors.

Variable env : Env.

Import Initial.



End ProductErrors.



(** X19: the row limit of a test run. [--test 0] is the same as no limit,
    for both kinds, because the limit is only applied when it is truthy; a
    positive limit [n] makes a completed run handle the first [n] rows of the
    source, or all of them when there are fewer. *)
Theorem test_limit_rows (env : Env) (w : World) :
  Initial.process_reviews env (Some 0) w = Initial.process_reviews env None w /\
  Initial.process_products env (Some 0) w
    = Initial.process_products env None w /\
  (forall n report w',
     0 < n ->
     Initial.process_reviews env (Some n) w = (inl report, w') ->
     length (Initial.outcomes report)
       = Nat.min (Z.to_nat n) (length (review_source env))) /\
  (forall n report w',
     0 < n ->
     Initial.process_products env (Some n) w = (inl report, w') ->
     length (Initial.outcomes report)
       = Nat.min (Z.to_nat n) (length (kurly_skin_products env))).
Proof.
  split; [reflexivity|]. split; [reflexivity|]. split.
  - intros n report w' Hn H.
    apply process_reviews_inv in H as (rows & st' & w1 & Hrows & Hsteps & _).
    apply run_steps_length in Hsteps. rewrite Hsteps.
    unfold limited in Hrows.
    destruct (Z.eqb_spec n 0); [lia|]. destruct (Z.ltb_spec n 0); [lia|].
    injection Hrows as <-. apply length_take.
  - intros n report w' Hn H.
    apply process_products_inv in H as (rows & st' & w1 & Hrows & Hsteps & _).
    apply run_steps_length in Hsteps. rewrite Hsteps.
    unfold limited in Hrows.
    destruct (Z.eqb_spec n 0); [lia|]. destruct (Z.ltb_spec n 0); [lia|].
    injection Hrows as <-. apply length_take.
Qed.

(** A run limited to two of five reviews. *)
Lemma test_limit_rows_witness :
  length (Initial.outcomes
            (Examples.report_of Examples.no_report EdgeExamples.limited_run))
  = Nat.min (Z.to_nat 2) (length (review_source Examples.resumed)).
Proof.
  refine (proj1 (proj2 (proj2
    (test_limit_rows Examples.resumed Examples.fresh))) 2
    (Examples.report_of Examples.no_report EdgeExamples.limited_run)
    (snd EdgeExamples.limited_run) _ _).
  - lia.
  - vm_compute. reflexivity.
Defined.

(** ** The notice text *)

Lemma join_nil_inv (sep : pystr) (l : list pystr) :
  Forall (fun s => s <> []) l -> join sep l = [] -> l = [].
Proof.
  intros Hl. destruct Hl as [|x l Hx Hl]; [done|].
  simpl. destruct l; [done|]. by destruct x.
Qed.

Lemma notice_sentence_blank (item : Notice) :
  Initial.notice_sentence item = None <->
  strip (default [] (title item)) = [] \/
  strip (default [] (description item)) = [].
Proof.
  unfold Initial.notice_sentence.
  destruct (strip (default [] (title item))) as [|a t];
    destruct (strip (default [] (description item))) as [|b d]; simpl;
    split; auto; try discriminate; intros [|]; discriminate.
Qed.

Lemma notice_sentence_not_empty (item : Notice) (s : pystr) :
  Initial.notice_sentence item = Some s -> s <> [].
Proof.
  unfold Initial.notice_sentence.
  destruct (_ || _); [done|].
  intros [= <-] Hs. apply (f_equal length) in Hs. revert Hs.
  repeat match goal with |- context [if ?b then _ else _] =>
    destruct b end;
    rewrite ?length_app; simpl; lia.
Qed.

Lemma len_app (a b : pystr) : len (a ++ b) = len a + len b.
Proof. unfold len. rewrite length_app. lia. Qed.

Lemma len_cons (c : N) (s : pystr) : len (c :: s) = 1 + len s.
Proof. unfold len. simpl length. lia. Qed.

Lemma short_desc_len (desc : pystr) : len (Initial.short_desc desc) <= 203.
Proof.
  unfold Initial.short_desc, len.
  destruct (Z.ltb_spec 200 (Z.of_nat (length desc))).
  - rewrite slice_to_200, length_app, length_take.
    change (length DOTS) with 3%nat. lia.
  - lia.
Qed.

(** X20: the notice text of a product. An entry whose title or description
    is missing or blank contributes nothing, wherever it stands in the list;
    every other entry contributes a sentence that is not empty, so the text
    is empty exactly when every entry is of the first kind. The sentence of
    an ingredient entry is at most 214 characters long, whatever the length
    of the description. *)
Theorem notice_text_entries :
  (forall before item after,
     strip (default [] (title item)) = [] \/
     strip (default [] (description item)) = [] ->
     Initial.notice_json_to_text (before ++ item :: after)
       = Initial.notice_json_to_text (before ++ after)) /\
  (forall notices,
     Initial.notice_json_to_text notices = [] <->
     Forall (fun item => strip (default [] (title item)) = [] \/
                         strip (default [] (description item)) = [])
            notices) /\
  (forall item s,
     before_ingredient (strip (default [] (title item))) = false ->
     contains K_INGREDIENT (strip (default [] (title item))) = true ->
     Initial.notice_sentence item = Some s ->
     len s <= 214).
Proof.
  split; [|split].
  - intros before item after Hb. apply notice_sentence_blank in Hb.
    unfold Initial.notice_json_to_text.
    rewrite !omap_app. simpl. by rewrite Hb.
  - intros notices. unfold Initial.notice_json_to_text. split.
    + intros Hj. apply join_nil_inv in Hj.
      * induction notices as [|x l IH]; [constructor|].
        simpl in Hj. destruct (Initial.notice_sentence x) eqn:Hx; [done|].
        constructor; [by apply notice_sentence_blank | by apply IH].
      * apply Forall_forall. intros s (x & _ & Hs)%list_elem_of_omap.
        by apply notice_sentence_not_empty in Hs.
    + intros Hall. induction Hall as [|x l Hx _ IH]; [done|].
      apply notice_sentence_blank in Hx. simpl. by rewrite Hx.
  - intros item s Hb Hk. unfold Initial.notice_sentence.
    destruct (_ || _); [done|].
    unfold before_ingredient in Hb.
    repeat match type of Hb with
      | _ || _ = false => apply orb_false_iff in Hb as [Hb ?]
      end.
    repeat match goal with H : ?b = false |- context [?b] => rewrite H end.
    rewrite ?Hb, Hk. cbn [orb]. intros Hs. injection Hs as <-.
    pose proof (short_desc_len
                  (strip (replace ESCAPED_NL SPACE
                            (strip (default [] (description item)))))) as Hl.
    rewrite ?len_cons, ?len_app, ?len_cons, ?len_app.
    change (len T_INGREDIENT) with 7. change (len T_IS) with 4. lia.
Qed.

(** The two blank entries are dropped around the ingredient entry, whose
    sentence keeps 200 characters of the description. *)
Lemma notice_text_entries_witness :
  Initial.notice_json_to_text
    ([EdgeExamples.no_description]
       ++ EdgeExamples.blank_title :: [Examples.long_ingredients])
  = Initial.notice_json_to_text
      ([EdgeExamples.no_description] ++ [Examples.long_ingredients]) /\
  len (T_INGREDIENT ++ replicate 200 Examples.ascii_a ++ DOTS ++ T_IS) <= 214.
Proof.
  split.
  - apply (proj1 notice_text_entries [EdgeExamples.no_description]
             EdgeExamples.blank_title [Examples.long_ingredients]).
    left. vm_compute. reflexivity.
  - apply (proj2 (proj2 notice_text_entries) Examples.long_ingredients).
    + vm_compute. reflexivity.
    + vm_compute. reflexivity.
    + vm_compute. reflexivity.
Defined.

(** ** The ledger of failed reviews *)

Lemma failure_entry_ok (row : ReviewRow.t) (e : option pystr) :
  strip (ReviewRow.contents row) <> [] ->
  preview_ok (Initial.failure_entry row e) = true /\
  Failure.contents_length (Initial.failure_entry row e)
    <= len (ReviewRow.contents row).
Proof.
  intros Hne. unfold preview_ok, Initial.failure_entry.
  cbn [Failure.contents_preview Failure.contents_length].
  change NEWLINE with [10%N]. change SPACE with [32%N].
  rewrite replace_char.
  change (slice_to 100 ?s) with (take 100 s).
  unfold len. rewrite length_fmap, length_take. split.
  - rewrite !andb_true_iff. repeat split.
    + apply Z.ltb_lt. destruct (strip (ReviewRow.contents row)); [done|].
      simpl. lia.
    + apply Z.leb_le. lia.
    + apply Z.leb_le. lia.
    + apply forallb_forall. intros c Hc.
      apply in_map_iff in Hc as (c0 & <- & _).
      destruct (N.eqb_spec 10 c0) as [|Hn]; [done|].
      apply negb_true_iff. by apply N.eqb_neq.
  - pose proof (strip_length (ReviewRow.contents row)). lia.
Qed.

Section LedgerEntries.

Variable env : Env.

Import Initial.

Lemma review_step_entries row st w o st' w' :
  review_step env row st w (inl (o, st')) w' ->
  Forall (fun f => preview_ok f = true) (failed_log st) ->
  Forall (fun f => preview_ok f = true) (failed_log st').
Proof.
  intros H Hall. inversion H; subst; clear H; simpl; try done.
  - apply Forall_app. split; [done|]. constructor; [|done].
    by apply failure_entry_ok.
  - match goal with E : commit _ _ _ _ _ = _ |- _ =>
      apply commit_spec in E as (st2 & E2 & _ & _ & _ & _ & Hl & _);
        [|by right] end.
    injection E2 as -> ->. by rewrite Hl.
Qed.

Lemma run_entries rows st w os st' w' :
  run_steps (review_step env) rows st w os st' w' ->
  Forall (fun f => preview_ok f = true) (failed_log st) ->
  Forall (fun f => preview_ok f = true) (failed_log st').
Proof.
  induction 1 as [st w|x xs st w o st1 w1 os st' w' Hs _ IH]; [done|].
  intros Hall. apply IH. by apply (review_step_entries _ _ _ _ _ _ Hs).
Qed.

Lemma run_log_length rows st w os st' w' :
  run_steps (review_step env) rows st w os st' w' ->
  Z.of_nat (length (failed_log st'))
  = Z.of_nat (length (failed_log st)) + count_if is_embed_fail os.
Proof.
  induction 1 as [st w|x xs st w o st1 w1 os st' w' Hs _ IH]; simpl; [lia|].
  apply review_step_log in Hs. apply (f_equal length) in Hs.
  rewrite length_app, !length_fmap in Hs. rewrite IH, Hs.
  destruct (is_embed_fail o); simpl; lia.
Qed.

End LedgerEntries.

(** X21: what the ledger of failed reviews keeps of the contents. A
    completed review run in which some embedding failed writes a ledger with
    one entry for each of these failures, and every entry has a preview of 1
    to 100 characters without a line break, no longer than the length it
    records. *)
Theorem ledger_previews_bounded (env : Env) (test_limit : option Z)
    (w w' : World) (report : Initial.Report) :
  Initial.process_reviews env test_limit w = (inl report, w') ->
  0 < count_if is_embed_fail (Initial.outcomes report) ->
  exists log,
    failures_file w' = Some log /\
    Z.of_nat (length log)
      = count_if is_embed_fail (Initial.outcomes report) /\
    Forall (fun f => preview_ok f = true) log.
Proof.
  intros Hr Hpos.
  apply process_reviews_inv in Hr
    as (rows & st' & w1 & _ & Hsteps & _ & _ & _ & _ & Hfile & _).
  pose proof (run_log_length env _ _ _ _ _ _ Hsteps) as Hlen.
  pose proof (run_entries env _ _ _ _ _ _ Hsteps) as Hall.
  simpl in Hlen, Hall. specialize (Hall (Forall_nil_2 _)).
  destruct (Initial.failed_log st') as [|e l] eqn:El.
  - simpl in Hlen. lia.
  - exists (e :: l). by rewrite Hfile, Hlen.
Qed.

(** The embedding service is down for a review of 150 characters on 50
    lines: the ledger gets one entry, with a preview on one line. *)
Lemma ledger_previews_bounded_witness :
  exists log,
    failures_file (snd EdgeExamples.multi_line_run) = Some log /\
    Z.of_nat (length log) = 1 /\
    Forall (fun f => preview_ok f = true) log.
Proof.
  apply (ledger_previews_bounded
           (Examples.ollama_down [] [EdgeExamples.multi_line]) None
           Examples.fresh (snd EdgeExamples.multi_line_run)
           (Examples.report_of Examples.no_report
              EdgeExamples.multi_line_run)).
  - vm_compute. reflexivity.
  - vm_compute. reflexivity.
Defined.
